(** * dify-claude-connector: the stdio <-> HTTP JSON-RPC bridge of [src/index.js]

    A shallow embedding of the bridge and of the fragment of ECMAScript it
    runs on, followed by the properties of its message normalisation:
    tool-name sanitising, response reconciliation, body decoding and the
    per-line message handler.

    Conventions.
    - A JavaScript string is the list of its UTF-16 code units ([jstr]).
    - A JavaScript value that can reach the program is [undefined] or a value
      produced by [JSON.parse]; objects keep their own properties in
      property order.
    - A number is a binary64 value: NaN, an infinity, or a finite double,
      which is named by the shortest signed decimal [m * 10^e] that rounds
      to it, the digits [Number::toString] prints.  A numeral is rounded
      to the nearest double, ties to even, when it is read.
    - Code that can raise returns a [completion]; code that writes to the
      process streams or to the session flag threads a [state]. *)

From Stdlib Require Import String Ascii.
From Stdlib Require Import List NArith ZArith Bool Lia.
From Stdlib Require DecimalFacts DecimalN.
Import ListNotations.

Set Warnings "-register-all".

(* ================================================================== *)
(** * Strings as UTF-16 code units *)
(* ================================================================== *)

Module JStr.
Local Open Scope N_scope.

Definition jstr := list N.

(** A source literal, character by character. *)
Definition lit (s : string) : jstr :=
  List.map N_of_ascii (list_ascii_of_string s).

(** A literal of JSON text written with apostrophes where the text has
    double quotes. *)
Definition json (s : string) : jstr :=
  List.map (fun c => if c =? 39 then 34 else c) (lit s).

Fixpoint eqb (a b : jstr) : bool :=
  match a, b with
  | [], [] => true
  | x :: a', y :: b' => (x =? y) && eqb a' b'
  | _, _ => false
  end.

(** WhiteSpace and LineTerminator of ECMAScript: what [trim] removes and
    what [\s] matches. *)
Definition is_ws (c : N) : bool :=
  (c =? 9) || (c =? 10) || (c =? 11) || (c =? 12) || (c =? 13) || (c =? 32)
  || (c =? 160) || (c =? 5760) || ((8192 <=? c) && (c <=? 8202))
  || (c =? 8232) || (c =? 8233) || (c =? 8239) || (c =? 8287)
  || (c =? 12288) || (c =? 65279).

Fixpoint trim_start (s : jstr) : jstr :=
  match s with
  | c :: t => if is_ws c then trim_start t else s
  | [] => []
  end.

Definition trim (s : jstr) : jstr :=
  rev (trim_start (rev (trim_start s))).

Fixpoint starts_with (pat s : jstr) : bool :=
  match pat, s with
  | [], _ => true
  | p :: pat', c :: s' => (p =? c) && starts_with pat' s'
  | _ :: _, [] => false
  end.

Fixpoint includes (pat s : jstr) : bool :=
  starts_with pat s ||
  match s with
  | [] => false
  | _ :: t => includes pat t
  end.

(** [s.split('\n')] *)
Fixpoint split_lf_from (cur s : jstr) : list jstr :=
  match s with
  | [] => [rev cur]
  | c :: t => if c =? 10 then rev cur :: split_lf_from [] t
              else split_lf_from (c :: cur) t
  end.

Definition split_lf (s : jstr) : list jstr := split_lf_from [] s.

(** [s.split('\n\n')]: separators are found left to right and do not
    overlap. *)
Fixpoint split_blank_from (cur s : jstr) : list jstr :=
  match s with
  | [] => [rev cur]
  | c :: t =>
      match t with
      | c2 :: t2 =>
          if (c =? 10) && (c2 =? 10) then rev cur :: split_blank_from [] t2
          else split_blank_from (c :: cur) t
      | [] => split_blank_from (c :: cur) t
      end
  end.

Definition split_blank (s : jstr) : list jstr := split_blank_from [] s.

(** [s.toLowerCase()] on the code units below 256, the range of an HTTP
    header value; other code units are left as they are. *)
Definition lower_unit (c : N) : N :=
  if ((65 <=? c) && (c <=? 90))
     || ((192 <=? c) && (c <=? 222) && negb (c =? 215))
  then c + 32 else c.

Definition to_lower (s : jstr) : jstr := List.map lower_unit s.

Definition is_digit (c : N) : bool := (48 <=? c) && (c <=? 57).

(** The decimal numeral of a natural number. *)
Fixpoint uint_units (d : Decimal.uint) : jstr :=
  match d with
  | Decimal.Nil => []
  | Decimal.D0 d => 48 :: uint_units d
  | Decimal.D1 d => 49 :: uint_units d
  | Decimal.D2 d => 50 :: uint_units d
  | Decimal.D3 d => 51 :: uint_units d
  | Decimal.D4 d => 52 :: uint_units d
  | Decimal.D5 d => 53 :: uint_units d
  | Decimal.D6 d => 54 :: uint_units d
  | Decimal.D7 d => 55 :: uint_units d
  | Decimal.D8 d => 56 :: uint_units d
  | Decimal.D9 d => 57 :: uint_units d
  end.

Definition decimal (n : N) : jstr := uint_units (N.to_uint n).

(** The value of a run of decimal digits. *)
Definition digits_value (ds : jstr) : N :=
  fold_left (fun acc d => acc * 10 + (d - 48)) ds 0.

Fixpoint span (p : N -> bool) (s : jstr) : jstr * jstr :=
  match s with
  | c :: t => if p c then let (a, b) := span p t in (c :: a, b) else ([], s)
  | [] => ([], [])
  end.

End JStr.
Export JStr.

(* ================================================================== *)
(** * Numbers *)
(* ================================================================== *)

Module JNum.

(** [Finite neg m e] is the double nearest to [(-1)^neg * m * 10^e];
    [Finite true 0 0] is the negative zero.  The numbers the program
    meets come from [normal] below, which names a double by its shortest
    decimal, and the operations on numbers read their argument through
    [normal]. *)
Inductive number :=
| NaN
| Infinity (neg : bool)
| Finite (neg : bool) (m : N) (e : Z).

(** Trailing decimal zeros of the mantissa move into the exponent, so that
    equal numbers are equal terms; one step per binary digit is more than
    the mantissa has decimal zeros ([strip10_fuel] below). *)
Fixpoint strip10 (fuel : nat) (m : N) (e : Z) : N * Z :=
  match fuel with
  | O => (m, e)
  | S f =>
      if ((m mod 10 =? 0) && negb (m =? 0))%N
      then strip10 f (m / 10)%N (e + 1)%Z
      else (m, e)
  end.

(** [num / den] divided by [2^E]: the quotient, the remainder and the
    divisor. *)
Definition scaled (num den : N) (E : Z) : N * N * N :=
  let '(n, d) :=
    if (0 <=? E)%Z then (num, den * 2 ^ Z.to_N E)%N
    else (num * 2 ^ Z.to_N (- E), den)%N in
  (n / d, n mod d, d)%N.

(** roundTiesToEven of the positive rational [num / den] to binary64: the
    double [M * 2^E], with [M < 2^53] and [-1074 <= E <= 971], or [None]
    when the rounding overflows.  [E0] places the quotient in
    [[2^51, 2^53)]; below [2^-1022] the exponent stays at [-1074]
    (subnormal doubles, and zero). *)
Definition nearest (num den : N) : option (N * Z) :=
  let E0 := (Z.of_N (N.log2 num) - Z.of_N (N.log2 den) - 52)%Z in
  let '(q0, _, _) := scaled num den E0 in
  let E1 := if (q0 <? 2 ^ 52)%N then (E0 - 1)%Z else E0 in
  let E := Z.max E1 (-1074) in
  let '(q, r, d) := scaled num den E in
  let up := ((d <? 2 * r) || ((2 * r =? d) && N.odd q))%N in
  let M := if up then (q + 1)%N else q in
  let '(M, E) := if (M =? 2 ^ 53)%N then ((2 ^ 52)%N, (E + 1)%Z) else (M, E) in
  if (971 <? E)%Z then None else Some (M, E).

(** The double nearest to [m * 10^e]. *)
Definition nearest10 (m : N) (e : Z) : option (N * Z) :=
  if (0 <=? e)%Z then nearest (m * 10 ^ Z.to_N e)%N 1
  else nearest m (10 ^ Z.to_N (- e))%N.

Definition same_double (a b : option (N * Z)) : bool :=
  match a, b with
  | Some (M, E), Some (M', E') => (M =? M')%N && (E =? E')%Z
  | None, None => true
  | _, _ => false
  end.

(** The digits of Number::toString: the shortest decimal [s * 10^p] that
    rounds to the double [x = vn / vd].  The search starts at one digit
    ([p] is the place of the leading digit of [x]) and takes one more
    digit at each step; 17 digits tell any two doubles apart.  Of the
    two decimals around [x] at a given length, the closer to [x] is
    taken when both round to [x], and the even one at equal distance. *)
Fixpoint shortest (fuel : nat) (x : N * Z) (vn vd : N) (p : Z) : N * Z :=
  let '(n, d) :=
    if (0 <=? p)%Z then (vn, vd * 10 ^ Z.to_N p)%N
    else (vn * 10 ^ Z.to_N (- p), vd)%N in
  let lo := (n / d)%N in
  let r := (n mod d)%N in
  let hi := (lo + 1)%N in
  let lo_ok := same_double (nearest10 lo p) (Some x) in
  let hi_ok := same_double (nearest10 hi p) (Some x) in
  let pick_lo := ((2 * r <? d) || ((2 * r =? d) && N.even lo))%N in
  if lo_ok && (negb hi_ok || pick_lo) then (lo, p)
  else if hi_ok then (hi, p)
  else match fuel with
       | O => (lo, p)
       | S f => shortest f x vn vd (p - 1)
       end.

(** The place of the leading decimal digit of a double [vn / vd] that is
    not zero: the number of digits of its integer part once it is
    scaled by [10^400], which brings the least double above 1. *)
Definition magnitude (vn vd : N) : Z :=
  (Z.of_nat (length (decimal (vn * 10 ^ 400 / vd))) - 400)%Z.

(** The shortest decimal of the double nearest to [m * 10^e]; [None]
    when the rounding overflows. *)
Definition canonical (m : N) (e : Z) : option (N * Z) :=
  match nearest10 m e with
  | None => None
  | Some (M, E) =>
      if (M =? 0)%N then Some (0%N, 0%Z) else
      let '(vn, vd) :=
        if (0 <=? E)%Z then ((M * 2 ^ Z.to_N E)%N, 1%N)
        else (M, (2 ^ Z.to_N (- E))%N) in
      Some (shortest 17 (M, E) vn vd (magnitude vn vd - 1))
  end.

(** The number a numeral [(-1)^neg * m * 10^e] denotes.  A numeral of
    310 digits or more before the point is above every double and one
    that starts 324 places or more after the point is below half the
    least double: they are settled without the powers of ten. *)
Definition normal (neg : bool) (m : N) (e : Z) : number :=
  if (m =? 0)%N then Finite neg 0 0 else
  let d := Z.of_nat (length (decimal m)) in
  if (310 <=? e + d)%Z then Infinity neg
  else if (e + d <=? -324)%Z then Finite neg 0 0
  else match canonical m e with
       | None => Infinity neg
       | Some (s, p) =>
           if (s =? 0)%N then Finite neg 0 0
           else let (s', p') := strip10 (N.to_nat (N.size s)) s p in
                Finite neg s' p'
       end.

Definition of_Z (z : Z) : number := normal (z <? 0)%Z (Z.abs_N z) 0.

Definition of_nat (n : nat) : number := normal false (N.of_nat n) 0.

(** ToBoolean on a number: zero and NaN are falsy. *)
Definition number_truthy (n : number) : bool :=
  match n with
  | NaN => false
  | Infinity _ => true
  | Finite neg m e =>
      match normal neg m e with
      | Finite _ s _ => negb (s =? 0)%N
      | Infinity _ => true
      | NaN => false
      end
  end.

Definition is_integer (n : number) : bool :=
  match n with
  | Finite neg m e =>
      match normal neg m e with
      | Finite _ _ e' => (0 <=? e')%Z
      | _ => false
      end
  | _ => false
  end.

Definition is_finite (n : number) : bool :=
  match n with
  | Finite neg m e =>
      match normal neg m e with Finite _ _ _ => true | _ => false end
  | _ => false
  end.

(** Number::toString with radix 10.  With [ds] the [k] significant digits
    and [n] the position of the decimal point, the four layouts of the
    standard: plain integer, decimal point inside, leading [0.], and
    exponent notation. *)
Definition Number_toString (x : number) : jstr :=
  match x with
  | NaN => lit "NaN"
  | Infinity false => lit "Infinity"
  | Infinity true => lit "-Infinity"
  | Finite neg m e =>
      match normal neg m e with
      | Finite _ s e' =>
          if (s =? 0)%N then lit "0" else
          let ds := decimal s in
          let k := Z.of_nat (length ds) in
          let n := (e' + k)%Z in
          let sign := if neg then lit "-" else [] in
          let body :=
            if ((k <=? n) && (n <=? 21))%Z then
              ds ++ repeat 48%N (Z.to_nat (n - k))
            else if ((0 <? n) && (n <=? 21))%Z then
              firstn (Z.to_nat n) ds ++ lit "." ++ skipn (Z.to_nat n) ds
            else if ((-6 <? n) && (n <=? 0))%Z then
              lit "0." ++ repeat 48%N (Z.to_nat (- n)) ++ ds
            else
              let ex := (n - 1)%Z in
              let exs := (if (ex <? 0)%Z then lit "-" else lit "+")
                           ++ decimal (Z.abs_N ex) in
              match ds with
              | [d] => [d] ++ lit "e" ++ exs
              | d :: rest => [d] ++ lit "." ++ rest ++ lit "e" ++ exs
              | [] => []
              end
          in sign ++ body
      | Infinity false => lit "Infinity"
      | Infinity true => lit "-Infinity"
      | NaN => lit "NaN"
      end
  end.

Local Open Scope N_scope.

Definition is_nil (s : jstr) : bool :=
  match s with [] => true | _ => false end.

(** ExponentPart, read to the end of the literal. *)
Definition exponent_part (r : jstr) : option Z :=
  match r with
  | [] => Some 0%Z
  | c :: r' =>
      if (c =? 101) || (c =? 69) then
        let '(neg, ds) :=
          match r' with
          | sg :: ds' =>
              if sg =? 45 then (true, ds')
              else if sg =? 43 then (false, ds')
              else (false, r')
          | [] => (false, r')
          end in
        if is_nil ds || negb (forallb is_digit ds) then None
        else Some (if neg then (- Z.of_N (digits_value ds))%Z
                   else Z.of_N (digits_value ds))
      else None
  end.

(** StrUnsignedDecimalLiteral *)
Definition unsigned_decimal (neg : bool) (s : jstr) : number :=
  if JStr.eqb s (lit "Infinity") then Infinity neg else
  let (ip, r1) := span is_digit s in
  let '(fp, r2) :=
    match r1 with
    | c :: r => if c =? 46 then span is_digit r else ([], r1)
    | [] => ([], [])
    end in
  if is_nil ip && is_nil fp then NaN else
  match exponent_part r2 with
  | Some ex => normal neg (digits_value (ip ++ fp))
                 (ex - Z.of_nat (length fp))%Z
  | None => NaN
  end.

Definition digit_of (c : N) : option N :=
  if is_digit c then Some (c - 48)
  else if (97 <=? c) && (c <=? 102) then Some (c - 87)
  else if (65 <=? c) && (c <=? 70) then Some (c - 55)
  else None.

Fixpoint radix_value (base : N) (s : jstr) (acc : N) : option N :=
  match s with
  | [] => Some acc
  | c :: t =>
      match digit_of c with
      | Some d => if d <? base then radix_value base t (acc * base + d)
                  else None
      | None => None
      end
  end.

(** NonDecimalIntegerLiteral after its two-character prefix. *)
Definition non_decimal (base : N) (ds : jstr) : number :=
  if is_nil ds then NaN else
  match radix_value base ds 0 with
  | Some v => normal false v 0
  | None => NaN
  end.

(** StringToNumber: the numeric value of a string, NaN when it is not a
    StringNumericLiteral. *)
Definition StringToNumber (s : jstr) : number :=
  let t := trim s in
  match t with
  | [] => Finite false 0 0
  | c :: r =>
      if c =? 45 then unsigned_decimal true r
      else if c =? 43 then unsigned_decimal false r
      else
        match r with
        | x :: ds =>
            if (c =? 48) && ((x =? 120) || (x =? 88)) then non_decimal 16 ds
            else if (c =? 48) && ((x =? 111) || (x =? 79)) then non_decimal 8 ds
            else if (c =? 48) && ((x =? 98) || (x =? 66)) then non_decimal 2 ds
            else unsigned_decimal false t
        | [] => unsigned_decimal false t
        end
  end.

End JNum.
Export JNum.

(* ================================================================== *)
(** * Values, completions and the abstract operations of the language *)
(* ================================================================== *)

Module JVal.

(** The values of the program: [undefined] and what [JSON.parse] builds.
    [Obj] lists the own properties of a plain object in property order. *)
Inductive value :=
| Undefined
| Null
| Bool (b : bool)
| Num (n : number)
| Str (s : jstr)
| Arr (items : list value)
| Obj (props : list (jstr * value)).

(** A raised [Error] instance: the name of its class and its message. *)
Record exn := MkError { exn_name : jstr; exn_message : jstr }.

Definition TypeError (msg : jstr) : exn := MkError (lit "TypeError") msg.
Definition SyntaxError (msg : jstr) : exn := MkError (lit "SyntaxError") msg.

(** [String(e)] on an Error instance (Error.prototype.toString). *)
Definition exn_toString (e : exn) : jstr :=
  match exn_name e, exn_message e with
  | [], m => m
  | n, [] => n
  | n, m => n ++ lit ": " ++ m
  end.

(** The outcome of evaluating code that may raise. *)
Inductive completion (A : Type) :=
| Normal (a : A)
| Throw (e : exn).

Arguments Normal {A} a.
Arguments Throw {A} e.

Definition bind {A B} (c : completion A) (k : A -> completion B) : completion B :=
  match c with
  | Normal a => k a
  | Throw e => Throw e
  end.

Definition returns {A} (c : completion A) : bool :=
  match c with Normal _ => true | Throw _ => false end.

End JVal.
Export JVal.

Declare Scope js_scope.
Delimit Scope js_scope with js.
Notation "x <- c ;; k" := (bind c (fun x => k))
  (at level 61, c at next level, right associativity) : js_scope.

Module JOps.
Local Open Scope js_scope.

(** ** Own properties *)

Fixpoint lookup (k : jstr) (ps : list (jstr * value)) : option value :=
  match ps with
  | [] => None
  | (k', v) :: t => if JStr.eqb k k' then Some v else lookup k t
  end.

Definition has_key (k : jstr) (ps : list (jstr * value)) : bool :=
  match lookup k ps with Some _ => true | None => false end.

Fixpoint replace (k : jstr) (v : value) (ps : list (jstr * value))
  : list (jstr * value) :=
  match ps with
  | [] => []
  | (k', v') :: t =>
      if JStr.eqb k k' then (k', v) :: t else (k', v') :: replace k v t
  end.

(** An array index: the canonical numeral of an integer below 2^32 - 1.
    Such keys come first among the own properties, in ascending order. *)
Definition array_index (k : jstr) : option N :=
  match k with
  | [] => None
  | c :: t =>
      if forallb is_digit k && (negb (c =? 48)%N || JNum.is_nil t)
         && (digits_value k <=? 4294967294)%N
      then Some (digits_value k) else None
  end.

Fixpoint insert_index (i : N) (k : jstr) (v : value)
  (ps : list (jstr * value)) : list (jstr * value) :=
  match ps with
  | [] => [(k, v)]
  | (k', v') :: t =>
      match array_index k' with
      | Some j => if (j <? i)%N then (k', v') :: insert_index i k v t
                  else (k, v) :: ps
      | None => (k, v) :: ps
      end
  end.

(** [o[k] = v] on a plain object: an existing property keeps its place, a
    new one goes after the others (an array index, among the indices). *)
Definition set_prop (k : jstr) (v : value) (ps : list (jstr * value))
  : list (jstr * value) :=
  if has_key k ps then replace k v ps
  else match array_index k with
       | Some i => insert_index i k v ps
       | None => ps ++ [(k, v)]
       end.

(** The own enumerable properties of an array value, as the spread
    [{...a}] copies them. *)
Fixpoint indexed (i : N) (l : list value) : list (jstr * value) :=
  match l with
  | [] => []
  | x :: t => (decimal i, x) :: indexed (i + 1)%N t
  end.

(** [v[k]] for a value other than [undefined] and [null].  Members
    inherited from the built-in prototypes are not modelled: the program
    reads none of them. *)
Definition get_own (v : value) (k : jstr) : value :=
  match v with
  | Obj ps => match lookup k ps with Some x => x | None => Undefined end
  | Arr l =>
      if JStr.eqb k (lit "length") then Num (of_nat (length l))
      else match array_index k with
           | Some i => nth (N.to_nat i) l Undefined
           | None => Undefined
           end
  | Str s =>
      if JStr.eqb k (lit "length") then Num (of_nat (length s))
      else match array_index k with
           | Some i => match nth_error s (N.to_nat i) with
                       | Some c => Str [c]
                       | None => Undefined
                       end
           | None => Undefined
           end
  | _ => Undefined
  end.

(** [v.k]: reading a property of [undefined] or [null] raises. *)
Definition get (v : value) (k : string) : completion value :=
  match v with
  | Undefined =>
      Throw (TypeError (lit "Cannot read properties of undefined (reading '"
                          ++ lit k ++ lit "')"))
  | Null =>
      Throw (TypeError (lit "Cannot read properties of null (reading '"
                          ++ lit k ++ lit "')"))
  | _ => Normal (get_own v (lit k))
  end.

(** [k in v]: raises unless [v] is an object. *)
Definition has_property (k : string) (v : value) : completion bool :=
  match v with
  | Obj ps => Normal (has_key (lit k) ps)
  | Arr l =>
      Normal (JStr.eqb (lit k) (lit "length")
              || match array_index (lit k) with
                 | Some i => (i <? N.of_nat (length l))%N
                 | None => false
                 end)
  | _ => Throw (TypeError (lit "Cannot use 'in' operator on a non-object"))
  end.

(** ** Type tests and conversions *)

Definition typeof (v : value) : jstr :=
  match v with
  | Undefined => lit "undefined"
  | Null => lit "object"
  | Bool _ => lit "boolean"
  | Num _ => lit "number"
  | Str _ => lit "string"
  | Arr _ => lit "object"
  | Obj _ => lit "object"
  end.

Definition is_array (v : value) : bool :=
  match v with Arr _ => true | _ => false end.

(** ToBoolean *)
Definition truthy (v : value) : bool :=
  match v with
  | Undefined | Null => false
  | Bool b => b
  | Num n => number_truthy n
  | Str s => negb (JNum.is_nil s)
  | Arr _ | Obj _ => true
  end.

(** [a ?? b] *)
Definition nullish (a b : value) : value :=
  match a with
  | Undefined | Null => b
  | _ => a
  end.

(** [a || b] *)
Definition or_else (a b : value) : value := if truthy a then a else b.

(** ToString.  A plain object converts through Object.prototype.toString
    unless it has an own property [toString]: a value read from JSON is
    never callable, [valueOf] returns the object itself, and
    OrdinaryToPrimitive raises.  An array converts through [join]. *)
Fixpoint ToString (v : value) : completion jstr :=
  match v with
  | Undefined => Normal (lit "undefined")
  | Null => Normal (lit "null")
  | Bool true => Normal (lit "true")
  | Bool false => Normal (lit "false")
  | Num n => Normal (Number_toString n)
  | Str s => Normal s
  | Obj ps =>
      if has_key (lit "toString") ps
      then Throw (TypeError (lit "Cannot convert object to primitive value"))
      else Normal (lit "[object Object]")
  | Arr l =>
      (fix join (first : bool) (l : list value) : completion jstr :=
         match l with
         | [] => Normal []
         | x :: t =>
             sx <- match x with
                   | Undefined | Null => Normal []
                   | _ => ToString x
                   end ;;
             st <- join false t ;;
             Normal ((if first then [] else lit ",") ++ sx ++ st)
         end) true l
  end.

(** ToNumber; an object converts through its string. *)
Definition ToNumber (v : value) : completion number :=
  match v with
  | Undefined => Normal NaN
  | Null => Normal (of_Z 0)
  | Bool true => Normal (of_Z 1)
  | Bool false => Normal (of_Z 0)
  | Num n => Normal n
  | Str s => Normal (StringToNumber s)
  | Arr _ | Obj _ => s <- ToString v ;; Normal (StringToNumber s)
  end.

End JOps.
Export JOps.

(* ================================================================== *)
(** * JSON.stringify and JSON.parse *)
(* ================================================================== *)

Module JSON.
Local Open Scope N_scope.

Definition hex_digit (d : N) : N := if d <? 10 then 48 + d else 87 + d.

(** [\uXXXX] with lower-case digits. *)
Definition unicode_escape (c : N) : jstr :=
  [92; 117; hex_digit (c / 4096 mod 16); hex_digit (c / 256 mod 16);
   hex_digit (c / 16 mod 16); hex_digit (c mod 16)].

Definition is_high_surrogate (c : N) : bool := (55296 <=? c) && (c <=? 56319).
Definition is_low_surrogate (c : N) : bool := (56320 <=? c) && (c <=? 57343).

Definition quote_unit (c : N) : jstr :=
  if c =? 34 then [92; 34]
  else if c =? 92 then [92; 92]
  else if c =? 8 then [92; 98]
  else if c =? 9 then [92; 116]
  else if c =? 10 then [92; 110]
  else if c =? 12 then [92; 102]
  else if c =? 13 then [92; 114]
  else if c <? 32 then unicode_escape c
  else if is_high_surrogate c || is_low_surrogate c then unicode_escape c
  else [c].

(** The body of QuoteJSONString: a surrogate pair is kept, a lone
    surrogate is escaped. *)
Fixpoint quote_units (s : jstr) : jstr :=
  match s with
  | [] => []
  | c :: t =>
      match t with
      | c2 :: t2 =>
          if is_high_surrogate c && is_low_surrogate c2
          then c :: c2 :: quote_units t2
          else quote_unit c ++ quote_units t
      | [] => quote_unit c
      end
  end.

Definition quote (s : jstr) : jstr := [34] ++ quote_units s ++ [34].

(** [JSON.stringify(v)]; [None] is the result [undefined].  A property
    whose value is [undefined] is left out, an [undefined] array element is
    written [null], and so is a number that is not finite. *)
Fixpoint stringify (v : value) : option jstr :=
  match v with
  | Undefined => None
  | Null => Some (lit "null")
  | Bool true => Some (lit "true")
  | Bool false => Some (lit "false")
  | Num n => Some (if is_finite n then Number_toString n else lit "null")
  | Str s => Some (quote s)
  | Arr l =>
      Some (lit "[" ++
            (fix items (first : bool) (l : list value) : jstr :=
               match l with
               | [] => []
               | x :: t =>
                   (if first then [] else lit ",")
                   ++ match stringify x with Some s => s | None => lit "null" end
                   ++ items false t
               end) true l
            ++ lit "]")
  | Obj ps =>
      Some (lit "{" ++
            (fix members (first : bool) (ps : list (jstr * value)) : jstr :=
               match ps with
               | [] => []
               | (k, x) :: t =>
                   match stringify x with
                   | Some s => (if first then [] else lit ",")
                               ++ quote k ++ lit ":" ++ s ++ members false t
                   | None => members first t
                   end
               end) true ps
            ++ lit "}")
  end.

(** *** Parsing *)

Definition is_json_ws (c : N) : bool :=
  (c =? 9) || (c =? 10) || (c =? 13) || (c =? 32).

Fixpoint skip_ws (s : jstr) : jstr :=
  match s with
  | c :: t => if is_json_ws c then skip_ws t else s
  | [] => []
  end.

Definition hex4 (a b c d : N) : option N :=
  match digit_of a, digit_of b, digit_of c, digit_of d with
  | Some x, Some y, Some z, Some w => Some (((x * 16 + y) * 16 + z) * 16 + w)
  | _, _, _, _ => None
  end.

Definition simple_escape (e : N) : option N :=
  if e =? 34 then Some 34
  else if e =? 92 then Some 92
  else if e =? 47 then Some 47
  else if e =? 98 then Some 8
  else if e =? 102 then Some 12
  else if e =? 110 then Some 10
  else if e =? 114 then Some 13
  else if e =? 116 then Some 9
  else None.

(** The characters of a string literal after its opening quote: the
    decoded string and the text after the closing quote. *)
Fixpoint string_chars (acc s : jstr) : option (jstr * jstr) :=
  match s with
  | [] => None
  | c :: t =>
      if c =? 34 then Some (rev acc, t)
      else if c =? 92 then
        match t with
        | e :: t1 =>
            if e =? 117 then
              match t1 with
              | h1 :: h2 :: h3 :: h4 :: t5 =>
                  match hex4 h1 h2 h3 h4 with
                  | Some u => string_chars (u :: acc) t5
                  | None => None
                  end
              | _ => None
              end
            else
              match simple_escape e with
              | Some u => string_chars (u :: acc) t1
              | None => None
              end
        | [] => None
        end
      else if c <? 32 then None
      else string_chars (c :: acc) t
  end.

(** A number literal at the head of the text. *)
Definition number_literal (s : jstr) : option (number * jstr) :=
  let '(neg, s1) :=
    match s with
    | c :: t => if c =? 45 then (true, t) else (false, s)
    | [] => (false, s)
    end in
  let (ip, r1) := span is_digit s1 in
  match ip with
  | [] => None
  | d :: ds =>
      if (d =? 48) && negb (JNum.is_nil ds) then None else
      let frac :=
        match r1 with
        | c :: r =>
            if c =? 46 then
              let (fp, r2) := span is_digit r in
              if JNum.is_nil fp then None else Some (fp, r2)
            else Some ([], r1)
        | [] => Some ([], r1)
        end in
      match frac with
      | None => None
      | Some (fp, r2) =>
          let expo :=
            match r2 with
            | c :: r =>
                if (c =? 101) || (c =? 69) then
                  let '(eneg, r') :=
                    match r with
                    | sg :: r'' =>
                        if sg =? 45 then (true, r'')
                        else if sg =? 43 then (false, r'')
                        else (false, r)
                    | [] => (false, r)
                    end in
                  let (ed, r3) := span is_digit r' in
                  if JNum.is_nil ed then None
                  else Some ((if eneg then - Z.of_N (digits_value ed)
                              else Z.of_N (digits_value ed))%Z, r3)
                else Some (0%Z, r2)
            | [] => Some (0%Z, r2)
            end in
          match expo with
          | None => None
          | Some (ex, r3) =>
              Some (normal neg (digits_value (ip ++ fp))
                      (ex - Z.of_nat (length fp))%Z, r3)
          end
      end
  end.

Definition keyword (w : string) (v : value) (s : jstr) : option (value * jstr) :=
  if starts_with (lit w) s then Some (v, skipn (length (lit w)) s) else None.

(** The recursive descent.  Every call consumes at least one character
    within two steps, so [2 * length s + 2] steps suffice for a text [s]
    ([parser_fuel] below). *)
Fixpoint parse_value (fuel : nat) (s : jstr) : option (value * jstr) :=
  match fuel with
  | O => None
  | S f =>
      match skip_ws s with
      | [] => None
      | c :: t =>
          if c =? 110 then keyword "null" Null (c :: t)
          else if c =? 116 then keyword "true" (Bool true) (c :: t)
          else if c =? 102 then keyword "false" (Bool false) (c :: t)
          else if c =? 34 then
            match string_chars [] t with
            | Some (str, r) => Some (Str str, r)
            | None => None
            end
          else if c =? 91 then
            match skip_ws t with
            | c' :: t' =>
                if c' =? 93 then Some (Arr [], t')
                else
                  match parse_elements f [] t with
                  | Some (l, r) => Some (Arr l, r)
                  | None => None
                  end
            | [] => None
            end
          else if c =? 123 then
            match skip_ws t with
            | c' :: t' =>
                if c' =? 125 then Some (Obj [], t')
                else
                  match parse_members f [] t with
                  | Some (ps, r) => Some (Obj ps, r)
                  | None => None
                  end
            | [] => None
            end
          else
            match number_literal (c :: t) with
            | Some (n, r) => Some (Num n, r)
            | None => None
            end
      end
  end

with parse_elements (fuel : nat) (acc : list value) (s : jstr)
  : option (list value * jstr) :=
  match fuel with
  | O => None
  | S f =>
      match parse_value f s with
      | Some (v, r) =>
          match skip_ws r with
          | c :: t =>
              if c =? 44 then parse_elements f (v :: acc) t
              else if c =? 93 then Some (rev (v :: acc), t)
              else None
          | [] => None
          end
      | None => None
      end
  end

with parse_members (fuel : nat) (acc : list (jstr * value)) (s : jstr)
  : option (list (jstr * value) * jstr) :=
  match fuel with
  | O => None
  | S f =>
      match skip_ws s with
      | q :: t0 =>
          if q =? 34 then
            match string_chars [] t0 with
            | Some (k, r0) =>
                match skip_ws r0 with
                | col :: r1 =>
                    if col =? 58 then
                      match parse_value f r1 with
                      | Some (v, r) =>
                          match skip_ws r with
                          | c :: t =>
                              if c =? 44 then parse_members f (set_prop k v acc) t
                              else if c =? 125 then Some (set_prop k v acc, t)
                              else None
                          | [] => None
                          end
                      | None => None
                      end
                    else None
                | [] => None
                end
            | None => None
            end
          else None
      | [] => None
      end
  end.

(** [JSON.parse(text)] *)
Definition parse (s : jstr) : completion value :=
  match parse_value (2 * length s + 2) s with
  | Some (v, r) =>
      match skip_ws r with
      | [] => Normal v
      | _ => Throw (SyntaxError (lit "Unexpected non-whitespace character after JSON"))
      end
  | None => Throw (SyntaxError (lit "Unexpected token in JSON"))
  end.

(** [JSON.parse(v)] converts its argument to a string first. *)
Definition parse_any (v : value) : completion value :=
  bind (ToString v) parse.

End JSON.

(* ================================================================== *)
(** * The bridge *)
(* ================================================================== *)

Module Bridge.
Local Open Scope js_scope.

(** ** Process state and the environment *)

(** An argument of [console.error]. *)
Inductive logarg :=
| LogValue (v : value)
| LogError (e : exn).

(** - [stdout]: the objects written to standard output, oldest first; each
      one is written as [JSON.stringify(obj) + '\n'] (see [stdout_text]);
    - [stderr]: the calls of [log], oldest first;
    - [requests]: the bodies POSTed to the remote, oldest first;
    - [initialized]: the module variable of that name. *)
Record state := MkState {
  stdout : list value;
  stderr : list (list logarg);
  requests : list (option jstr);
  initialized : bool
}.

Definition initial_state : state := MkState [] [] [] false.

(** The text on standard output. *)
Definition stdout_text (st : state) : jstr :=
  flat_map (fun obj =>
              match JSON.stringify obj with
              | Some s => s
              | None => lit "undefined"
              end ++ [10%N])
           (stdout st).

(** What one [fetch] of the remote endpoint comes to: a rejection (network
    failure, abort on timeout, failure while reading the body), or a
    response with its status, its content-type header and its body. *)
Inductive http_outcome :=
| Rejected (e : exn)
| Responded (status : N) (content_type : option jstr) (text : jstr).

(** The remote, as a function of the request body. *)
Definition network := option jstr -> http_outcome.

(** Computations of the bridge: they may raise, and they act on the
    state either way. *)
Definition M (A : Type) : Type := state -> completion A * state.

Definition ret {A} (a : A) : M A := fun st => (Normal a, st).

Definition mbind {A B} (m : M A) (k : A -> M B) : M B :=
  fun st =>
    match m st with
    | (Normal a, st') => k a st'
    | (Throw e, st') => (Throw e, st')
    end.

Definition lift {A} (c : completion A) : M A := fun st => (c, st).

Definition write (obj : value) : M unit :=
  fun st => (Normal tt,
             MkState (stdout st ++ [obj]) (stderr st) (requests st)
                     (initialized st)).

Definition set_initialized (b : bool) : M unit :=
  fun st => (Normal tt, MkState (stdout st) (stderr st) (requests st) b).

Definition fetch (net : network) (body : option jstr) : M http_outcome :=
  fun st => (Normal (net body),
             MkState (stdout st) (stderr st) (requests st ++ [body])
                     (initialized st)).

(** [log(...a)]: [console.error('[dify-bridge]', ...a)] *)
Definition log (a : list logarg) : M unit :=
  fun st => (Normal tt,
             MkState (stdout st)
                     (stderr st ++ [LogValue (Str (lit "[dify-bridge]")) :: a])
                     (requests st) (initialized st)).

End Bridge.

Declare Scope io_scope.
Delimit Scope io_scope with io.
Notation "x <- c ;; k" := (Bridge.mbind c (fun x => k))
  (at level 61, c at next level, right associativity) : io_scope.
Notation "c ;;; k" := (Bridge.mbind c (fun _ => k))
  (at level 61, right associativity) : io_scope.

Module Tools.
Import Bridge.
Local Open Scope js_scope.

(** ** Tool names *)

(** The class [[a-zA-Z0-9_-]] *)
Definition allowed (c : N) : bool :=
  ((97 <=? c) && (c <=? 122) || (65 <=? c) && (c <=? 90)
   || (48 <=? c) && (c <=? 57) || (c =? 95) || (c =? 45))%N.

(** [s.replace(/[^a-zA-Z0-9_-]/g, '_')] *)
Definition replace_disallowed (s : jstr) : jstr :=
  List.map (fun c => if allowed c then c else 95%N) s.

(** [sanitizeToolName(name, fallbackBase)]; every caller passes the
    fallback. *)
Definition sanitizeToolName (name : value) (fallbackBase : jstr)
  : completion jstr :=
  s <- ToString (nullish name (Str [])) ;;
  let cleaned := firstn 64 (replace_disallowed s) in
  Normal (if JNum.is_nil cleaned then fallbackBase else cleaned).

(** [`tool_${i+1}`]; an index of an array is below 2^32, where the
    numeral is plain decimal. *)
Definition tool_label (i : nat) : jstr :=
  lit "tool_" ++ decimal (N.of_nat (i + 1)).

(** [{...v}]: the own enumerable properties of [v]. *)
Definition spread (v : value) : list (jstr * value) :=
  match v with
  | Obj ps => ps
  | Arr l => indexed 0 l
  | Str s => indexed 0 (List.map (fun c => Str [c]) s)
  | _ => []
  end.

(** The callback of [result.tools.map]. *)
Definition repair_tool (i : nat) (t : value) : completion value :=
  if negb (truthy t) || negb (JStr.eqb (typeof t) (lit "object"))
  then Normal t
  else
    n <- get t "name" ;;
    name <- sanitizeToolName (nullish n (Str (tool_label i))) (tool_label i) ;;
    Normal (Obj (set_prop (lit "name") (Str name) (spread t))).

(** [tools.map(f)], the callback applied from index [i] on. *)
Fixpoint map_from (f : nat -> value -> completion value) (i : nat)
  (l : list value) : completion (list value) :=
  match l with
  | [] => Normal []
  | t :: rest =>
      t' <- f i t ;;
      rest' <- map_from f (S i) rest ;;
      Normal (t' :: rest')
  end.

(** [repairToolsInInitializeResult(result)] *)
Definition repairToolsInInitializeResult (result : value) : completion value :=
  if negb (truthy result) then Normal result
  else
    ts <- get result "tools" ;;
    match ts with
    | Arr l =>
        tools <- map_from repair_tool 0 l ;;
        Normal (Obj (set_prop (lit "tools") (Arr tools) (spread result)))
    | _ => Normal result
    end.

End Tools.
Export Tools.

Module Frames.
Import Bridge.
Local Open Scope js_scope.

(** ** Writing frames *)

Definition is_undefined (v : value) : bool :=
  match v with Undefined => true | _ => false end.

(** [if (k in obj) out[k] = obj[k]] *)
Definition copy_field (k : string) (obj : value) (out : list (jstr * value))
  : completion (list (jstr * value)) :=
  h <- has_property k obj ;;
  if h then v <- get obj k ;; Normal (set_prop (lit k) v out)
  else Normal out.

(** The object [out] that [sendResponse(obj)] serialises. *)
Definition response_object (obj : value) : completion value :=
  let out := set_prop (lit "jsonrpc") (Str (lit "2.0")) [] in
  out <- (if truthy obj && JStr.eqb (typeof obj) (lit "object") then
            out <- copy_field "id" obj out ;;
            out <- copy_field "result" obj out ;;
            copy_field "error" obj out
          else Normal out) ;;
  let out :=
    if negb (has_key (lit "result") out) && negb (has_key (lit "error") out)
    then set_prop (lit "error")
           (Obj [(lit "code", Num (of_Z (-32603)));
                 (lit "message", Str (lit "Internal error: empty response"))])
           out
    else out in
  let out :=
    if negb (has_key (lit "id") out) then set_prop (lit "id") Null out
    else out in
  Normal (Obj out).

(** [sendResponse(obj)] *)
Definition sendResponse (obj : value) : M unit :=
  (out <- lift (response_object obj) ;;
   write out)%io.

(** The object that [sendNotification(method, params)] serialises. *)
Definition notification_object (method params : value) : completion value :=
  m <- ToString (or_else method (Str [])) ;;
  Normal (Obj [(lit "jsonrpc", Str (lit "2.0"));
               (lit "method", Str m);
               (lit "params", nullish params (Obj []))]).

(** [sendNotification(method, params)] *)
Definition sendNotification (method params : value) : M unit :=
  (obj <- lift (notification_object method params) ;;
   write obj)%io.

(** [makeError(id, code, message, data)]; [data] is [Undefined] when the
    caller leaves it out. *)
Definition makeError (id : value) (code : Z) (message : jstr) (data : value)
  : value :=
  let err := [(lit "code", Num (of_Z code)); (lit "message", Str message)] in
  let err := if negb (is_undefined data) then set_prop (lit "data") data err
             else err in
  Obj [(lit "jsonrpc", Str (lit "2.0"));
       (lit "id", nullish id Null);
       (lit "error", Obj err)].

End Frames.
Export Frames.

Module Decode.
Import Bridge.
Local Open Scope js_scope.

(** ** Decoding the body of the remote's response *)

(** The inner loop of [parseSseLike]: the lines of one chunk. *)
Definition scan_lines (lastData : option jstr) (lines : list jstr)
  : option jstr :=
  fold_left
    (fun last line =>
       if starts_with (lit "data:") line then
         let payload := trim (skipn 5 line) in
         if negb (JNum.is_nil payload) then Some payload else last
       else last)
    lines lastData.

(** The outer loop, over
    [text.split('\n\n').map(c => c.trim()).filter(Boolean)]. *)
Definition scan_chunks (text : jstr) : option jstr :=
  let chunks :=
    filter (fun c => negb (JNum.is_nil c)) (List.map trim (split_blank text)) in
  fold_left (fun last chunk => scan_lines last (split_lf chunk)) chunks None.

(** [[\s\S]*?\}(?=\n|$)] after the opening brace: the shortest run that
    ends in a closing brace standing before a line feed or at the end of
    the text.  Returns the capture and the text after the match. *)
Fixpoint lazy_object (acc s : jstr) : option (jstr * jstr) :=
  match s with
  | [] => None
  | c :: t =>
      if (c =? 125)%N
         && match t with [] => true | n :: _ => (n =? 10)%N end
      then Some (rev (c :: acc), t)
      else lazy_object (c :: acc) t
  end.

(** A match of [/data:\s*(\{[\s\S]*?\})(?=\n|$)/] at the head of [s]. *)
Definition match_here (s : jstr) : option (jstr * jstr) :=
  if starts_with (lit "data:") s then
    match trim_start (skipn 5 s) with
    | c :: t => if (c =? 123)%N then lazy_object [c] t else None
    | [] => None
    end
  else None.

(** The captures of [text.matchAll(re)], left to right; a search resumes
    where the previous match ended.  One step per character and one more
    suffice ([all_matches_fuel] below). *)
Fixpoint all_matches (fuel : nat) (s : jstr) : list jstr :=
  match fuel with
  | O => []
  | S f =>
      match match_here s with
      | Some (capture, rest) => capture :: all_matches f rest
      | None =>
          match s with
          | [] => []
          | _ :: t => all_matches f t
          end
      end
  end.

(** The payload [parseSseLike] settles on before decoding it. *)
Definition last_data (text : jstr) : option jstr :=
  match scan_chunks text with
  | Some d => Some d
  | None =>
      if includes (lit "data:") text then
        last (List.map Some (all_matches (S (length text)) text)) None
      else None
  end.

(** [try { c } catch { k }] *)
Definition try_catch {A} (c : completion A) (k : A) : A :=
  match c with
  | Normal a => a
  | Throw _ => k
  end.

(** [parseSseLike(text)] *)
Definition parseSseLike (text : jstr) : value :=
  match last_data text with
  | None => Null
  | Some lastData =>
      match JSON.parse lastData with
      | Normal v => v
      | Throw _ =>
          try_catch (inner <- JSON.parse lastData ;; JSON.parse_any inner) Null
      end
  end.

(** The body of [forwardToRemote] once [fetch] has settled. *)
Definition decode_outcome (o : http_outcome) (expectId : value) : value :=
  match o with
  | Rejected e =>
      makeError expectId (-32098)
        (lit "Network error forwarding to remote MCP")
        (Str (if negb (JNum.is_nil (exn_message e)) then exn_message e
              else exn_toString e))
  | Responded status content_type text =>
      let ct := to_lower (match content_type with Some h => h | None => [] end) in
      if negb ((200 <=? status) && (status <=? 299))%N then
        makeError expectId (-32000)
          (lit "Remote MCP error " ++ decimal status) (Str text)
      else if includes (lit "text/event-stream") ct then
        let parsed := parseSseLike text in
        if negb (truthy parsed) then
          makeError expectId (-32700) (lit "Parse error (no SSE data)") (Str text)
        else parsed
      else
        match JSON.parse text with
        | Normal v => v
        | Throw _ =>
            let parsed := parseSseLike text in
            if truthy parsed then parsed
            else makeError expectId (-32700)
                   (lit "Parse error (invalid JSON)") (Str text)
        end
  end.

(** [forwardToRemote(payload, expectId)] *)
Definition forwardToRemote (net : network) (payload expectId : value) : M value :=
  (o <- fetch net (JSON.stringify payload) ;;
   ret (decode_outcome o expectId))%io.

End Decode.
Export Decode.

Module Session.
Import Bridge.
Local Open Scope js_scope.

(** ** Reconciling the remote's answer *)

(** [localInitializeSuccess(id)] *)
Definition localInitializeSuccess (id : value) : M value :=
  (set_initialized true ;;;
   ret (Obj [(lit "jsonrpc", Str (lit "2.0"));
             (lit "id", id);
             (lit "result",
              Obj [(lit "protocolVersion", Str (lit "2024-11-05"));
                   (lit "serverInfo",
                    Obj [(lit "name", Str (lit "dify-mcp-bridge"));
                         (lit "version", Str (lit "1.0.0"))]);
                   (lit "capabilities", Obj []);
                   (lit "tools", Arr [])])]))%io.

(** [normalizeRemoteError(err)] *)
Definition normalizeRemoteError (err : value) : completion value :=
  if negb (truthy err) || negb (JStr.eqb (typeof err) (lit "object")) then
    m <- ToString (nullish err (Str (lit "Remote error"))) ;;
    Normal (Obj [(lit "code", Num (of_Z (-32000))); (lit "message", Str m)])
  else
    c <- get err "code" ;;
    s <- get err "status" ;;
    code <- ToNumber (if negb (is_undefined c) then c
                      else if negb (is_undefined s) then s
                      else Num (of_Z (-32000))) ;;
    m <- get err "message" ;;
    e <- get err "error" ;;
    r <- get err "reason" ;;
    message <- ToString (nullish m (nullish e (nullish r (Str (lit "Remote error"))))) ;;
    let out := [(lit "code", Num code); (lit "message", Str message)] in
    d <- get err "data" ;;
    Normal (Obj (if negb (is_undefined d) then set_prop (lit "data") d out
                 else out)).

(** [{ jsonrpc: '2.0', id: resp.id ?? fallbackId ?? null, [k]: v }] *)
Definition reply (resp fallbackId : value) (k : string) (v : value)
  : completion value :=
  i <- get resp "id" ;;
  Normal (Obj [(lit "jsonrpc", Str (lit "2.0"));
               (lit "id", nullish i (nullish fallbackId Null));
               (lit k, v)]).

(** The tests of [coerceToValidResponseForClient] that read [resp] once
    it is known to be an object. *)
Definition is_remote_notification (resp : value) : completion bool :=
  if truthy resp && JStr.eqb (typeof resp) (lit "object") then
    hm <- has_property "method" resp ;;
    hi <- has_property "id" resp ;;
    Normal (hm && negb hi)
  else Normal false.

(** [coerceToValidResponseForClient(resp, fallbackId)] *)
Definition coerceToValidResponseForClient (resp fallbackId : value) : M value :=
  (notif <- lift (is_remote_notification resp) ;;
   if notif then
     m <- lift (get resp "method") ;;
     let method := if JStr.eqb (typeof m) (lit "string") then m
                   else Str (lit "remote/notification") in
     p <- lift (get resp "params") ;;
     let params := if truthy p && JStr.eqb (typeof p) (lit "object") then p
                   else Obj [] in
     sendNotification method params ;;;
     ret (Obj [(lit "jsonrpc", Str (lit "2.0"));
               (lit "id", nullish fallbackId Null);
               (lit "result", Obj [(lit "ok", Bool true)])])
   else if negb (truthy resp) || negb (JStr.eqb (typeof resp) (lit "object")) then
     ret (makeError fallbackId (-32603) (lit "Remote returned non-object") Undefined)
   else
     he <- lift (has_property "error" resp) ;;
     e <- lift (get resp "error") ;;
     if he && negb (is_undefined e)
        && negb (match e with Null => true | _ => false end) then
       norm <- lift (normalizeRemoteError e) ;;
       lift (reply resp fallbackId "error" norm)
     else
       hr <- lift (has_property "result" resp) ;;
       hm <- lift (has_property "message" resp) ;;
       hs <- lift (has_property "status" resp) ;;
       if negb hr && (hm || hs) then
         norm <- lift (normalizeRemoteError resp) ;;
         lift (reply resp fallbackId "error" norm)
       else if negb hr then
         ret (makeError fallbackId (-32603)
                (lit "Remote missing result and error") Undefined)
       else
         r <- lift (get resp "result") ;;
         lift (reply resp fallbackId "result" r))%io.

(** ** The message handler *)

(** [v[k] = x] in strict mode.  In this model an array holds no named
    property; [handleMessage] assigns only to a value whose [result] is
    truthy, which is a plain object ([truthy_result_is_object] below). *)
Definition assign (v : value) (k : string) (x : value) : completion value :=
  match v with
  | Obj ps => Normal (Obj (set_prop (lit k) x ps))
  | Undefined | Null =>
      Throw (TypeError (lit "Cannot set properties of undefined or null"))
  | _ => Throw (TypeError (lit "Cannot create property on a primitive value"))
  end.

(** [remote && remote.k], as a condition. *)
Definition and_field (remote : value) (k : string) : completion value :=
  if truthy remote then get remote k else Normal remote.

(** The [initialize] branch of [handleMessage]. *)
Definition handle_initialize (net : network) (msg id : value) : M unit :=
  (remote <- forwardToRemote net msg id ;;
   res <- lift (and_field remote "result") ;;
   if truthy res then
     set_initialized true ;;;
     r <- lift (get remote "result") ;;
     r' <- lift (repairToolsInInitializeResult r) ;;
     remote <- lift (assign remote "result" r') ;;
     safe <- coerceToValidResponseForClient remote id ;;
     sendResponse safe
   else
     err <- lift (and_field remote "error") ;;
     if truthy err then
       log [LogValue (Str (lit "Remote initialize failed, returning local minimal initialize. Remote error:"));
            LogValue err] ;;;
       local <- localInitializeSuccess id ;;
       sendResponse local ;;;
       e <- lift (get remote "error") ;;
       m <- lift (get e "message") ;;
       text <- lift (ToString (or_else m (Str (lit "unknown")))) ;;
       sendNotification (Str (lit "notifications/message"))
         (Obj [(lit "level", Str (lit "warning"));
               (lit "message",
                Str (lit "dify-bridge: remote initialize failed (" ++ text ++ lit ")"))])
     else
       local <- localInitializeSuccess id ;;
       sendResponse local)%io.

(** The branch of [handleMessage] for every other method. *)
Definition handle_other (net : network) (msg id : value) : M unit :=
  (remote <- forwardToRemote net msg id ;;
   res <- lift (and_field remote "result") ;;
   has_tools <- lift (if truthy res
                      then (ts <- get res "tools" ;; Normal (is_array ts))%js
                      else Normal false) ;;
   remote <- (if has_tools then
                r <- lift (get remote "result") ;;
                r' <- lift (repairToolsInInitializeResult r) ;;
                lift (assign remote "result" r')
              else ret remote) ;;
   safe <- coerceToValidResponseForClient remote id ;;
   sendResponse safe)%io.

(** [handleMessage(line)] *)
Definition handleMessage (net : network) (line : jstr) : M unit :=
  if JNum.is_nil line || JNum.is_nil (trim line) then ret tt
  else
    match JSON.parse line with
    | Throw _ => ret tt
    | Normal msg =>
        (i <- lift (get msg "id") ;;
         let id := nullish i Null in
         method <- lift (get msg "method") ;;
         if negb (JStr.eqb (typeof method) (lit "string")) || negb (truthy method)
         then
           sendResponse (makeError id (-32600)
                           (lit "Invalid Request: missing method") Undefined)
         else if JStr.eqb (match method with Str s => s | _ => [] end)
                          (lit "initialize")
         then handle_initialize net msg id
         else handle_other net msg id)%io
    end.

(** The listener [l => { handleMessage(l).catch(err => log(...)) }]: a
    rejection is logged and the process goes on to the next line.  A line
    is handled in one piece here: its only suspension is the call of the
    remote, before which it writes nothing, and what it writes after it is
    written without interruption. *)
Definition on_line (net : network) (line : jstr) (st : state) : state :=
  match handleMessage net line st with
  | (Normal _, st') => st'
  | (Throw e, st') =>
      snd (log [LogValue (Str (lit "handleMessage error")); LogError e] st')
  end.

End Session.
Export Session.

(* ================================================================== *)
(** * The vocabulary of the statements *)
(* ================================================================== *)

Import Bridge.
Local Open Scope js_scope.

(** The properties under the keys other than [k], in their order. *)
Definition others (k : jstr) (ps : list (jstr * value)) : list (jstr * value) :=
  filter (fun p => negb (JStr.eqb k (fst p))) ps.

(** The name [sanitizeToolName] computes from the string of a name, at
    the descriptor of index [i]. *)
Definition sanitized (i : nat) (s : jstr) : jstr :=
  let cleaned := firstn 64 (replace_disallowed s) in
  if JNum.is_nil cleaned then tool_label i else cleaned.

(** The bound of the language on the length of an array. *)
Definition array_limit : N := 4294967296.

(** [typeof v === 'object'] for a truthy [v]: an array or a plain object. *)
Definition is_object (v : value) : bool :=
  match v with Arr _ | Obj _ => true | _ => false end.

(** The properties of a repaired descriptor. *)
Definition props_of (v : value) : list (jstr * value) :=
  match v with Obj ps => ps | _ => [] end.

(** The tool list of a payload is within the bound on array lengths. *)
Definition tools_within_limit (result : value) : Prop :=
  forall l, get_own result (lit "tools") = Arr l ->
            (N.of_nat (length l) < array_limit)%N.

(** The name of every object in a tool list converts to a string. *)
Definition names_convert (l : list value) : Prop :=
  forall i t, nth_error l i = Some t -> is_object t = true ->
    returns (ToString (nullish (get_own t (lit "name")) (Str (tool_label i)))) = true.

(** The descriptor [t'] is [t] with its name sanitised: the own
    properties of [t] with [name] set to the sanitised string of
    [t.name ?? `tool_${i+1}`]. *)
Definition renamed (i : nat) (t t' : value) : Prop :=
  exists s,
    ToString (nullish (get_own t (lit "name")) (Str (tool_label i))) = Normal s
    /\ t' = Obj (set_prop (lit "name") (Str (sanitized i s)) (spread t)).

(** A response frame and a notification frame. *)
Definition response (id : value) (k : string) (body : value) : value :=
  Obj [(lit "jsonrpc", Str (lit "2.0")); (lit "id", id); (lit k, body)].

Definition notification (method : jstr) (params : value) : value :=
  Obj [(lit "jsonrpc", Str (lit "2.0")); (lit "method", Str method);
       (lit "params", params)].

Definition is_nullish (v : value) : bool :=
  match v with Undefined | Null => true | _ => false end.

(** The state after one more frame. *)
Definition wrote (obj : value) (st : state) : state :=
  MkState (stdout st ++ [obj]) (stderr st) (requests st) (initialized st).

(** The reply [safe] is a response frame addressed to the fallback
    identifier or to the identifier the remote gave. *)
Definition reconciled (resp fallbackId safe : value) : Prop :=
  exists i k body,
    safe = response i k body
    /\ (k = "result"%string \/ k = "error"%string)
    /\ (i = nullish fallbackId Null
        \/ (i = get_own resp (lit "id") /\ is_nullish i = false)).

(** The request a line carries, its identifier, and what the remote
    answers to it once decoded. *)
Definition request_of (line : jstr) : value :=
  match JSON.parse line with Normal msg => msg | Throw _ => Undefined end.

Definition request_id (line : jstr) : value :=
  nullish (get_own (request_of line) (lit "id")) Null.

Definition remote_payload (net : network) (line : jstr) : value :=
  decode_outcome (net (JSON.stringify (request_of line))) (request_id line).

(** A response frame: the version tag, an identifier accepted by [ids],
    and one of [result] and [error], in this order and nothing else. *)
Definition is_response (ids : value -> Prop) (f : value) : Prop :=
  exists i k body,
    f = response i k body /\ (k = "result"%string \/ k = "error"%string) /\ ids i.

(** A notification frame: the version tag, [method] and [params]. *)
Definition is_notification (f : value) : Prop :=
  exists m p, f = notification m p.

(** The identifiers a response to [line] may carry: the request's, or the
    one the remote put in its payload when it is neither [null] nor
    absent. *)
Definition addressed (net : network) (line : jstr) (i : value) : Prop :=
  i = request_id line
  \/ (i = get_own (remote_payload net line) (lit "id") /\ is_nullish i = false).

(** The message has no usable method: its [method] is not a non-empty
    string. *)
Definition lacks_method (msg : value) : Prop :=
  forall m, get_own msg (lit "method") = Str m -> m = [].

(** The state after one more request to the remote. *)
Definition requested (body : option jstr) (st : state) : state :=
  MkState (stdout st) (stderr st) (requests st ++ [body]) (initialized st).

(** The state after one more call of [log]. *)
Definition logged (a : list logarg) (st : state) : state :=
  MkState (stdout st) (stderr st ++ [LogValue (Str (lit "[dify-bridge]")) :: a])
          (requests st) (initialized st).

Definition invalid_request (id : value) : value :=
  response id "error"
    (Obj [(lit "code", Num (of_Z (-32600)));
          (lit "message", Str (lit "Invalid Request: missing method"))]).

(** The locally synthesised answer to [initialize] and the warning that
    goes with it. *)
Definition local_initialize (id : value) : value :=
  response id "result"
    (Obj [(lit "protocolVersion", Str (lit "2024-11-05"));
          (lit "serverInfo",
           Obj [(lit "name", Str (lit "dify-mcp-bridge"));
                (lit "version", Str (lit "1.0.0"))]);
          (lit "capabilities", Obj []);
          (lit "tools", Arr [])]).

Definition initialize_warning (text : jstr) : value :=
  notification (lit "notifications/message")
    (Obj [(lit "level", Str (lit "warning"));
          (lit "message",
           Str (lit "dify-bridge: remote initialize failed (" ++ text ++ lit ")"))]).

(** The benign answer that stands in for a relayed notification. *)
Definition acknowledged (id : value) : value :=
  response id "result" (Obj [(lit "ok", Bool true)]).

(** The method and the params a relayed notification carries. *)
Definition relayed_method (ps : list (jstr * value)) : jstr :=
  match get_own (Obj ps) (lit "method") with
  | Str m => m
  | _ => lit "remote/notification"
  end.

Definition relayed_params (ps : list (jstr * value)) : value :=
  if is_object (get_own (Obj ps) (lit "params"))
  then get_own (Obj ps) (lit "params") else Obj [].

(** The error frame of the body decoder. *)
Definition parse_error (id : value) (message text : jstr) : value :=
  response (nullish id Null) "error"
    (Obj [(lit "code", Num (of_Z (-32700))); (lit "message", Str message);
          (lit "data", Str text)]).

(** The message has a usable method: a string that is not empty. *)
Definition has_method (msg : value) : bool :=
  match get_own msg (lit "method") with
  | Str (_ :: _) => true
  | _ => false
  end.

(** The line is an [initialize] request. *)
Definition is_initialize (line : jstr) : bool :=
  match JSON.parse line with
  | Normal msg =>
      match get_own msg (lit "method") with
      | Str m => JStr.eqb m (lit "initialize")
      | _ => false
      end
  | Throw _ => false
  end.

(** The shape of a normalised error. *)
Definition normalized (out : value) : Prop :=
  exists c m,
    out = Obj [(lit "code", Num c); (lit "message", Str m)]
    \/ exists d, d <> Undefined
                 /\ out = Obj [(lit "code", Num c); (lit "message", Str m);
                               (lit "data", d)].

(** The answer to [line] carries a result or an error taken from the
    remote's payload: the request has a method, the payload is a plain
    object and, for [initialize], its [result] is truthy; for another
    method, it has a [result], a [message], a [status], or an [error] that
    is neither [null] nor [undefined]. *)
Definition relays (line : jstr) (payload : value) : bool :=
  has_method (request_of line)
  && match payload with
     | Obj ps =>
         if is_initialize line then truthy (get_own payload (lit "result"))
         else negb (is_nullish (get_own payload (lit "error")))
              || has_key (lit "result") ps
              || has_key (lit "message") ps
              || has_key (lit "status") ps
     | _ => false
     end.

(** The identifier of the response to [line]: the one the remote put in
    the payload that is relayed, when it is neither absent nor [null]; the
    request's (or [null]) in every other case. *)
Definition response_id (net : network) (line : jstr) : value :=
  let payload := remote_payload net line in
  if relays line payload
  then nullish (get_own payload (lit "id")) (request_id line)
  else request_id line.

(** A response frame addressed to [i]: the version tag, the identifier
    and either a [result] that is not [undefined] or a normalised
    [error]; nothing else. *)
Definition response_to (i : value) (f : value) : Prop :=
  exists k body,
    f = response i k body
    /\ ((k = "result"%string /\ body <> Undefined)
        \/ (k = "error"%string /\ normalized body)).

(** A notification frame whose [params] are an object or an array. *)
Definition notification_frame (f : value) : Prop :=
  exists m p, f = notification m p /\ is_object p = true.

(** No own property of [ps] is [undefined]. *)
Definition members_defined (ps : list (jstr * value)) : Prop :=
  Forall (fun p => snd p <> Undefined) ps.

(** Rewrite the goal with every equation at hand. *)
Ltac use_equations :=
  repeat match goal with
         | E : ?x = _ |- context [?x] => rewrite E
         end.

(* ================================================================== *)
(** * The vocabulary of the further properties *)
(* ================================================================== *)

(** ** The handler and the process state *)

(** The state with its session flag set to [b]. *)
Definition with_flag (b : bool) (st : state) : state :=
  MkState (stdout st) (stderr st) (requests st) b.

(** [blind m]: the computation never reads the session flag.  From two
    states that differ in the flag only, it returns the same completion
    and leaves two states that differ in the flag only. *)
Definition blind {A} (m : M A) : Prop :=
  forall st b, exists b',
    m (with_flag b st) = (fst (m st), with_flag b' (snd (m st))).

(** [keeps R m]: the state [m] leaves is related by [R] to the state it
    started from. *)
Definition keeps {A} (R : state -> state -> Prop) (m : M A) : Prop :=
  forall st, R st (snd (m st)).

Definition same_requests (st st' : state) : Prop := requests st' = requests st.

Definition same_flag (st st' : state) : Prop := initialized st' = initialized st.

(** The session flag is never cleared. *)
Definition flag_kept (st st' : state) : Prop :=
  initialized st = true -> initialized st' = true.

(** A relation between states that holds along writes and logs. *)
Definition steady (R : state -> state -> Prop) : Prop :=
  (forall st, R st st)
  /\ (forall a b c, R a b -> R b c -> R a c)
  /\ (forall obj st, R st (wrote obj st))
  /\ (forall a st, R st (logged a st)).

(** What handling [line] sends to the remote. *)
Definition forwarded (line : jstr) : list (option jstr) :=
  match JSON.parse line with
  | Normal msg => if has_method msg then [JSON.stringify msg] else []
  | Throw _ => []
  end.

(** ** Frames *)

(** The error [sendResponse] puts in place of a missing [result] and
    [error]. *)
Definition empty_response_error : value :=
  Obj [(lit "code", Num (of_Z (-32603)));
       (lit "message", Str (lit "Internal error: empty response"))].

(** An error object of the bridge's own: [{code, message, data}]. *)
Definition bridge_error (code : Z) (message detail : jstr) : value :=
  Obj [(lit "code", Num (of_Z code)); (lit "message", Str message);
       (lit "data", Str detail)].

(** The detail of a failed [fetch]: [e.message || String(e)]. *)
Definition failure_detail (e : exn) : jstr :=
  if negb (JNum.is_nil (exn_message e)) then exn_message e else exn_toString e.

(** The error that answers a payload that is not a plain object. *)
Definition not_a_response (payload : value) : value :=
  Obj [(lit "code", Num (of_Z (-32603)));
       (lit "message",
        Str (if is_array payload then lit "Remote missing result and error"
             else lit "Remote returned non-object"))].

(** The frames that answer one request: one response, with at most one
    notification before it or after it. *)
Definition answered_by (net : network) (line : jstr) (frames : list value) : Prop :=
  (exists r, frames = [r] /\ is_response (addressed net line) r)
  \/ (exists n r, frames = [n; r] /\ is_notification n
                  /\ is_response (addressed net line) r)
  \/ (exists r n, frames = [r; n] /\ is_response (addressed net line) r
                  /\ is_notification n).

(** What a request comes to on standard output: it is answered when the
    handler returns; when the handler raises, nothing was written, or the
    local answer to [initialize] alone. *)
Definition request_trace (net : network) (line : jstr)
  (r : completion unit * state) (st : state) : Prop :=
  exists frames,
    stdout (snd r) = stdout st ++ frames
    /\ match fst r with
       | Normal _ => answered_by net line frames
       | Throw _ => frames = [] \/ frames = [local_initialize (request_id line)]
       end.

(** The text written for a frame, before the line feed. *)
Definition frame_text (obj : value) : jstr :=
  match JSON.stringify obj with
  | Some s => s
  | None => lit "undefined"
  end.

(** The own property [k] that [sendResponse] finds in [obj]: a plain
    object has the properties it holds; [k in obj] is false of an array
    for the keys [sendResponse] asks for, and nothing else passes its
    test. *)
Definition field (obj : value) (k : jstr) : option value :=
  match obj with Obj ps => lookup k ps | _ => None end.

(** The properties [JSON.stringify] writes: those whose value is not
    [undefined]. *)
Definition written (ps : list (jstr * value)) : list (jstr * value) :=
  filter (fun p => negb (is_undefined (snd p))) ps.

(** A property as it is written: one whose value is [undefined] is left
    out. *)
Definition present (x : option value) : option value :=
  match x with
  | Some v => if is_undefined v then None else Some v
  | None => None
  end.

(** No key occurs twice. *)
Fixpoint unique_keys (ps : list (jstr * value)) : bool :=
  match ps with
  | [] => true
  | (k, _) :: t => negb (has_key k t) && unique_keys t
  end.

(** The properties of the object [sendResponse] serialises, from the
    [id], the [result] and the [error] it found. *)
Definition frame_members (i r e : option value) : list (jstr * value) :=
  (lit "jsonrpc", Str (lit "2.0"))
  :: match i with Some v => [(lit "id", v)] | None => [] end
  ++ match r with Some v => [(lit "result", v)] | None => [] end
  ++ match e, r with
     | Some v, _ => [(lit "error", v)]
     | None, None =>
         [(lit "error",
           Obj [(lit "code", Num (of_Z (-32603)));
                (lit "message", Str (lit "Internal error: empty response"))])]
     | None, Some _ => []
     end
  ++ match i with Some _ => [] | None => [(lit "id", Null)] end.

(** No control character: every code unit is a space at least. *)
Definition printable (s : jstr) : bool := forallb (fun c => (32 <=? c)%N) s.

(** ** Tool names and normalised errors *)

(** A tool name the client accepts: 1 to 64 characters of [[a-zA-Z0-9_-]]. *)
Definition valid_name (s : jstr) : Prop :=
  s <> [] /\ length s <= 64 /\ forallb allowed s = true.

(** An entry of a repaired tool list: a value that is not an object, or a
    plain object whose [name] is a valid name. *)
Definition repaired_entry (t : value) : Prop :=
  is_object t = false
  \/ exists ps n, t = Obj ps /\ lookup (lit "name") ps = Some (Str n) /\ valid_name n.

(** ** Texts *)

(** [a] occurs in [b]. *)
Definition occurs (a b : jstr) : Prop := exists pre post, b = pre ++ a ++ post.

(** [s.trimEnd()] *)
Definition trim_end (s : jstr) : jstr := rev (trim_start (rev s)).

(** No line feed in [s]. *)
Definition one_line (s : jstr) : bool := forallb (fun c => negb (c =? 10)%N) s.

(** White space only. *)
Definition blank (s : jstr) : bool := forallb is_ws s.

(** A text between braces. *)
Definition braced (s : jstr) : Prop := exists mid, s = 123%N :: mid ++ [125%N].

(** ** Values *)

(** No object inside [v] has a property [toString] of its own: every
    conversion of [v] and of its parts to a string or to a number
    returns. *)
Fixpoint plain (v : value) : bool :=
  match v with
  | Arr l => forallb plain l
  | Obj ps =>
      negb (has_key (lit "toString") ps)
      && (fix all (ps : list (jstr * value)) : bool :=
            match ps with
            | [] => true
            | (_, x) :: t => plain x && all t
            end) ps
  | _ => true
  end.

Section ValueInduction.

(** Induction on a value, with the hypothesis for every element of an
    array and every property of an object. *)
Variable P : value -> Prop.
Hypothesis P_undefined : P Undefined.
Hypothesis P_null : P Null.
Hypothesis P_bool : forall b, P (Bool b).
Hypothesis P_num : forall n, P (Num n).
Hypothesis P_str : forall s, P (Str s).
Hypothesis P_arr : forall l, Forall P l -> P (Arr l).
Hypothesis P_obj : forall ps, Forall (fun p => P (snd p)) ps -> P (Obj ps).

Fixpoint value_induction (v : value) : P v :=
  match v with
  | Undefined => P_undefined
  | Null => P_null
  | Bool b => P_bool b
  | Num n => P_num n
  | Str s => P_str s
  | Arr l =>
      P_arr l ((fix all (l : list value) : Forall P l :=
                  match l with
                  | [] => Forall_nil P
                  | x :: t => Forall_cons x (value_induction x) (all t)
                  end) l)
  | Obj ps =>
      P_obj ps ((fix all (ps : list (jstr * value))
                   : Forall (fun p => P (snd p)) ps :=
                   match ps with
                   | [] => Forall_nil _
                   | p :: t => Forall_cons p (value_induction (snd p)) (all t)
                   end) ps)
  end.

End ValueInduction.

(* ================================================================== *)
(** * The model at work: the operations of the language *)
(* ================================================================== *)

Example toString_integer : Number_toString (of_Z (-32000)) = lit "-32000".
Proof. reflexivity. Qed.

Example toString_fraction :
  Number_toString (StringToNumber (lit " 12.50 ")) = lit "12.5".
Proof. reflexivity. Qed.

Example toString_small :
  Number_toString (StringToNumber (lit "1e-7")) = lit "1e-7"
  /\ Number_toString (StringToNumber (lit "0.00001")) = lit "0.00001"
  /\ Number_toString (StringToNumber (lit "123e20")) = lit "1.23e+22"
  /\ Number_toString (StringToNumber (lit "0x1F")) = lit "31".
Proof. repeat split; reflexivity. Qed.

Example binary64_rounding :
  JSON.parse (lit "9007199254740993") = Normal (Num (of_Z 9007199254740992))
  /\ JSON.stringify (Num (StringToNumber (lit "9007199254740995")))
     = Some (lit "9007199254740996")
  /\ JSON.parse (lit "1e400") = Normal (Num (Infinity false))
  /\ JSON.stringify (Num (StringToNumber (lit "1.7976931348623159e308")))
     = Some (lit "null")
  /\ Number_toString (StringToNumber (lit "1.7976931348623157e308"))
     = lit "1.7976931348623157e+308"
  /\ JSON.parse (lit "-1e-400") = Normal (Num (Finite true 0 0))
  /\ truthy (Num (StringToNumber (lit "1e-400"))) = false
  /\ Number_toString (StringToNumber (lit "3e-324")) = lit "5e-324"
  /\ Number_toString (StringToNumber (lit "0.1")) = lit "0.1"
  /\ Number_toString (StringToNumber (lit "0.30000000000000004"))
     = lit "0.30000000000000004"
  /\ Number_toString (StringToNumber (lit "0.3000000000000000444"))
     = lit "0.30000000000000004"
  /\ Number_toString (StringToNumber (lit "100000000000000000000000")) = lit "1e+23"
  /\ Number_toString (StringToNumber (lit "123456789012345678901234567890"))
     = lit "1.2345678901234568e+29".
Proof. vm_compute. repeat split. Qed.

Example toNumber_not_numeric :
  StringToNumber (lit "boom") = NaN /\ StringToNumber (lit "") = of_Z 0.
Proof. split; reflexivity. Qed.

Example toString_array :
  ToString (Arr [Num (of_Z 1); Null; Arr [Str (lit "a"); Bool true]])
  = Normal (lit "1,,a,true").
Proof. reflexivity. Qed.

Example toString_own_toString :
  returns (ToString (Obj [(lit "toString", Num (of_Z 0))])) = false
  /\ ToString (Obj [(lit "a", Num (of_Z 0))]) = Normal (lit "[object Object]").
Proof. split; reflexivity. Qed.

Example parse_object :
  JSON.parse (json "{'id': 7, 'result': {'x': [1, -2.50, 'a\nb', null]}, '0': true}")
  = Normal (Obj [(lit "0", Bool true);
                 (lit "id", Num (of_Z 7));
                 (lit "result",
                  Obj [(lit "x", Arr [Num (of_Z 1); Num (Finite true 25 (-1));
                                      Str [97; 10; 98]%N; Null])])]).
Proof. vm_compute. reflexivity. Qed.

Example parse_rejects :
  returns (JSON.parse (json "{'a':1,}")) = false
  /\ returns (JSON.parse (json "01")) = false
  /\ returns (JSON.parse (json "'a' x")) = false
  /\ returns (JSON.parse (json "data: {}")) = false.
Proof. vm_compute. repeat split. Qed.

Example stringify_parse :
  JSON.stringify
    (Obj [(lit "jsonrpc", Str (lit "2.0")); (lit "id", Num (of_Z 7));
          (lit "u", Undefined); (lit "n", Num NaN);
          (lit "s", Str [34; 10; 233]%N)])
  = Some (json "{'jsonrpc':'2.0','id':7,'n':null,'s':'\'\n" ++ [233; 34; 125]%N).
Proof. vm_compute. reflexivity. Qed.

Example sanitize_examples :
  sanitizeToolName (Str (lit "My Tool!!")) (tool_label 0) = Normal (lit "My_Tool__")
  /\ sanitizeToolName (Str []) (tool_label 1) = Normal (lit "tool_2")
  /\ sanitizeToolName (Num (of_Z 42)) (tool_label 0) = Normal (lit "42")
  /\ sanitizeToolName (Obj []) (tool_label 0) = Normal (lit "_object_Object_").
Proof. repeat split; reflexivity. Qed.

(* ================================================================== *)
(** * Facts about numbers, strings and own properties *)
(* ================================================================== *)

Section NumberFacts.

(** The fuel of [strip10] is never what stops it: the mantissa it returns
    has no trailing zero. *)
Lemma strip10_fuel : forall f m e,
  (m < 2 ^ N.of_nat f)%N -> m <> 0%N ->
  (fst (strip10 f m e) mod 10 <> 0)%N.
Proof.
  induction f as [|f IH]; intros m e Hm Hz.
  - simpl in Hm. lia.
  - simpl strip10.
    destruct (m mod 10 =? 0)%N eqn:E; simpl.
    + destruct (m =? 0)%N eqn:Z; simpl; [apply N.eqb_eq in Z; contradiction|].
      apply N.eqb_eq in E.
      assert (D : (m = 10 * (m / 10))%N).
      { pose proof (N.div_mod m 10 ltac:(lia)). lia. }
      apply IH.
      * rewrite Nat2N.inj_succ, N.pow_succ_r' in Hm. lia.
      * lia.
    + apply N.eqb_neq in E. exact E.
Qed.

(** The mantissa of a number has no trailing zero. *)
Lemma normal_has_no_trailing_zero neg m e b s p :
  normal neg m e = Finite b s p -> s <> 0%N -> (s mod 10 <> 0)%N.
Proof.
  unfold normal.
  destruct (m =? 0)%N; [intros E; injection E as _ <- _; congruence|].
  destruct (310 <=? _)%Z; [discriminate|].
  destruct (_ <=? -324)%Z; [intros E; injection E as _ <- _; congruence|].
  destruct (canonical m e) as [[s0 p0]|]; [|discriminate].
  destruct (s0 =? 0)%N eqn:Z; [intros E; injection E as _ <- _; congruence|].
  apply N.eqb_neq in Z.
  pose proof (strip10_fuel (N.to_nat (N.size s0)) s0 p0) as H.
  destruct (strip10 (N.to_nat (N.size s0)) s0 p0) as [s' p'].
  intros E; injection E as _ <- _. intros _. apply H; [|exact Z].
  rewrite N2Nat.id. apply N.size_gt.
Qed.

End NumberFacts.

Section StringFacts.

Lemma eqb_refl (s : jstr) : JStr.eqb s s = true.
Proof.
  induction s as [|c s IH]; simpl; [reflexivity|].
  now rewrite N.eqb_refl, IH.
Qed.

Lemma eqb_eq (a b : jstr) : JStr.eqb a b = true -> a = b.
Proof.
  revert b; induction a as [|x a IH]; intros [|y b]; simpl; try congruence.
  intros H. apply andb_prop in H as [Hx Hab].
  apply N.eqb_eq in Hx. apply IH in Hab. congruence.
Qed.

Lemma eqb_neq (a b : jstr) : JStr.eqb a b = false -> a <> b.
Proof. intros H ->. now rewrite eqb_refl in H. Qed.

Lemma eqb_sym (a b : jstr) : JStr.eqb a b = JStr.eqb b a.
Proof.
  destruct (JStr.eqb a b) eqn:E.
  - apply eqb_eq in E. subst. now rewrite eqb_refl.
  - destruct (JStr.eqb b a) eqn:E'; [|reflexivity].
    apply eqb_eq in E'. subst. now rewrite eqb_refl in E.
Qed.

End StringFacts.

Section PropertyFacts.

Variables (k : jstr) (v : value).

Lemma lookup_replace : forall ps,
  has_key k ps = true -> lookup k (replace k v ps) = Some v.
Proof.
  unfold has_key. induction ps as [|[k' v'] ps IH]; simpl; [discriminate|].
  destruct (JStr.eqb k k') eqn:E; simpl; rewrite E; auto.
Qed.

Lemma lookup_app_new : forall ps,
  lookup k ps = None -> lookup k (ps ++ [(k, v)]) = Some v.
Proof.
  induction ps as [|[k' v'] ps IH]; simpl.
  - now rewrite eqb_refl.
  - destruct (JStr.eqb k k'); [discriminate | auto].
Qed.

Lemma lookup_insert_index : forall i ps,
  lookup k ps = None -> lookup k (insert_index i k v ps) = Some v.
Proof.
  induction ps as [|[k' v'] ps IH]; simpl; intros H.
  - now rewrite eqb_refl.
  - destruct (JStr.eqb k k') eqn:E; [discriminate|].
    destruct (array_index k') as [j|]; [destruct (j <? i)%N|]; simpl;
      rewrite ?E, ?eqb_refl; auto.
Qed.

Lemma lookup_set_prop : forall ps, lookup k (set_prop k v ps) = Some v.
Proof.
  intros ps. unfold set_prop.
  destruct (has_key k ps) eqn:H.
  - now apply lookup_replace.
  - unfold has_key in H. destruct (lookup k ps) eqn:L; [discriminate|].
    destruct (array_index k).
    + now apply lookup_insert_index.
    + now apply lookup_app_new.
Qed.

Lemma replace_same : forall ps, lookup k ps = Some v -> replace k v ps = ps.
Proof.
  induction ps as [|[k' v'] ps IH]; simpl; [reflexivity|].
  destruct (JStr.eqb k k'); intros H.
  - now inversion H.
  - now rewrite IH.
Qed.

Lemma set_prop_idem : forall ps,
  set_prop k v (set_prop k v ps) = set_prop k v ps.
Proof.
  intros ps. pose proof (lookup_set_prop ps) as L.
  unfold set_prop at 1. unfold has_key. rewrite L. now apply replace_same.
Qed.

Lemma set_prop_present : forall ps,
  has_key k ps = true -> set_prop k v ps = replace k v ps.
Proof. intros ps H; unfold set_prop; now rewrite H. Qed.

Lemma keys_replace : forall ps, map fst (replace k v ps) = map fst ps.
Proof.
  induction ps as [|[k' v'] ps IH]; simpl; [reflexivity|].
  destruct (JStr.eqb k k'); simpl; congruence.
Qed.

Lemma length_replace : forall ps, length (replace k v ps) = length ps.
Proof. intros ps. now rewrite <- (length_map fst), keys_replace, length_map. Qed.

(** Every property under another key keeps its value... *)
Lemma lookup_set_prop_other : forall k' ps,
  JStr.eqb k' k = false -> lookup k' (set_prop k v ps) = lookup k' ps.
Proof.
  intros k' ps Hk. unfold set_prop.
  destruct (has_key k ps); [|destruct (array_index k) as [i|]].
  - induction ps as [|[k2 v2] ps IH]; simpl; [reflexivity|].
    destruct (JStr.eqb k k2) eqn:E; simpl.
    + apply eqb_eq in E; subst k2. now rewrite Hk.
    + now rewrite IH.
  - induction ps as [|[k2 v2] ps IH]; simpl; [now rewrite Hk|].
    destruct (array_index k2) as [j|]; [destruct (j <? i)%N|]; simpl;
      rewrite ?Hk; try reflexivity.
    now rewrite IH.
  - induction ps as [|[k2 v2] ps IH]; simpl; [now rewrite Hk|].
    now rewrite IH.
Qed.

(** ... and its place among the others. *)
Lemma others_set_prop : forall ps, others k (set_prop k v ps) = others k ps.
Proof.
  intros ps. unfold set_prop, others.
  destruct (has_key k ps); [|destruct (array_index k) as [i|]].
  - induction ps as [|[k2 v2] ps IH]; simpl; [reflexivity|].
    destruct (JStr.eqb k k2) eqn:E; simpl; rewrite E; simpl; congruence.
  - induction ps as [|[k2 v2] ps IH]; simpl; [now rewrite eqb_refl|].
    destruct (array_index k2) as [j|]; [destruct (j <? i)%N|]; simpl;
      rewrite ?eqb_refl; simpl; try reflexivity.
    now rewrite IH.
  - rewrite filter_app. simpl. rewrite eqb_refl. simpl. apply app_nil_r.
Qed.

End PropertyFacts.

Section DecimalFacts.

Lemma uint_units_length d : length (uint_units d) = Decimal.nb_digits d.
Proof. induction d; simpl; congruence. Qed.

Lemma uint_units_digits d : forallb is_digit (uint_units d) = true.
Proof. induction d; simpl; auto. Qed.

Lemma little_double_digits d :
  Decimal.nb_digits (Decimal.Little.double d) <= S (Decimal.nb_digits d)
  /\ Decimal.nb_digits (Decimal.Little.succ_double d) <= S (Decimal.nb_digits d).
Proof. induction d; simpl; lia. Qed.

Lemma to_little_uint_digits p :
  Decimal.nb_digits (Pos.to_little_uint p) <= Pos.size_nat p.
Proof.
  induction p as [p IH|p IH|]; simpl.
  - pose proof (little_double_digits (Pos.to_little_uint p)). lia.
  - pose proof (little_double_digits (Pos.to_little_uint p)). lia.
  - lia.
Qed.

Lemma decimal_length n : length (decimal n) <= S (N.size_nat n).
Proof.
  unfold decimal. rewrite uint_units_length.
  destruct n as [|p]; simpl; [lia|].
  unfold Pos.to_uint. rewrite DecimalFacts.nb_digits_rev.
  pose proof (to_little_uint_digits p). lia.
Qed.

Lemma decimal_digits n : forallb is_digit (decimal n) = true.
Proof. apply uint_units_digits. Qed.

Lemma size_nat_size p : N.of_nat (Pos.size_nat p) = N.pos (Pos.size p).
Proof.
  induction p as [p IH|p IH|]; simpl Pos.size_nat; simpl Pos.size;
    rewrite ?Nat2N.inj_succ, ?IH; reflexivity || (simpl; now rewrite Pos.add_1_r).
Qed.

Lemma size_nat_bound n : (n <= array_limit)%N -> N.size_nat n <= 33.
Proof.
  intros H. destruct n as [|p]; [simpl; lia|].
  assert (L : (N.pos p < 2 ^ 33)%N).
  { eapply N.le_lt_trans; [exact H | reflexivity]. }
  apply N.log2_lt_pow2 in L; [|reflexivity].
  assert (E : N.size (N.pos p) = N.succ (N.log2 (N.pos p)))
    by (apply N.size_log2; discriminate).
  assert (S : N.of_nat (N.size_nat (N.pos p)) = N.size (N.pos p)).
  { apply size_nat_size. }
  rewrite E in S. lia.
Qed.

Lemma allowed_digit c : is_digit c = true -> allowed c = true.
Proof.
  unfold is_digit, allowed. intros H. rewrite H.
  now rewrite !orb_true_r.
Qed.

End DecimalFacts.

Section SanitizerFacts.

Lemma replace_disallowed_allowed s : forallb allowed (replace_disallowed s) = true.
Proof.
  induction s as [|c s IH]; simpl; [reflexivity|].
  rewrite IH, andb_true_r. destruct (allowed c) eqn:E; [exact E | reflexivity].
Qed.

Lemma replace_disallowed_fixed s :
  forallb allowed s = true -> replace_disallowed s = s.
Proof.
  induction s as [|c s IH]; simpl; [reflexivity|].
  intros H. apply andb_prop in H as [Hc Hs]. now rewrite Hc, IH.
Qed.

Lemma forallb_firstn {A} (p : A -> bool) n l :
  forallb p l = true -> forallb p (firstn n l) = true.
Proof.
  revert l; induction n as [|n IH]; intros [|x l]; simpl; auto.
  intros H. apply andb_prop in H as [Hx Hl]. now rewrite Hx, IH.
Qed.

Lemma tool_label_allowed i : forallb allowed (tool_label i) = true.
Proof.
  unfold tool_label. rewrite forallb_app. apply andb_true_intro. split.
  - reflexivity.
  - apply forallb_forall. intros c Hc. apply allowed_digit.
    pose proof (decimal_digits (N.of_nat (i + 1))) as D.
    rewrite forallb_forall in D. now apply D.
Qed.

Lemma tool_label_length i :
  (N.of_nat i < array_limit)%N -> length (tool_label i) <= 64.
Proof.
  intros H. unfold tool_label. rewrite length_app.
  pose proof (decimal_length (N.of_nat (i + 1))) as L.
  pose proof (@size_nat_bound (N.of_nat (i + 1))) as B.
  assert ((N.of_nat (i + 1) <= array_limit)%N) as Hle by lia.
  apply B in Hle. simpl. lia.
Qed.

Lemma tool_label_not_nil i : JNum.is_nil (tool_label i) = false.
Proof. reflexivity. Qed.

(** A sanitised name is made of allowed characters, is not empty and is
    at most 64 characters long. *)
Lemma sanitized_allowed i s : forallb allowed (sanitized i s) = true.
Proof.
  unfold sanitized.
  destruct (JNum.is_nil (firstn 64 (replace_disallowed s))).
  - apply tool_label_allowed.
  - apply forallb_firstn, replace_disallowed_allowed.
Qed.

Lemma sanitized_not_nil i s : JNum.is_nil (sanitized i s) = false.
Proof.
  unfold sanitized.
  destruct (JNum.is_nil (firstn 64 (replace_disallowed s))) eqn:E;
    [apply tool_label_not_nil | exact E].
Qed.

Lemma sanitized_length i s :
  (N.of_nat i < array_limit)%N -> length (sanitized i s) <= 64.
Proof.
  intros H. unfold sanitized.
  destruct (JNum.is_nil (firstn 64 (replace_disallowed s))).
  - now apply tool_label_length.
  - apply firstn_le_length.
Qed.

(** Sanitising a sanitised name gives it back. *)
Lemma sanitized_fixed i s :
  (N.of_nat i < array_limit)%N -> sanitized i (sanitized i s) = sanitized i s.
Proof.
  intros H.
  pose proof (sanitized_allowed i s) as A.
  pose proof (sanitized_not_nil i s) as NE.
  pose proof (sanitized_length i s H) as L.
  unfold sanitized at 1.
  rewrite (replace_disallowed_fixed _ A), firstn_all2 by exact L.
  now rewrite NE.
Qed.

(** The characters of a sanitised name: the fallback for the empty
    string; otherwise the first 64 characters, each kept when it is in
    the class and replaced by an underscore when it is not. *)
Lemma sanitized_characters i s :
  (s = [] -> sanitized i s = tool_label i)
  /\ (s <> [] ->
      length (sanitized i s) = Nat.min 64 (length s)
      /\ forall j c, j < 64 -> nth_error s j = Some c ->
           nth_error (sanitized i s) j = Some (if allowed c then c else 95%N)).
Proof.
  split; [intros ->; reflexivity|].
  intros NE. unfold sanitized.
  destruct s as [|c0 s]; [congruence|].
  change (JNum.is_nil (firstn 64 (replace_disallowed (c0 :: s)))) with false.
  cbv iota. split.
  - unfold replace_disallowed. now rewrite length_firstn, length_map.
  - intros j c Hj Hc. rewrite nth_error_firstn.
    apply Nat.ltb_lt in Hj. rewrite Hj.
    unfold replace_disallowed. rewrite nth_error_map, Hc. reflexivity.
Qed.

Lemma sanitizeToolName_spec i (name : value) :
  sanitizeToolName name (tool_label i)
  = (s <- ToString (nullish name (Str [])) ;; Normal (sanitized i s)).
Proof. reflexivity. Qed.

End SanitizerFacts.

Section ToolFacts.

Lemma object_test v :
  truthy v && JStr.eqb (typeof v) (lit "object") = is_object v.
Proof.
  destruct v as [| |b|n|s|l|ps]; try reflexivity.
  - destruct b; reflexivity.
  - simpl. apply andb_false_r.
  - simpl. apply andb_false_r.
Qed.

Lemma not_object_test v :
  negb (truthy v) || negb (JStr.eqb (typeof v) (lit "object")) = negb (is_object v).
Proof. rewrite <- negb_andb. f_equal. apply object_test. Qed.

Lemma get_object v k : is_object v = true -> get v k = Normal (get_own v (lit k)).
Proof. destruct v; simpl; try discriminate; reflexivity. Qed.

Lemma get_truthy v k : truthy v = true -> get v k = Normal (get_own v (lit k)).
Proof. destruct v; simpl; try discriminate; reflexivity. Qed.

Lemma nullish_nullish a b c :
  (match b with Undefined | Null => False | _ => True end) ->
  nullish (nullish a b) c = nullish a b.
Proof. destruct a; simpl; try reflexivity; destruct b; simpl; tauto. Qed.

(** The callback on an object: the name is read, converted, sanitised
    and set on a copy. *)
Lemma repair_tool_object i t :
  is_object t = true ->
  repair_tool i t
  = (s <- ToString (nullish (get_own t (lit "name")) (Str (tool_label i))) ;;
     Normal (Obj (set_prop (lit "name") (Str (sanitized i s)) (spread t)))).
Proof.
  intros H. unfold repair_tool. rewrite not_object_test, H. simpl negb. cbv iota.
  rewrite (get_object t "name" H). simpl bind.
  rewrite sanitizeToolName_spec, nullish_nullish by exact I.
  destruct (ToString _); reflexivity.
Qed.

Lemma repair_tool_other i t : is_object t = false -> repair_tool i t = Normal t.
Proof. intros H. unfold repair_tool. now rewrite not_object_test, H. Qed.

Lemma repair_tool_idem i t t' :
  (N.of_nat i < array_limit)%N ->
  repair_tool i t = Normal t' -> repair_tool i t' = Normal t'.
Proof.
  intros Hi. destruct (is_object t) eqn:O.
  - rewrite (repair_tool_object i _ O).
    destruct (ToString _) as [s|e]; simpl; [|discriminate].
    intros E; injection E as <-.
    rewrite repair_tool_object by reflexivity.
    simpl get_own. rewrite lookup_set_prop. simpl.
    rewrite sanitized_fixed by exact Hi.
    now rewrite set_prop_idem.
  - rewrite (repair_tool_other i _ O). intros E; injection E as <-.
    now apply repair_tool_other.
Qed.

Lemma map_from_idem : forall l i l',
  (N.of_nat (i + length l) <= array_limit)%N ->
  map_from repair_tool i l = Normal l' ->
  map_from repair_tool i l' = Normal l'.
Proof.
  induction l as [|t l IH]; intros i l' Hi; simpl.
  - intros E; injection E as <-. reflexivity.
  - destruct (repair_tool i t) as [t'|] eqn:Et; simpl; [|discriminate].
    destruct (map_from repair_tool (S i) l) as [r|] eqn:Er; simpl; [|discriminate].
    intros E; injection E as <-. simpl.
    rewrite (repair_tool_idem i t) by (simpl in Hi; lia || exact Et).
    simpl. rewrite (IH (S i) r); [reflexivity | simpl in Hi; lia | exact Er].
Qed.

Lemma map_from_length f : forall l i l',
  map_from f i l = Normal l' -> length l' = length l.
Proof.
  induction l as [|t l IH]; intros i l'; simpl.
  - intros E; injection E as <-. reflexivity.
  - destruct (f i t) as [t'|]; simpl; [|discriminate].
    destruct (map_from f (S i) l) as [r|] eqn:Er; simpl; [|discriminate].
    intros E; injection E as <-. simpl. f_equal. eauto.
Qed.

Lemma map_from_nth f : forall l i l',
  map_from f i l = Normal l' ->
  forall j t, nth_error l j = Some t ->
    exists t', nth_error l' j = Some t' /\ f (i + j) t = Normal t'.
Proof.
  induction l as [|x l IH]; intros i l'; simpl.
  - intros _ [|j] t; discriminate.
  - destruct (f i x) as [x'|] eqn:Ex; simpl; [|discriminate].
    destruct (map_from f (S i) l) as [r|] eqn:Er; simpl; [|discriminate].
    intros E; injection E as <-. intros [|j] t; simpl.
    + intros E; injection E as <-. exists x'. now rewrite Nat.add_0_r.
    + intros Hj. destruct (IH _ _ Er _ _ Hj) as (t' & Ht' & Hf).
      exists t'. split; [exact Ht'|]. now rewrite Nat.add_succ_r.
Qed.

Lemma map_from_returns f : forall l i,
  (forall j t, nth_error l j = Some t -> returns (f (i + j) t) = true) ->
  returns (map_from f i l) = true.
Proof.
  induction l as [|x l IH]; intros i H; simpl; [reflexivity|].
  pose proof (H 0 x eq_refl) as H0. rewrite Nat.add_0_r in H0.
  destruct (f i x); [|discriminate]. simpl.
  assert (R : returns (map_from f (S i) l) = true).
  { apply IH. intros j t Hj. specialize (H (S j) t Hj).
    now rewrite Nat.add_succ_r in H. }
  destruct (map_from f (S i) l); [reflexivity | discriminate].
Qed.

(** A value with a tool list is a plain object. *)
Lemma tools_owner result l :
  get_own result (lit "tools") = Arr l ->
  exists ps, result = Obj ps /\ lookup (lit "tools") ps = Some (Arr l).
Proof.
  destruct result as [| |b|n|s|a|ps]; simpl; try discriminate.
  intros H. exists ps. split; [reflexivity|].
    destruct (lookup (lit "tools") ps); [congruence | discriminate].
Qed.

Lemma repair_with_tools ps l :
  lookup (lit "tools") ps = Some (Arr l) ->
  repairToolsInInitializeResult (Obj ps)
  = (tools <- map_from repair_tool 0 l ;;
     Normal (Obj (replace (lit "tools") (Arr tools) ps))).
Proof.
  intros H. unfold repairToolsInInitializeResult. simpl. rewrite H.
  destruct (map_from repair_tool 0 l); simpl; [|reflexivity].
  rewrite set_prop_present; [reflexivity|]. unfold has_key. now rewrite H.
Qed.

Lemma repair_without_tools result :
  is_array (get_own result (lit "tools")) = false ->
  repairToolsInInitializeResult result = Normal result.
Proof.
  intros H. unfold repairToolsInInitializeResult.
  destruct (truthy result) eqn:T; [|reflexivity]. simpl.
  rewrite (get_truthy result "tools" T). simpl.
  destruct (get_own result (lit "tools")); try reflexivity. discriminate.
Qed.

End ToolFacts.

Section FrameFacts.

Lemma response_object_result id body :
  response_object (response id "result" body) = Normal (response id "result" body).
Proof. reflexivity. Qed.

Lemma response_object_error id body :
  response_object (response id "error" body) = Normal (response id "error" body).
Proof. reflexivity. Qed.

Lemma sendResponse_result id body st :
  sendResponse (response id "result" body) st
  = (Normal tt, wrote (response id "result" body) st).
Proof. reflexivity. Qed.

Lemma sendResponse_error id body st :
  sendResponse (response id "error" body) st
  = (Normal tt, wrote (response id "error" body) st).
Proof. reflexivity. Qed.

Lemma makeError_plain id code message :
  makeError id code message Undefined
  = response (nullish id Null) "error"
      (Obj [(lit "code", Num (of_Z code)); (lit "message", Str message)]).
Proof. reflexivity. Qed.

Lemma makeError_data id code message s :
  makeError id code message (Str s)
  = response (nullish id Null) "error"
      (Obj [(lit "code", Num (of_Z code)); (lit "message", Str message);
            (lit "data", Str s)]).
Proof. reflexivity. Qed.

Lemma sendNotification_string m p st :
  sendNotification (Str m) p st
  = (Normal tt, wrote (notification m (nullish p (Obj []))) st).
Proof. destruct m; reflexivity. Qed.

Lemma nullish_idem a : nullish (nullish a Null) Null = nullish a Null.
Proof. destruct a; reflexivity. Qed.

End FrameFacts.

Section ReconcilerFacts.

Lemma reply_spec resp fb k v :
  is_object resp = true ->
  reply resp fb k v
  = Normal (response (nullish (get_own resp (lit "id")) (nullish fb Null)) k v).
Proof. intros O. unfold reply. now rewrite (get_object resp "id" O). Qed.

Lemma reply_reconciled resp fb k v :
  (k = "result"%string \/ k = "error"%string) ->
  reconciled resp fb
    (response (nullish (get_own resp (lit "id")) (nullish fb Null)) k v).
Proof.
  intros Hk. exists (nullish (get_own resp (lit "id")) (nullish fb Null)), k, v.
  split; [reflexivity|]. split; [exact Hk|].
  destruct (get_own resp (lit "id")); simpl; auto.
Qed.

Lemma coerce_non_object resp fb st :
  is_object resp = false ->
  coerceToValidResponseForClient resp fb st
  = (Normal (makeError fb (-32603) (lit "Remote returned non-object") Undefined), st).
Proof.
  intros O. unfold coerceToValidResponseForClient, is_remote_notification.
  rewrite object_test, not_object_test, O. reflexivity.
Qed.

(** The reconciler on a plain object, test by test. *)
Lemma coerce_object ps fb st :
  coerceToValidResponseForClient (Obj ps) fb st
  = let resp := Obj ps in
    let id := nullish (get_own resp (lit "id")) (nullish fb Null) in
    if has_key (lit "method") ps && negb (has_key (lit "id") ps) then
      (Normal (response (nullish fb Null) "result" (Obj [(lit "ok", Bool true)])),
       wrote (notification
                (match get_own resp (lit "method") with
                 | Str m => m
                 | _ => lit "remote/notification"
                 end)
                (if is_object (get_own resp (lit "params"))
                 then get_own resp (lit "params") else Obj []))
             st)
    else if negb (is_nullish (get_own resp (lit "error"))) then
      (norm <- normalizeRemoteError (get_own resp (lit "error")) ;;
       Normal (response id "error" norm), st)
    else if negb (has_key (lit "result") ps)
            && (has_key (lit "message") ps || has_key (lit "status") ps) then
      (norm <- normalizeRemoteError resp ;; Normal (response id "error" norm), st)
    else if negb (has_key (lit "result") ps) then
      (Normal (makeError fb (-32603) (lit "Remote missing result and error")
                 Undefined), st)
    else (Normal (response id "result" (get_own resp (lit "result"))), st).
Proof.
  unfold coerceToValidResponseForClient, is_remote_notification.
  rewrite object_test, not_object_test.
  cbv zeta. simpl is_object. cbv iota. simpl negb. cbv iota.
  unfold has_property, get, reply, get. simpl get_own.
  unfold has_key.
  destruct (lookup (lit "method") ps) as [m|] eqn:Lm;
    destruct (lookup (lit "id") ps) as [i|] eqn:Li;
    unfold mbind, lift, ret; simpl.
  all: try (destruct (lookup (lit "error") ps) as [[]|]; simpl;
       destruct (lookup (lit "result") ps), (lookup (lit "message") ps),
         (lookup (lit "status") ps); simpl;
       try reflexivity;
       repeat match goal with
              | |- context [normalizeRemoteError ?x] =>
                  destruct (normalizeRemoteError x)
              end; reflexivity).
  rewrite object_test.
  set (p := match lookup (lit "params") ps with Some x => x | None => Undefined end).
  assert (Hm : (if JStr.eqb (typeof m) (lit "string") then m
                else Str (lit "remote/notification"))
               = Str (match m with Str m0 => m0 | _ => lit "remote/notification" end))
    by (destruct m as [| |[|]| | | |]; reflexivity).
  rewrite Hm, sendNotification_string.
  destruct (is_object p) eqn:Op; [|reflexivity].
  destruct p; try discriminate; reflexivity.
Qed.

Lemma coerce_array l fb st :
  coerceToValidResponseForClient (Arr l) fb st
  = (Normal (makeError fb (-32603) (lit "Remote missing result and error")
               Undefined), st).
Proof. reflexivity. Qed.

(** Whatever the remote sent, the reconciler returns a response frame,
    having written at most a notification; when it raises it has written
    nothing. *)
Lemma coerce_spec resp fb st :
  (snd (coerceToValidResponseForClient resp fb st) = st
   \/ exists m p, snd (coerceToValidResponseForClient resp fb st)
                  = wrote (notification m p) st)
  /\ match fst (coerceToValidResponseForClient resp fb st) with
     | Normal safe => reconciled resp fb safe
     | Throw _ => snd (coerceToValidResponseForClient resp fb st) = st
     end.
Proof.
  assert (E : forall body, reconciled resp fb
                (response (nullish fb Null) "error" body)).
  { intros body. exists (nullish fb Null), "error"%string, body. auto. }
  destruct (is_object resp) eqn:O.
  2:{ rewrite (coerce_non_object _ _ _ O). simpl. split; [now left|].
      rewrite makeError_plain. apply E. }
  destruct resp as [| | | | |l|ps]; try discriminate.
  - rewrite coerce_array. simpl. split; [now left|].
    rewrite makeError_plain. apply E.
  - rewrite coerce_object. cbv zeta.
    destruct (has_key (lit "method") ps && negb (has_key (lit "id") ps)).
    { simpl. split; [right; eauto|].
      exists (nullish fb Null), "result"%string, (Obj [(lit "ok", Bool true)]). auto. }
    destruct (negb (is_nullish (get_own (Obj ps) (lit "error")))).
    { destruct (normalizeRemoteError _); simpl; split; auto.
      apply reply_reconciled; auto. }
    destruct (negb (has_key (lit "result") ps)
              && (has_key (lit "message") ps || has_key (lit "status") ps)).
    { destruct (normalizeRemoteError _); simpl; split; auto.
      apply reply_reconciled; auto. }
    destruct (negb (has_key (lit "result") ps)); simpl; split; auto.
    + rewrite makeError_plain. apply E.
    + apply reply_reconciled; auto.
Qed.

End ReconcilerFacts.

Section FramesOfOneLine.

Variables (net : network) (line : jstr).

Lemma request_id_nullish : nullish (request_id line) Null = request_id line.
Proof. apply nullish_idem. Qed.

Lemma on_line_stdout st :
  stdout (on_line net line st) = stdout (snd (handleMessage net line st)).
Proof.
  unfold on_line. destruct (handleMessage net line st) as [[u|e] st']; reflexivity.
Qed.

End FramesOfOneLine.

Section ParserFuel.

Lemma skip_ws_length s : length (JSON.skip_ws s) <= length s.
Proof.
  induction s as [|c s IH]; simpl; [lia|].
  destruct (JSON.is_json_ws c); simpl; lia.
Qed.

Lemma span_length p s a b : span p s = (a, b) -> length s = length a + length b.
Proof.
  revert a b; induction s as [|c s IH]; simpl; intros a b.
  - intros E; injection E as <- <-. reflexivity.
  - destruct (p c).
    + destruct (span p s) as [a' b'] eqn:Es. intros E; injection E as <- <-.
      simpl. rewrite (IH a' b' eq_refl). reflexivity.
    + intros E; injection E as <- <-. reflexivity.
Qed.

Lemma starts_with_length pat s :
  starts_with pat s = true -> length pat <= length s.
Proof.
  revert s; induction pat as [|p pat IH]; intros [|c s]; simpl; intros H;
    try lia; try discriminate.
  apply andb_prop in H as [_ H]. apply IH in H. lia.
Qed.

Lemma keyword_length w v s v' r :
  lit w <> [] -> JSON.keyword w v s = Some (v', r) -> length r < length s.
Proof.
  unfold JSON.keyword. intros Hw.
  destruct (starts_with (lit w) s) eqn:E; [|discriminate].
  intros H; injection H as <- <-. apply starts_with_length in E.
  rewrite length_skipn. destruct (lit w); [congruence|]. simpl in *. lia.
Qed.

Lemma string_chars_length : forall n s acc k r,
  length s <= n -> JSON.string_chars acc s = Some (k, r) -> length r < length s.
Proof.
  induction n as [|n IH]; intros s acc k r Hn.
  - destruct s; [discriminate | simpl in Hn; lia].
  - destruct s as [|c t]; [discriminate|]. simpl in Hn. simpl.
    destruct (c =? 34)%N.
    { intros E; injection E as <- <-. lia. }
    destruct (c =? 92)%N.
    { destruct t as [|e t1]; [discriminate|].
      destruct (e =? 117)%N.
      - destruct t1 as [|h1 [|h2 [|h3 [|h4 t5]]]]; try discriminate.
        destruct (JSON.hex4 h1 h2 h3 h4); [|discriminate].
        intros E. apply IH in E; simpl in *; lia.
      - destruct (JSON.simple_escape e); [|discriminate].
        intros E. apply IH in E; simpl in *; lia. }
    destruct (c <? 32)%N; [discriminate|].
    intros E. apply IH in E; simpl in *; lia.
Qed.

Lemma number_literal_length s n r :
  JSON.number_literal s = Some (n, r) -> length r < length s.
Proof.
  unfold JSON.number_literal.
  set (p := match s with
            | c :: t => if (c =? 45)%N then (true, t) else (false, s)
            | [] => (false, s)
            end).
  assert (Hp : length (snd p) <= length s).
  { subst p. destruct s as [|c t]; simpl; [lia|].
    destruct (c =? 45)%N; simpl; lia. }
  destruct p as [neg s1]. simpl in Hp.
  destruct (span is_digit s1) as [ip r1] eqn:E1. apply span_length in E1.
  destruct ip as [|d ds]; [discriminate|]. simpl in E1.
  destruct ((d =? 48)%N && negb (JNum.is_nil ds)); [discriminate|].
  set (frac := match r1 with
               | c :: r0 =>
                   if (c =? 46)%N
                   then let (fp, r2) := span is_digit r0 in
                        if JNum.is_nil fp then None else Some (fp, r2)
                   else Some ([], r1)
               | [] => Some ([], r1)
               end).
  assert (Hf : forall fp r2, frac = Some (fp, r2) -> length r2 <= length r1).
  { subst frac. intros fp r2. destruct r1 as [|c r0].
    - intros E; injection E as <- <-. lia.
    - destruct (c =? 46)%N.
      + destruct (span is_digit r0) as [fp' r2'] eqn:E2. apply span_length in E2.
        destruct (JNum.is_nil fp'); [discriminate|].
        intros E; injection E as <- <-. simpl. lia.
      + intros E; injection E as <- <-. lia. }
  destruct frac as [[fp r2]|]; [|discriminate].
  specialize (Hf fp r2 eq_refl).
  set (expo := match r2 with
               | c :: r0 => _
               | [] => Some (0%Z, r2)
               end).
  assert (He : forall ex r3, expo = Some (ex, r3) -> length r3 <= length r2).
  { subst expo. intros ex r3. destruct r2 as [|c r0].
    - intros E; injection E as <- <-. lia.
    - destruct ((c =? 101)%N || (c =? 69)%N).
      + set (q := match r0 with
                  | sg :: r'' => _
                  | [] => (false, r0)
                  end).
        assert (Hq : length (snd q) <= length r0).
        { subst q. destruct r0 as [|sg r'']; simpl; [lia|].
          destruct (sg =? 45)%N; simpl; [lia|].
          destruct (sg =? 43)%N; simpl; lia. }
        destruct q as [eneg r']. simpl in Hq.
        destruct (span is_digit r') as [ed r3'] eqn:E3. apply span_length in E3.
        destruct (JNum.is_nil ed); [discriminate|].
        intros E; injection E as <- <-. simpl. lia.
      + intros E; injection E as <- <-. lia. }
  destruct expo as [[ex r3]|]; [|discriminate].
  specialize (He ex r3 eq_refl).
  intros E; injection E as <- <-. lia.
Qed.

(** The fuel of the parser is never what stops it: a result reached with
    some fuel is reached with any fuel of at least twice the number of
    characters read. *)
Lemma parser_fuel : forall f,
  (forall s v r,
      JSON.parse_value f s = Some (v, r) ->
      length r < length s
      /\ forall f', 2 * (length s - length r) <= f' ->
                    JSON.parse_value f' s = Some (v, r))
  /\ (forall acc s l r,
         JSON.parse_elements f acc s = Some (l, r) ->
         length r < length s
         /\ forall f', 2 * (length s - length r) <= S f' ->
                       JSON.parse_elements f' acc s = Some (l, r))
  /\ (forall acc s ps r,
         JSON.parse_members f acc s = Some (ps, r) ->
         length r < length s
         /\ forall f', 2 * (length s - length r) <= S f' ->
                       JSON.parse_members f' acc s = Some (ps, r)).
Proof.
  induction f as [|f (IHv & IHe & IHm)].
  { repeat split; discriminate. }
  split; [|split].
  - intros s v r H. simpl in H.
    destruct (JSON.skip_ws s) as [|c t] eqn:Es; [discriminate|].
    pose proof (skip_ws_length s) as Ls. rewrite Es in Ls. simpl in Ls.
    destruct (c =? 110)%N eqn:T1.
    { assert (L : length r < length (c :: t))
        by (eapply (keyword_length "null"); [discriminate | exact H]).
      split; [simpl in *; lia|]. intros [|f'] Hf'; [simpl in *; lia|].
      simpl. use_equations. reflexivity. }
    destruct (c =? 116)%N eqn:T2.
    { assert (L : length r < length (c :: t))
        by (eapply (keyword_length "true"); [discriminate | exact H]).
      split; [simpl in *; lia|]. intros [|f'] Hf'; [simpl in *; lia|].
      simpl. use_equations. reflexivity. }
    destruct (c =? 102)%N eqn:T3.
    { assert (L : length r < length (c :: t))
        by (eapply (keyword_length "false"); [discriminate | exact H]).
      split; [simpl in *; lia|]. intros [|f'] Hf'; [simpl in *; lia|].
      simpl. use_equations. reflexivity. }
    destruct (c =? 34)%N eqn:T4.
    { destruct (JSON.string_chars [] t) as [[str r0]|] eqn:Ec; [|discriminate].
      injection H as <- <-.
      pose proof (string_chars_length _ _ _ _ _ (le_n _) Ec) as L.
      split; [simpl in *; lia|]. intros [|f'] Hf'; [simpl in *; lia|].
      simpl. use_equations. reflexivity. }
    destruct (c =? 91)%N eqn:T5.
    { destruct (JSON.skip_ws t) as [|c' t'] eqn:Et; [discriminate|].
      pose proof (skip_ws_length t) as Lt. rewrite Et in Lt. simpl in Lt.
      destruct (c' =? 93)%N eqn:T6.
      - injection H as <- <-.
        split; [simpl in *; lia|]. intros [|f'] Hf'; [simpl in *; lia|].
        simpl. use_equations. reflexivity.
      - destruct (JSON.parse_elements f [] t) as [[l r0]|] eqn:Ee; [|discriminate].
        injection H as <- <-. destruct (IHe _ _ _ _ Ee) as [L F].
        split; [simpl in *; lia|]. intros [|f'] Hf'; [simpl in *; lia|].
        simpl. rewrite Es, T1, T2, T3, T4, T5, Et, T6.
        rewrite (F f') by (simpl in *; lia). reflexivity. }
    destruct (c =? 123)%N eqn:T7.
    { destruct (JSON.skip_ws t) as [|c' t'] eqn:Et; [discriminate|].
      pose proof (skip_ws_length t) as Lt. rewrite Et in Lt. simpl in Lt.
      destruct (c' =? 125)%N eqn:T6.
      - injection H as <- <-.
        split; [simpl in *; lia|]. intros [|f'] Hf'; [simpl in *; lia|].
        simpl. use_equations. reflexivity.
      - destruct (JSON.parse_members f [] t) as [[l r0]|] eqn:Ee; [|discriminate].
        injection H as <- <-. destruct (IHm _ _ _ _ Ee) as [L F].
        split; [simpl in *; lia|]. intros [|f'] Hf'; [simpl in *; lia|].
        simpl. rewrite Es, T1, T2, T3, T4, T5, T7, Et, T6.
        rewrite (F f') by (simpl in *; lia). reflexivity. }
    destruct (JSON.number_literal (c :: t)) as [[n r0]|] eqn:En; [|discriminate].
    injection H as <- <-. pose proof (number_literal_length _ _ _ En) as L.
    split; [simpl in *; lia|]. intros [|f'] Hf'; [simpl in *; lia|].
    simpl. rewrite Es, T1, T2, T3, T4, T5, T7, En. reflexivity.
  - intros acc s l r H. simpl in H.
    destruct (JSON.parse_value f s) as [[v r1]|] eqn:Ev; [|discriminate].
    destruct (IHv _ _ _ Ev) as [L1 F1].
    destruct (JSON.skip_ws r1) as [|c t] eqn:Es; [discriminate|].
    pose proof (skip_ws_length r1) as Ls. rewrite Es in Ls. simpl in Ls.
    destruct (c =? 44)%N eqn:T1.
    + destruct (IHe _ _ _ _ H) as [L2 F2].
      split; [lia|]. intros [|f'] Hf'; [lia|].
      simpl. rewrite (F1 f') by lia. rewrite Es, T1. apply F2. lia.
    + destruct (c =? 93)%N eqn:T2; [|discriminate]. injection H as <- <-.
      split; [lia|]. intros [|f'] Hf'; [lia|].
      simpl. rewrite (F1 f') by lia. now rewrite Es, T1, T2.
  - intros acc s ps r H. simpl in H.
    destruct (JSON.skip_ws s) as [|q t0] eqn:Es0; [discriminate|].
    pose proof (skip_ws_length s) as Ls0. rewrite Es0 in Ls0. simpl in Ls0.
    destruct (q =? 34)%N eqn:Tq; [|discriminate].
    destruct (JSON.string_chars [] t0) as [[k r0]|] eqn:Ek; [|discriminate].
    pose proof (string_chars_length _ _ _ _ _ (le_n _) Ek) as Lk.
    destruct (JSON.skip_ws r0) as [|col r1] eqn:Es1; [discriminate|].
    pose proof (skip_ws_length r0) as Ls1. rewrite Es1 in Ls1. simpl in Ls1.
    destruct (col =? 58)%N eqn:Tc; [|discriminate].
    destruct (JSON.parse_value f r1) as [[v r2]|] eqn:Ev; [|discriminate].
    destruct (IHv _ _ _ Ev) as [L1 F1].
    destruct (JSON.skip_ws r2) as [|c t] eqn:Es; [discriminate|].
    pose proof (skip_ws_length r2) as Ls. rewrite Es in Ls. simpl in Ls.
    destruct (c =? 44)%N eqn:T1.
    + destruct (IHm _ _ _ _ H) as [L2 F2].
      split; [lia|]. intros [|f'] Hf'; [lia|].
      simpl. rewrite Es0, Tq, Ek, Es1, Tc. rewrite (F1 f') by lia.
      rewrite Es, T1. apply F2. lia.
    + destruct (c =? 125)%N eqn:T2; [|discriminate]. injection H as <- <-.
      split; [lia|]. intros [|f'] Hf'; [lia|].
      simpl. rewrite Es0, Tq, Ek, Es1, Tc. rewrite (F1 f') by lia.
      now rewrite Es, T1, T2.
Qed.

(** [JSON.parse] is the grammar, whatever the fuel. *)
Lemma parse_any_fuel f s v r :
  JSON.parse_value f s = Some (v, r) -> JSON.skip_ws r = [] ->
  JSON.parse s = Normal v.
Proof.
  intros H Hr. unfold JSON.parse.
  destruct (proj1 (parser_fuel f) _ _ _ H) as [L F].
  rewrite (F (2 * length s + 2)) by lia. now rewrite Hr.
Qed.

End ParserFuel.

Section MatchFuel.

Lemma trim_start_length s : length (trim_start s) <= length s.
Proof.
  induction s as [|c s IH]; simpl; [lia|].
  destruct (is_ws c); simpl; lia.
Qed.

Lemma lazy_object_length : forall s acc capture rest,
  lazy_object acc s = Some (capture, rest) -> length rest < length s.
Proof.
  induction s as [|c t IH]; intros acc capture rest; simpl; [discriminate|].
  destruct ((c =? 125)%N && match t with [] => true | n :: _ => (n =? 10)%N end).
  - intros E; injection E as <- <-. lia.
  - intros E. apply IH in E. lia.
Qed.

Lemma match_here_length s capture rest :
  match_here s = Some (capture, rest) -> length rest < length s.
Proof.
  unfold match_here.
  destruct (starts_with (lit "data:") s) eqn:E; [|discriminate].
  apply starts_with_length in E. simpl in E.
  pose proof (trim_start_length (skipn 5 s)) as L. rewrite length_skipn in L.
  destruct (trim_start (skipn 5 s)) as [|c t]; [discriminate|]. simpl in L.
  destruct (c =? 123)%N; [|discriminate].
  intros H. apply lazy_object_length in H. lia.
Qed.

(** The fuel of [all_matches] is never what stops it. *)
Lemma all_matches_fuel : forall f1 f2 s,
  length s < f1 -> length s < f2 -> all_matches f1 s = all_matches f2 s.
Proof.
  induction f1 as [|f1 IH]; intros [|f2] s H1 H2; try lia. simpl.
  destruct (match_here s) as [[capture rest]|] eqn:E.
  - apply match_here_length in E. f_equal. apply IH; lia.
  - destruct s as [|c t]; [reflexivity|]. simpl in *. apply IH; lia.
Qed.

End MatchFuel.

Section ParseFacts.

Lemma ws_range c : is_ws c = true -> (c <= 32 \/ 160 <= c)%N.
Proof.
  unfold is_ws. rewrite !orb_true_iff, !andb_true_iff, !N.eqb_eq, !N.leb_le. lia.
Qed.

Lemma trim_start_nil s : trim_start s = [] -> forallb is_ws s = true.
Proof.
  induction s as [|c s IH]; simpl; [reflexivity|].
  destruct (is_ws c); [exact IH | discriminate].
Qed.

Lemma trim_start_ws s : forallb is_ws (trim_start s) = true -> forallb is_ws s = true.
Proof.
  induction s as [|c s IH]; simpl; [reflexivity|].
  destruct (is_ws c) eqn:E; simpl; [exact IH|].
  rewrite E. discriminate.
Qed.

Lemma forallb_rev {A} (p : A -> bool) l : forallb p (rev l) = forallb p l.
Proof.
  induction l as [|x l IH]; simpl; [reflexivity|].
  rewrite forallb_app, IH. simpl. rewrite andb_true_r. apply andb_comm.
Qed.

Lemma trim_nil s : trim s = [] -> forallb is_ws s = true.
Proof.
  unfold trim. intros H.
  assert (E : trim_start (rev (trim_start s)) = []).
  { destruct (trim_start (rev (trim_start s))) as [|c l]; [reflexivity|].
    simpl in H. now destruct (rev l). }
  apply trim_start_nil in E. rewrite forallb_rev in E.
  now apply trim_start_ws.
Qed.

Lemma skip_ws_ws s : forallb is_ws s = true -> forallb is_ws (JSON.skip_ws s) = true.
Proof.
  induction s as [|c s IH]; simpl; [reflexivity|].
  intros H. destruct (JSON.is_json_ws c); [|exact H].
  apply andb_prop in H as [_ H]. auto.
Qed.

(** A text of white space is not JSON. *)
Lemma parse_value_ws fuel s :
  forallb is_ws s = true -> JSON.parse_value fuel s = None.
Proof.
  intros H. destruct fuel as [|f]; [reflexivity|]. simpl.
  apply skip_ws_ws in H. destruct (JSON.skip_ws s) as [|c t]; [reflexivity|].
  simpl in H. apply andb_prop in H as [Hc _]. apply ws_range in Hc.
  assert (T : forall k, (32 < k < 160)%N -> (c =? k)%N = false)
    by (intros k Hk; apply N.eqb_neq; lia).
  rewrite !T by lia.
  unfold JSON.number_literal. rewrite T by lia. simpl.
  assert (D : is_digit c = false).
  { unfold is_digit. destruct (N.leb_spec 48 c), (N.leb_spec c 57); simpl; auto; lia. }
  now rewrite D.
Qed.

Lemma parse_not_blank line msg :
  JSON.parse line = Normal msg ->
  JNum.is_nil line || JNum.is_nil (trim line) = false.
Proof.
  intros H. destruct (JNum.is_nil line || JNum.is_nil (trim line)) eqn:B;
    [exfalso | reflexivity].
  assert (W : forallb is_ws line = true).
  { apply orb_prop in B as [B|B].
    - destruct line; [reflexivity | discriminate].
    - apply trim_nil. destruct (trim line); [reflexivity | discriminate]. }
  unfold JSON.parse in H. now rewrite (parse_value_ws _ _ W) in H.
Qed.

(** [JSON.parse] never returns [undefined]. *)
Lemma parse_value_defined fuel s v r :
  JSON.parse_value fuel s = Some (v, r) -> v <> Undefined.
Proof.
  destruct fuel as [|f]; [discriminate|]. simpl.
  destruct (JSON.skip_ws s) as [|c t]; [discriminate|].
  unfold JSON.keyword.
  repeat match goal with
         | |- context [if ?b then _ else _] => destruct b
         | |- context [match ?x with _ => _ end] => destruct x
         end; intros E; try discriminate; injection E as <- _; discriminate.
Qed.

Lemma parse_defined line msg : JSON.parse line = Normal msg -> msg <> Undefined.
Proof.
  unfold JSON.parse.
  destruct (JSON.parse_value _ line) as [[v r]|] eqn:E; [|discriminate].
  destruct (JSON.skip_ws r); [|discriminate].
  intros H; injection H as <-. now apply (parse_value_defined _ _ _ _ E).
Qed.

End ParseFacts.

Section HandlerFacts.

Variables (net : network) (line : jstr) (msg : value).
Hypothesis parsed : JSON.parse line = Normal msg.

Lemma request_of_parsed : request_of line = msg.
Proof. unfold request_of. now rewrite parsed. Qed.

Lemma request_id_parsed : request_id line = nullish (get_own msg (lit "id")) Null.
Proof. unfold request_id. now rewrite request_of_parsed. Qed.

Lemma remote_payload_parsed :
  remote_payload net line
  = decode_outcome (net (JSON.stringify msg)) (request_id line).
Proof. unfold remote_payload. now rewrite request_of_parsed. Qed.

(** A message without a usable method is answered at once. *)
Lemma handleMessage_invalid st :
  msg <> Null -> lacks_method msg ->
  handleMessage net line st
  = (Normal tt, wrote (invalid_request (request_id line)) st).
Proof.
  intros Hn Hl. unfold handleMessage.
  rewrite (parse_not_blank _ _ parsed), parsed, request_id_parsed.
  pose proof (parse_defined _ _ parsed) as Hd.
  assert (G : forall k, get msg k = Normal (get_own msg (lit k)))
    by (intros k; destruct msg; simpl; congruence).
  unfold mbind at 1. rewrite G. unfold lift at 1.
  unfold mbind at 1. rewrite G. unfold lift at 1.
  assert (T : negb (JStr.eqb (typeof (get_own msg (lit "method"))) (lit "string"))
              || negb (truthy (get_own msg (lit "method"))) = true).
  { specialize (Hl). unfold lacks_method in Hl.
    destruct (get_own msg (lit "method")) as [| |b|n|s|l|ps]; try reflexivity.
    now rewrite (Hl s eq_refl). }
  rewrite T, makeError_plain, nullish_idem. apply sendResponse_error.
Qed.

(** A message with a method goes to one of the two branches. *)
Lemma handleMessage_method st m :
  get_own msg (lit "method") = Str m -> m <> [] ->
  handleMessage net line st
  = if JStr.eqb m (lit "initialize")
    then handle_initialize net msg (request_id line) st
    else handle_other net msg (request_id line) st.
Proof.
  intros Hm Hne. unfold handleMessage.
  rewrite (parse_not_blank _ _ parsed), parsed, request_id_parsed.
  assert (G : forall k, get msg k = Normal (get_own msg (lit k))).
  { intros k. destruct msg; simpl; try reflexivity; discriminate. }
  unfold mbind at 1. rewrite G. unfold lift at 1.
  unfold mbind at 1. rewrite G. unfold lift at 1.
  rewrite Hm. destruct m as [|c m]; [congruence|].
  destruct (JStr.eqb (c :: m) (lit "initialize")); reflexivity.
Qed.

End HandlerFacts.

Section BranchFacts.

Variable net : network.

Lemma has_key_set_prop_other k k' v ps :
  JStr.eqb k' k = false -> has_key k' (set_prop k v ps) = has_key k' ps.
Proof. intros H. unfold has_key. now rewrite lookup_set_prop_other. Qed.

(** A payload that is a notification is relayed, whatever its [result]. *)
Lemma coerce_relays ps ps' fb st :
  (forall k, JStr.eqb k (lit "result") = false -> lookup k ps' = lookup k ps) ->
  has_key (lit "method") ps = true -> has_key (lit "id") ps = false ->
  coerceToValidResponseForClient (Obj ps') fb st
  = (Normal (acknowledged (nullish fb Null)),
     wrote (notification (relayed_method ps) (relayed_params ps)) st).
Proof.
  intros Hk Hm Hi. rewrite coerce_object. cbv zeta.
  unfold relayed_method, relayed_params, has_key in *. simpl get_own.
  rewrite !Hk by reflexivity.
  destruct (lookup (lit "method") ps); [|discriminate].
  destruct (lookup (lit "id") ps); [discriminate|]. reflexivity.
Qed.

(** The branch of the other methods, once the remote has answered with a
    plain object. *)
Lemma handle_other_object msg id st ps :
  decode_outcome (net (JSON.stringify msg)) id = Obj ps ->
  handle_other net msg id st
  = let st1 := requested (JSON.stringify msg) st in
    let r := get_own (Obj ps) (lit "result") in
    if truthy r && is_array (get_own r (lit "tools")) then
      match repairToolsInInitializeResult r with
      | Normal r' =>
          (safe <- coerceToValidResponseForClient
                     (Obj (set_prop (lit "result") r' ps)) id ;;
           sendResponse safe)%io st1
      | Throw e => (Throw e, st1)
      end
    else
      (safe <- coerceToValidResponseForClient (Obj ps) id ;;
       sendResponse safe)%io st1.
Proof.
  intros Hr. cbv zeta. set (r := get_own (Obj ps) (lit "result")).
  unfold handle_other, forwardToRemote, fetch.
  cbn [mbind ret lift]. rewrite Hr.
  unfold and_field. change (truthy (Obj ps)) with true. cbv iota.
  change (get (Obj ps) "result") with (Normal r).
  cbn [mbind ret lift].
  destruct (truthy r) eqn:T; [|reflexivity].
  rewrite (get_truthy r "tools" T). cbn [bind].
  destruct (is_array (get_own r (lit "tools"))) eqn:A; [|reflexivity].
  unfold mbind, lift, ret. cbv beta iota.
  destruct (repairToolsInInitializeResult r); reflexivity.
Qed.

(** The [initialize] branch when the remote answered with an error and
    no result. *)
Lemma handle_initialize_failed msg id st remote :
  decode_outcome (net (JSON.stringify msg)) id = remote ->
  truthy (get_own remote (lit "result")) = false ->
  truthy (get_own remote (lit "error")) = true ->
  handle_initialize net msg id st
  = let err := get_own remote (lit "error") in
    let st1 :=
      MkState (stdout st ++ [local_initialize id])
              (stderr st ++
               [[LogValue (Str (lit "[dify-bridge]"));
                 LogValue (Str (lit "Remote initialize failed, returning local minimal initialize. Remote error:"));
                 LogValue err]])
              (requests st ++ [JSON.stringify msg]) true in
    match ToString (or_else (get_own err (lit "message")) (Str (lit "unknown"))) with
    | Normal text => (Normal tt, wrote (initialize_warning text) st1)
    | Throw e => (Throw e, st1)
    end.
Proof.
  intros Hr Hres Herr. cbv zeta.
  assert (O : exists ps, remote = Obj ps).
  { destruct remote; simpl in Herr; try discriminate. eauto. }
  destruct O as [ps ->].
  set (err := get_own (Obj ps) (lit "error")) in *.
  unfold handle_initialize, forwardToRemote, fetch.
  cbn [mbind ret lift]. rewrite Hr.
  unfold and_field. change (truthy (Obj ps)) with true. cbv iota.
  change (get (Obj ps) "result") with (Normal (get_own (Obj ps) (lit "result"))).
  change (get (Obj ps) "error") with (Normal err).
  cbn [mbind ret lift]. rewrite Hres. cbn [mbind ret lift]. rewrite Herr.
  unfold log, localInitializeSuccess, set_initialized.
  unfold mbind, lift, ret. cbv beta iota. cbn [stdout stderr requests initialized].
  change (Obj [(lit "jsonrpc", Str (lit "2.0")); (lit "id", id);
               (lit "result",
                Obj [(lit "protocolVersion", Str (lit "2024-11-05"));
                     (lit "serverInfo",
                      Obj [(lit "name", Str (lit "dify-mcp-bridge"));
                           (lit "version", Str (lit "1.0.0"))]);
                     (lit "capabilities", Obj []); (lit "tools", Arr [])])])
    with (local_initialize id).
  unfold local_initialize at 1. rewrite sendResponse_result.
  fold (local_initialize id). cbv beta iota. unfold wrote at 1.
  cbn [stdout stderr requests initialized].
  rewrite (get_truthy err "message" Herr). cbv beta iota.
  destruct (ToString _) as [text|e]; [|reflexivity].
  rewrite sendNotification_string. reflexivity.
Qed.

End BranchFacts.

(* ================================================================== *)
(** * Facts for the further properties *)
(* ================================================================== *)

Section Blind.

Lemma with_flag_flag b b' st : with_flag b' (with_flag b st) = with_flag b' st.
Proof. reflexivity. Qed.

Lemma blind_ret {A} (a : A) : blind (ret a).
Proof. intros st b. exists b. reflexivity. Qed.

Lemma blind_lift {A} (c : completion A) : blind (lift c).
Proof. intros st b. exists b. reflexivity. Qed.

Lemma blind_write obj : blind (write obj).
Proof. intros st b. exists b. reflexivity. Qed.

Lemma blind_log a : blind (log a).
Proof. intros st b. exists b. reflexivity. Qed.

Lemma blind_fetch net body : blind (fetch net body).
Proof. intros st b. exists b. reflexivity. Qed.

Lemma blind_set_initialized x : blind (set_initialized x).
Proof. intros st b. exists x. reflexivity. Qed.

Lemma blind_bind {A B} (m : M A) (k : A -> M B) :
  blind m -> (forall a, blind (k a)) -> blind (mbind m k).
Proof.
  intros Hm Hk st b. destruct (Hm st b) as [b1 E1].
  unfold mbind. rewrite E1.
  destruct (m st) as [[a|e] st1]; simpl.
  - destruct (Hk a st1 b1) as [b2 E2]. exists b2. rewrite E2.
    destruct (k a st1); reflexivity.
  - exists b1. reflexivity.
Qed.

Lemma blind_if {A} (c : bool) (m1 m2 : M A) :
  blind m1 -> blind m2 -> blind (if c then m1 else m2).
Proof. destruct c; auto. Qed.

End Blind.

Ltac blind_step :=
  first [ apply blind_ret | apply blind_lift | apply blind_write | apply blind_log
        | apply blind_fetch | apply blind_set_initialized
        | apply blind_bind; [|intros ?] | apply blind_if ].

Section BlindBridge.

Lemma blind_sendResponse obj : blind (sendResponse obj).
Proof. unfold sendResponse. repeat blind_step. Qed.

Lemma blind_sendNotification m p : blind (sendNotification m p).
Proof. unfold sendNotification. repeat blind_step. Qed.

Lemma blind_forward net payload id : blind (forwardToRemote net payload id).
Proof. unfold forwardToRemote. repeat blind_step. Qed.

Lemma blind_local id : blind (localInitializeSuccess id).
Proof. unfold localInitializeSuccess. repeat blind_step. Qed.

Lemma blind_coerce resp fb : blind (coerceToValidResponseForClient resp fb).
Proof.
  unfold coerceToValidResponseForClient.
  repeat first [ apply blind_sendNotification | blind_step ].
Qed.

Lemma blind_handle_other net msg id : blind (handle_other net msg id).
Proof.
  unfold handle_other.
  repeat first [ apply blind_forward | apply blind_coerce | apply blind_sendResponse
               | blind_step ].
Qed.

Lemma blind_handle_initialize net msg id : blind (handle_initialize net msg id).
Proof.
  unfold handle_initialize.
  repeat first [ apply blind_forward | apply blind_coerce | apply blind_sendResponse
               | apply blind_sendNotification | apply blind_local | blind_step ].
Qed.

Lemma blind_handleMessage net line : blind (handleMessage net line).
Proof.
  unfold handleMessage.
  apply blind_if; [apply blind_ret|].
  destruct (JSON.parse line); [|apply blind_ret].
  repeat first [ apply blind_handle_other | apply blind_handle_initialize
               | apply blind_sendResponse | blind_step ].
Qed.

End BlindBridge.

Section Keeps.

Context {A B : Type} (R : state -> state -> Prop).
Hypothesis R_steady : steady R.

Lemma keeps_ret (a : A) : keeps R (ret a).
Proof. intros st. apply R_steady. Qed.

Lemma keeps_lift (c : completion A) : keeps R (lift c).
Proof. intros st. apply R_steady. Qed.

Lemma keeps_bind (m : M A) (k : A -> M B) :
  keeps R m -> (forall a, keeps R (k a)) -> keeps R (mbind m k).
Proof.
  intros Hm Hk st. unfold mbind. specialize (Hm st).
  destruct (m st) as [[a|e] st1]; simpl in *; [|exact Hm].
  destruct R_steady as (_ & T & _). eapply T; [exact Hm | apply Hk].
Qed.

Lemma keeps_if (c : bool) (m1 m2 : M A) :
  keeps R m1 -> keeps R m2 -> keeps R (if c then m1 else m2).
Proof. destruct c; auto. Qed.

End Keeps.

Section KeepsBridge.

Variable R : state -> state -> Prop.
Hypothesis R_steady : steady R.

Lemma keeps_write obj : keeps R (write obj).
Proof. intros st. apply R_steady. Qed.

Lemma keeps_log a : keeps R (log a).
Proof. intros st. apply R_steady. Qed.

Lemma keeps_sendResponse obj : keeps R (sendResponse obj).
Proof.
  unfold sendResponse.
  apply (keeps_bind R R_steady); [apply (keeps_lift R R_steady)|].
  intros out. apply keeps_write.
Qed.

Lemma keeps_sendNotification m p : keeps R (sendNotification m p).
Proof.
  unfold sendNotification.
  apply (keeps_bind R R_steady); [apply (keeps_lift R R_steady)|].
  intros out. apply keeps_write.
Qed.

End KeepsBridge.

(** One step of a proof that a computation of the bridge keeps [R]. *)
Ltac keeps_step R H :=
  first [ apply (keeps_sendResponse R H) | apply (keeps_sendNotification R H)
        | apply (keeps_ret R H) | apply (keeps_lift R H)
        | apply (keeps_write R H) | apply (keeps_log R H)
        | apply (keeps_bind R H); [|intros ?] | apply keeps_if ].

Section KeepsHandlers.

Variable R : state -> state -> Prop.
Hypothesis R_steady : steady R.

Lemma keeps_coerce resp fb : keeps R (coerceToValidResponseForClient resp fb).
Proof. unfold coerceToValidResponseForClient. repeat keeps_step R R_steady. Qed.

(** What [handle_other] does once the remote has answered. *)
Lemma keeps_answer_other remote id :
  keeps R
    (res <- lift (and_field remote "result") ;;
     has_tools <- lift (if truthy res
                        then (ts <- get res "tools" ;; Normal (is_array ts))%js
                        else Normal false) ;;
     remote <- (if has_tools then
                  r <- lift (get remote "result") ;;
                  r' <- lift (repairToolsInInitializeResult r) ;;
                  lift (assign remote "result" r')
                else ret remote) ;;
     safe <- coerceToValidResponseForClient remote id ;;
     sendResponse safe)%io.
Proof. repeat first [ apply keeps_coerce | keeps_step R R_steady ]. Qed.

(** What [handle_initialize] does with a truthy result... *)
Lemma keeps_answer_result remote id :
  keeps R
    (r <- lift (get remote "result") ;;
     r' <- lift (repairToolsInInitializeResult r) ;;
     remote <- lift (assign remote "result" r') ;;
     safe <- coerceToValidResponseForClient remote id ;;
     sendResponse safe)%io.
Proof. repeat first [ apply keeps_coerce | keeps_step R R_steady ]. Qed.

(** ... and once it has made a local answer. *)
Lemma keeps_answer_local remote local :
  keeps R
    (sendResponse local ;;;
     e <- lift (get remote "error") ;;
     m <- lift (get e "message") ;;
     text <- lift (ToString (or_else m (Str (lit "unknown")))) ;;
     sendNotification (Str (lit "notifications/message"))
       (Obj [(lit "level", Str (lit "warning"));
             (lit "message",
              Str (lit "dify-bridge: remote initialize failed (" ++ text ++ lit ")"))]))%io.
Proof. repeat keeps_step R R_steady. Qed.

End KeepsHandlers.

Section HandlerEffects.

Variable net : network.

Lemma steady_requests : steady same_requests.
Proof. unfold steady, same_requests. repeat split; intros; simpl; congruence. Qed.

Lemma steady_flag : steady same_flag.
Proof. unfold steady, same_flag. repeat split; intros; simpl; congruence. Qed.

Lemma steady_flag_kept : steady flag_kept.
Proof. unfold steady, flag_kept. repeat split; intros; simpl; auto. Qed.

Lemma and_field_spec remote k :
  and_field remote k
  = Normal (if truthy remote then get_own remote (lit k) else remote).
Proof.
  unfold and_field. destruct (truthy remote) eqn:T; [|reflexivity].
  now apply get_truthy.
Qed.

Lemma handle_other_requests msg id st :
  requests (snd (handle_other net msg id st))
  = requests st ++ [JSON.stringify msg].
Proof.
  unfold handle_other, forwardToRemote, fetch. cbn [mbind ret].
  apply (keeps_answer_other same_requests steady_requests _ _
           (requested (JSON.stringify msg) st)).
Qed.

Lemma handle_other_flag msg id st :
  initialized (snd (handle_other net msg id st)) = initialized st.
Proof.
  unfold handle_other, forwardToRemote, fetch. cbn [mbind ret].
  apply (keeps_answer_other same_flag steady_flag _ _
           (requested (JSON.stringify msg) st)).
Qed.

Lemma handle_initialize_requests msg id st :
  requests (snd (handle_initialize net msg id st))
  = requests st ++ [JSON.stringify msg].
Proof.
  unfold handle_initialize, forwardToRemote, fetch. cbn [mbind ret].
  match goal with
  | |- requests (snd (?m ?s)) = _ =>
      change (requests st ++ [JSON.stringify msg]) with (requests s);
      enough (K : keeps same_requests m) by (apply K)
  end.
  repeat first [ apply (keeps_coerce same_requests steady_requests)
               | keeps_step same_requests steady_requests
               | intros s; reflexivity ].
Qed.

Lemma handle_initialize_flag msg id st :
  initialized (snd (handle_initialize net msg id st)) = true.
Proof.
  unfold handle_initialize, forwardToRemote, fetch. cbn [mbind ret].
  rewrite and_field_spec. cbn [mbind lift].
  destruct (truthy (if truthy _ then _ else _)).
  - unfold set_initialized at 1. cbn [mbind].
    match goal with
    | |- initialized (snd (_ ?s)) = _ =>
        apply (keeps_answer_result flag_kept steady_flag_kept _ _ s); reflexivity
    end.
  - rewrite and_field_spec. cbn [mbind lift].
    destruct (truthy (if truthy _ then _ else _)).
    + unfold log at 1, localInitializeSuccess, set_initialized. cbn [mbind ret].
      match goal with
      | |- initialized (snd (_ ?s)) = _ =>
          apply (keeps_answer_local flag_kept steady_flag_kept _ _ s); reflexivity
      end.
    + unfold localInitializeSuccess, set_initialized. cbn [mbind ret].
      match goal with
      | |- initialized (snd (_ ?s)) = _ =>
          apply (keeps_sendResponse flag_kept steady_flag_kept _ s); reflexivity
      end.
Qed.

End HandlerEffects.

Section LineCases.

Variables (net : network) (line : jstr) (st : state).

Lemma handleMessage_blank :
  trim line = [] -> handleMessage net line st = (Normal tt, st).
Proof.
  intros H. unfold handleMessage. rewrite H. simpl.
  now rewrite orb_true_r.
Qed.

Lemma has_method_spec msg :
  has_method msg = false <-> lacks_method msg.
Proof.
  unfold has_method, lacks_method. split.
  - intros H m E. rewrite E in H. destruct m; [reflexivity | discriminate].
  - intros H. destruct (get_own msg (lit "method")) as [| | | |[|c m]| |];
      try reflexivity.
    specialize (H (c :: m) eq_refl). discriminate.
Qed.

(** The four ways of a line: not JSON, the value [null], a message
    without a usable method, a request. *)
Lemma handleMessage_cases :
  match JSON.parse line with
  | Throw _ => handleMessage net line st = (Normal tt, st)
  | Normal msg =>
      if has_method msg then
        handleMessage net line st
        = if is_initialize line
          then handle_initialize net msg (request_id line) st
          else handle_other net msg (request_id line) st
      else
        match msg with
        | Null =>
            handleMessage net line st
            = (Throw (TypeError (lit "Cannot read properties of null (reading 'id')")),
               st)
        | _ =>
            handleMessage net line st
            = (Normal tt, wrote (invalid_request (request_id line)) st)
        end
  end.
Proof.
  destruct (JSON.parse line) as [msg|e] eqn:Hp.
  - destruct (has_method msg) eqn:Hm.
    + unfold has_method in Hm.
      destruct (get_own msg (lit "method")) as [| | | |[|c m]| |] eqn:Em;
        try discriminate.
      rewrite (handleMessage_method net line msg Hp st (c :: m) Em) by discriminate.
      unfold is_initialize. now rewrite Hp, Em.
    + apply has_method_spec in Hm.
      destruct msg as [| |b|n|s|l|ps];
        try (apply (handleMessage_invalid net line _ Hp st); [discriminate | exact Hm]).
      unfold handleMessage. rewrite (parse_not_blank _ _ Hp), Hp. reflexivity.
  - unfold handleMessage. rewrite Hp. now destruct (_ || _).
Qed.

Lemma on_line_requests :
  requests (on_line net line st) = requests (snd (handleMessage net line st)).
Proof.
  unfold on_line. destruct (handleMessage net line st) as [[u|e] st']; reflexivity.
Qed.

Lemma on_line_flag :
  initialized (on_line net line st) = initialized (snd (handleMessage net line st)).
Proof.
  unfold on_line. destruct (handleMessage net line st) as [[u|e] st']; reflexivity.
Qed.

End LineCases.

Lemma on_line_forwards (net : network) (line : jstr) (st : state) :
  requests (on_line net line st) = requests st ++ forwarded line.
Proof.
  rewrite on_line_requests. unfold forwarded.
  pose proof (handleMessage_cases net line st) as H.
  destruct (JSON.parse line) as [msg|e].
  - destruct (has_method msg).
    + rewrite H. destruct (is_initialize line).
      * apply handle_initialize_requests.
      * apply handle_other_requests.
    + destruct msg; rewrite H; simpl; now rewrite app_nil_r.
  - rewrite H. simpl. now rewrite app_nil_r.
Qed.

Section BridgeErrors.

Variable net : network.

(** An error made by [forwardToRemote] goes through the reconciler
    unchanged and is written as the answer to the request. *)
Lemma handle_other_bridge_error msg id st code message detail :
  decode_outcome (net (JSON.stringify msg)) id
  = makeError id code message (Str detail) ->
  handle_other net msg id st
  = (Normal tt,
     wrote (response (nullish id Null) "error" (bridge_error code message detail))
       (requested (JSON.stringify msg) st)).
Proof.
  intros H. rewrite makeError_data in H. unfold response in H.
  match type of H with _ = Obj ?l => set (ps := l) in * end.
  rewrite (handle_other_object net msg id st ps H). cbv zeta.
  change (get_own (Obj ps) (lit "result")) with Undefined.
  cbn [truthy andb]. unfold mbind. rewrite coerce_object. cbv zeta.
  change (has_key (lit "method") ps) with false. cbn [andb].
  change (get_own (Obj ps) (lit "error"))
    with (Obj [(lit "code", Num (of_Z code)); (lit "message", Str message);
               (lit "data", Str detail)]).
  cbn [is_nullish negb].
  change (get_own (Obj ps) (lit "id")) with (nullish id Null).
  replace (nullish (nullish id Null) (nullish id Null)) with (nullish id Null)
    by (now destruct id).
  change (normalizeRemoteError _)
    with (Normal (bridge_error code message detail)).
  cbn [bind]. apply sendResponse_error.
Qed.

Lemma handle_initialize_bridge_error msg id st code message detail :
  message <> [] ->
  decode_outcome (net (JSON.stringify msg)) id
  = makeError id code message (Str detail) ->
  handle_initialize net msg id st
  = (Normal tt,
     MkState (stdout st ++ [local_initialize id; initialize_warning message])
       (stderr st ++
          [[LogValue (Str (lit "[dify-bridge]"));
            LogValue (Str (lit "Remote initialize failed, returning local minimal initialize. Remote error:"));
            LogValue (bridge_error code message detail)]])
       (requests st ++ [JSON.stringify msg]) true).
Proof.
  intros Hm H.
  rewrite (handle_initialize_failed net msg id st _ H); try reflexivity.
  cbv zeta. rewrite makeError_data. simpl get_own.
  unfold or_else. simpl truthy. destruct message as [|c m]; [congruence|].
  simpl. unfold wrote. simpl. now rewrite <- app_assoc.
Qed.

End BridgeErrors.

Section Requests.

Variables (net : network) (line : jstr) (msg : value) (method : jstr).
Hypothesis parsed : JSON.parse line = Normal msg.
Hypothesis method_given : get_own msg (lit "method") = Str method.
Hypothesis method_not_empty : method <> [].

Lemma on_line_other st r :
  JStr.eqb method (lit "initialize") = false ->
  handle_other net msg (request_id line) st = (Normal tt, r) ->
  on_line net line st = r.
Proof.
  intros Hi H. unfold on_line.
  rewrite (handleMessage_method net line msg parsed st method method_given method_not_empty).
  now rewrite Hi, H.
Qed.

Lemma on_line_initialize st r :
  JStr.eqb method (lit "initialize") = true ->
  handle_initialize net msg (request_id line) st = (Normal tt, r) ->
  on_line net line st = r.
Proof.
  intros Hi H. unfold on_line.
  rewrite (handleMessage_method net line msg parsed st method method_given method_not_empty).
  now rewrite Hi, H.
Qed.

End Requests.

Section ResultPath.

Variable net : network.

(** The reconciler on a payload that is a result. *)
Lemma coerce_result ps fb st :
  has_key (lit "method") ps && negb (has_key (lit "id") ps) = false ->
  is_nullish (get_own (Obj ps) (lit "error")) = true ->
  has_key (lit "result") ps = true ->
  coerceToValidResponseForClient (Obj ps) fb st
  = (Normal (response (nullish (get_own (Obj ps) (lit "id")) (nullish fb Null))
               "result" (get_own (Obj ps) (lit "result"))), st).
Proof.
  intros Hn He Hr. rewrite coerce_object. cbv zeta.
  now rewrite Hn, He, Hr.
Qed.

(** The same payload with its [result] replaced. *)
Lemma coerce_result_set ps r fb st :
  has_key (lit "method") ps && negb (has_key (lit "id") ps) = false ->
  is_nullish (get_own (Obj ps) (lit "error")) = true ->
  coerceToValidResponseForClient (Obj (set_prop (lit "result") r ps)) fb st
  = (Normal (response (nullish (get_own (Obj ps) (lit "id")) (nullish fb Null))
               "result" r), st).
Proof.
  intros Hn He. rewrite coerce_result.
  - simpl get_own. rewrite lookup_set_prop.
    now rewrite lookup_set_prop_other by reflexivity.
  - now rewrite !has_key_set_prop_other by reflexivity.
  - simpl get_own in *. now rewrite lookup_set_prop_other by reflexivity.
  - unfold has_key. now rewrite lookup_set_prop.
Qed.

(** Where there is no tool list to repair, the sanitiser returns its
    argument. *)
Lemma repair_nothing r :
  truthy r && is_array (get_own r (lit "tools")) = false ->
  repairToolsInInitializeResult r = Normal r.
Proof.
  intros H. destruct (truthy r) eqn:T.
  - apply repair_without_tools. exact H.
  - unfold repairToolsInInitializeResult. now rewrite T.
Qed.

(** The [initialize] branch, once the remote has answered with a truthy
    result. *)
Lemma handle_initialize_object msg id st ps :
  decode_outcome (net (JSON.stringify msg)) id = Obj ps ->
  truthy (get_own (Obj ps) (lit "result")) = true ->
  handle_initialize net msg id st
  = let st1 := MkState (stdout st) (stderr st)
                 (requests st ++ [JSON.stringify msg]) true in
    match repairToolsInInitializeResult (get_own (Obj ps) (lit "result")) with
    | Normal r' =>
        (safe <- coerceToValidResponseForClient
                   (Obj (set_prop (lit "result") r' ps)) id ;;
         sendResponse safe)%io st1
    | Throw e => (Throw e, st1)
    end.
Proof.
  intros Hr T. cbv zeta. set (r := get_own (Obj ps) (lit "result")) in *.
  unfold handle_initialize, forwardToRemote, fetch.
  cbn [mbind ret lift]. rewrite Hr.
  unfold and_field. change (truthy (Obj ps)) with true. cbv iota.
  change (get (Obj ps) "result") with (Normal r).
  cbn [mbind ret lift]. rewrite T.
  unfold set_initialized. unfold mbind, lift, ret. cbv beta iota.
  cbn [stdout stderr requests initialized].
  destruct (repairToolsInInitializeResult r); reflexivity.
Qed.

Lemma handle_other_result msg id st ps r' :
  decode_outcome (net (JSON.stringify msg)) id = Obj ps ->
  has_key (lit "method") ps && negb (has_key (lit "id") ps) = false ->
  is_nullish (get_own (Obj ps) (lit "error")) = true ->
  has_key (lit "result") ps = true ->
  repairToolsInInitializeResult (get_own (Obj ps) (lit "result")) = Normal r' ->
  handle_other net msg id st
  = (Normal tt,
     wrote (response (nullish (get_own (Obj ps) (lit "id")) (nullish id Null))
              "result" r')
       (requested (JSON.stringify msg) st)).
Proof.
  intros Hr Hn He Hres Hrep.
  rewrite (handle_other_object net msg id st ps Hr). cbv zeta.
  destruct (truthy _ && is_array _) eqn:T.
  - rewrite Hrep. unfold mbind. rewrite coerce_result_set by assumption.
    apply sendResponse_result.
  - rewrite (repair_nothing _ T) in Hrep. injection Hrep as <-.
    unfold mbind. rewrite coerce_result by assumption.
    apply sendResponse_result.
Qed.

Lemma handle_initialize_result msg id st ps r' :
  decode_outcome (net (JSON.stringify msg)) id = Obj ps ->
  has_key (lit "method") ps && negb (has_key (lit "id") ps) = false ->
  is_nullish (get_own (Obj ps) (lit "error")) = true ->
  truthy (get_own (Obj ps) (lit "result")) = true ->
  repairToolsInInitializeResult (get_own (Obj ps) (lit "result")) = Normal r' ->
  handle_initialize net msg id st
  = (Normal tt,
     MkState
       (stdout st ++
          [response (nullish (get_own (Obj ps) (lit "id")) (nullish id Null))
             "result" r'])
       (stderr st) (requests st ++ [JSON.stringify msg]) true).
Proof.
  intros Hr Hn He T Hrep.
  rewrite (handle_initialize_object msg id st ps Hr T). cbv zeta.
  rewrite Hrep. unfold mbind. rewrite coerce_result_set by assumption.
  apply sendResponse_result.
Qed.

(** The [initialize] branch, when the remote's answer has neither a
    truthy result nor a truthy error. *)
Lemma handle_initialize_unexpected msg id st remote :
  decode_outcome (net (JSON.stringify msg)) id = remote ->
  truthy (if truthy remote then get_own remote (lit "result") else remote) = false ->
  truthy (if truthy remote then get_own remote (lit "error") else remote) = false ->
  handle_initialize net msg id st
  = (Normal tt,
     MkState (stdout st ++ [local_initialize id]) (stderr st)
       (requests st ++ [JSON.stringify msg]) true).
Proof.
  intros Hr T1 T2.
  unfold handle_initialize, forwardToRemote, fetch.
  cbn [mbind ret lift]. rewrite Hr, and_field_spec.
  cbn [mbind ret lift]. rewrite T1, and_field_spec.
  cbn [mbind ret lift]. rewrite T2.
  unfold localInitializeSuccess, set_initialized.
  unfold mbind, lift, ret. cbv beta iota.
  cbn [stdout stderr requests initialized].
  change (Obj [(lit "jsonrpc", Str (lit "2.0")); (lit "id", id);
               (lit "result",
                Obj [(lit "protocolVersion", Str (lit "2024-11-05"));
                     (lit "serverInfo",
                      Obj [(lit "name", Str (lit "dify-mcp-bridge"));
                           (lit "version", Str (lit "1.0.0"))]);
                     (lit "capabilities", Obj []); (lit "tools", Arr [])])])
    with (local_initialize id).
  unfold local_initialize at 1. rewrite sendResponse_result. reflexivity.
Qed.

End ResultPath.

Section NonObject.

Variable net : network.

Lemma get_own_non_object v k :
  (forall ps, v <> Obj ps) ->
  JStr.eqb k (lit "length") = false -> array_index k = None ->
  get_own v k = Undefined.
Proof.
  intros H L I. destruct v; simpl; rewrite ?L, ?I; try reflexivity.
  now destruct (H props).
Qed.

Lemma and_field_non_object remote k :
  (forall ps, remote <> Obj ps) ->
  JStr.eqb (lit k) (lit "length") = false -> array_index (lit k) = None ->
  truthy (if truthy remote then get_own remote (lit k) else remote) = false.
Proof.
  intros H L I. rewrite (get_own_non_object remote _ H L I).
  now destruct (truthy remote) eqn:T.
Qed.

Lemma handle_other_non_object msg id st remote :
  decode_outcome (net (JSON.stringify msg)) id = remote ->
  (forall ps, remote <> Obj ps) ->
  handle_other net msg id st
  = (Normal tt,
     wrote (response (nullish id Null) "error" (not_a_response remote))
       (requested (JSON.stringify msg) st)).
Proof.
  intros Hr H.
  unfold handle_other, forwardToRemote, fetch.
  cbn [mbind ret lift]. rewrite Hr, and_field_spec.
  cbn [mbind ret lift].
  rewrite (and_field_non_object remote "result" H eq_refl eq_refl).
  cbn [mbind ret lift].
  destruct remote as [| |b|n|s|l|ps]; try (now destruct (H ps));
    unfold mbind;
    try (rewrite coerce_non_object by reflexivity);
    try rewrite coerce_array;
    cbv beta iota; rewrite makeError_plain; apply sendResponse_error.
Qed.

End NonObject.

Section Answers.

Variables (net : network) (line : jstr).

Lemma response_to_request k body :
  (k = "result"%string \/ k = "error"%string) ->
  is_response (addressed net line) (response (request_id line) k body).
Proof. intros Hk. exists (request_id line), k, body. repeat split; auto. now left. Qed.

Lemma local_initialize_response :
  is_response (addressed net line) (local_initialize (request_id line)).
Proof. apply response_to_request. now left. Qed.

(** Reconciling and sending: one response, after at most one
    notification; nothing when the reconciler raises. *)
Lemma answer_trace resp st :
  get_own resp (lit "id") = get_own (remote_payload net line) (lit "id") ->
  let r := (safe <- coerceToValidResponseForClient resp (request_id line) ;;
            sendResponse safe)%io st in
  exists frames,
    stdout (snd r) = stdout st ++ frames
    /\ match fst r with
       | Normal _ => answered_by net line frames
       | Throw _ => frames = []
       end.
Proof.
  intros Hid. cbv zeta. unfold mbind.
  destruct (coerce_spec resp (request_id line) st) as [W H].
  destruct (coerceToValidResponseForClient resp (request_id line) st)
    as [[safe|e] st1]; simpl in *.
  - destruct H as (i & k & body & -> & Hk & Hi).
    assert (R : is_response (addressed net line) (response i k body)).
    { exists i, k, body. repeat split; auto.
      destruct Hi as [-> | [-> Hn]].
      - left. apply request_id_nullish.
      - right. now rewrite Hid in *. }
    assert (S : sendResponse (response i k body) st1
                = (Normal tt, wrote (response i k body) st1)).
    { destruct Hk as [-> | ->];
        [apply sendResponse_result | apply sendResponse_error]. }
    rewrite S. simpl.
    destruct W as [-> | (m & p & ->)].
    + exists [response i k body]. split; [reflexivity|]. left. eauto.
    + exists [notification m p; response i k body]. simpl.
      rewrite <- app_assoc. split; [reflexivity|].
      right; left. exists (notification m p), (response i k body).
      repeat split; auto. now exists m, p.
  - exists []. rewrite H, app_nil_r. auto.
Qed.

Lemma set_result_keeps_id ps r :
  get_own (Obj (set_prop (lit "result") r ps)) (lit "id") = get_own (Obj ps) (lit "id").
Proof. simpl. now rewrite lookup_set_prop_other by reflexivity. Qed.

Lemma request_trace_one st st1 k body :
  (k = "result"%string \/ k = "error"%string) ->
  stdout st1 = stdout st ->
  request_trace net line (Normal tt, wrote (response (request_id line) k body) st1) st.
Proof.
  intros Hk E. exists [response (request_id line) k body]. simpl. rewrite E.
  split; [reflexivity|]. left. eexists. split; [reflexivity|].
  now apply response_to_request.
Qed.

Lemma request_trace_answer resp st st1 :
  get_own resp (lit "id") = get_own (remote_payload net line) (lit "id") ->
  stdout st1 = stdout st ->
  request_trace net line
    ((safe <- coerceToValidResponseForClient resp (request_id line) ;;
      sendResponse safe)%io st1) st.
Proof.
  intros Hid E. destruct (answer_trace resp st1 Hid) as (frames & S & H).
  exists frames. rewrite <- E. split; [exact S|].
  destruct (fst _); auto.
Qed.

Lemma handle_other_trace msg st :
  JSON.parse line = Normal msg ->
  request_trace net line (handle_other net msg (request_id line) st) st.
Proof.
  intros Hp.
  pose proof (remote_payload_parsed net line msg Hp) as Hr.
  destruct (remote_payload net line) as [| | | | | |ps] eqn:R.
  7:{ symmetry in Hr. rewrite (handle_other_object net msg _ st ps Hr). cbv zeta.
      destruct (truthy _ && is_array _).
      - destruct (repairToolsInInitializeResult _) as [r'|e].
        + apply request_trace_answer; [rewrite R; apply set_result_keeps_id | reflexivity].
        + exists []. simpl. rewrite app_nil_r. auto.
      - apply request_trace_answer; [now rewrite R | reflexivity]. }
  all: symmetry in Hr;
    rewrite (handle_other_non_object net msg _ st _ Hr) by discriminate;
    rewrite request_id_nullish; apply request_trace_one; auto.
Qed.

Lemma handle_initialize_trace msg st :
  JSON.parse line = Normal msg ->
  request_trace net line (handle_initialize net msg (request_id line) st) st.
Proof.
  intros Hp.
  pose proof (remote_payload_parsed net line msg Hp) as Hr. symmetry in Hr.
  assert (U : truthy (if truthy (remote_payload net line)
                      then get_own (remote_payload net line) (lit "result")
                      else remote_payload net line) = false ->
              truthy (if truthy (remote_payload net line)
                      then get_own (remote_payload net line) (lit "error")
                      else remote_payload net line) = false ->
              request_trace net line (handle_initialize net msg (request_id line) st) st).
  { intros T1 T2.
    rewrite (handle_initialize_unexpected net msg _ st _ Hr T1 T2).
    exists [local_initialize (request_id line)]. split; [reflexivity|].
    left. eexists. split; [reflexivity | apply local_initialize_response]. }
  destruct (remote_payload net line) as [| | | | | |ps] eqn:R.
  7:{ destruct (truthy (get_own (Obj ps) (lit "result"))) eqn:T1.
      - rewrite (handle_initialize_object net msg _ st ps Hr T1). cbv zeta.
        destruct (repairToolsInInitializeResult _) as [r'|e].
        + apply request_trace_answer; [rewrite R; apply set_result_keeps_id | reflexivity].
        + exists []. simpl. rewrite app_nil_r. auto.
      - destruct (truthy (get_own (Obj ps) (lit "error"))) eqn:T2.
        + rewrite (handle_initialize_failed net msg _ st _ Hr T1 T2). cbv zeta.
          destruct (ToString _) as [text|e].
          * exists [local_initialize (request_id line); initialize_warning text].
            simpl. rewrite <- app_assoc. split; [reflexivity|].
            right; right. eexists _, _. split; [reflexivity|].
            split; [apply local_initialize_response|]. eexists _, _. reflexivity.
          * exists [local_initialize (request_id line)]. simpl. auto.
        + apply U; simpl; assumption. }
  all: apply U;
    [apply (and_field_non_object _ "result") | apply (and_field_non_object _ "error")];
    (reflexivity || (intros ?; discriminate)).
Qed.

End Answers.

Section Traces.

Variables (net : network) (line : jstr) (st : state).

Lemma handleMessage_trace msg :
  JSON.parse line = Normal msg -> has_method msg = true ->
  request_trace net line (handleMessage net line st) st.
Proof.
  intros Hp Hm. pose proof (handleMessage_cases net line st) as H.
  rewrite Hp, Hm in H. rewrite H. destruct (is_initialize line).
  - now apply handle_initialize_trace.
  - now apply handle_other_trace.
Qed.

Lemma invalid_request_answers :
  answered_by net line [invalid_request (request_id line)].
Proof. left. eexists. split; [reflexivity|]. apply response_to_request. now right. Qed.

End Traces.

Section Printable.

Lemma printable_app a b : printable (a ++ b) = printable a && printable b.
Proof. apply forallb_app. Qed.

Lemma printable_cons c s : printable (c :: s) = (32 <=? c)%N && printable s.
Proof. reflexivity. Qed.

Lemma printable_digits s : forallb is_digit s = true -> printable s = true.
Proof.
  unfold printable. rewrite !forallb_forall. intros H c Hc.
  specialize (H c Hc). unfold is_digit in H.
  apply andb_prop in H as [H _]. apply N.leb_le in H. apply N.leb_le. lia.
Qed.

Lemma printable_firstn n s : printable s = true -> printable (firstn n s) = true.
Proof. apply forallb_firstn. Qed.

Lemma printable_skipn n s : printable s = true -> printable (skipn n s) = true.
Proof.
  intros H. rewrite <- (firstn_skipn n s), printable_app in H.
  now apply andb_prop in H.
Qed.

Lemma printable_repeat c n : (32 <=? c)%N = true -> printable (repeat c n) = true.
Proof. intros H. induction n; simpl; [reflexivity|]. now rewrite H. Qed.

Lemma printable_decimal n : printable (decimal n) = true.
Proof. apply printable_digits, decimal_digits. Qed.

Lemma printable_number x : printable (Number_toString x) = true.
Proof.
  destruct x as [|[|]|neg m e]; try reflexivity.
  unfold Number_toString.
  destruct (normal neg m e) as [|[|]|neg' s e']; try reflexivity.
  destruct (s =? 0)%N; [reflexivity|].
  cbv zeta. rewrite printable_app.
  apply andb_true_intro. split; [now destruct neg|].
  pose proof (printable_decimal s) as D.
  repeat match goal with
         | |- printable (if ?c then _ else _) = true => destruct c
         end.
  - rewrite printable_app, D. now apply printable_repeat.
  - rewrite !printable_app, printable_firstn, printable_skipn by exact D. reflexivity.
  - rewrite !printable_app, D, printable_repeat by reflexivity. reflexivity.
  - assert (X : forall b : bool, printable (if b then lit "-" else lit "+") = true)
      by (now intros [|]).
    destruct (decimal s) as [|d [|d' rest]] eqn:Ed; [reflexivity| |].
    + rewrite !printable_app, X, printable_decimal. simpl in D. simpl. now rewrite D.
    + rewrite !printable_app, X, printable_decimal.
      change (d :: d' :: rest) with ([d] ++ d' :: rest) in D.
      rewrite printable_app in D. apply andb_prop in D as [D1 D2].
      now rewrite D1, D2.
Qed.

Lemma printable_hex d : (32 <=? JSON.hex_digit d)%N = true.
Proof. unfold JSON.hex_digit. destruct (d <? 10)%N; apply N.leb_le; lia. Qed.

Lemma printable_quote_unit c : printable (JSON.quote_unit c) = true.
Proof.
  unfold JSON.quote_unit.
  repeat match goal with
         | |- printable (if ?b then _ else _) = true => destruct b eqn:?
         end; try reflexivity.
  - simpl. now rewrite !printable_hex.
  - simpl. now rewrite !printable_hex.
  - simpl. rewrite andb_true_r. apply N.ltb_ge in Heqb6. now apply N.leb_le.
Qed.

Lemma printable_quote_units : forall n s,
  length s <= n -> printable (JSON.quote_units s) = true.
Proof.
  induction n as [|n IH]; intros [|c [|c2 t]] H; simpl in H; try lia;
    try reflexivity.
  - apply printable_quote_unit.
  - change (JSON.quote_units (c :: c2 :: t))
      with (if JSON.is_high_surrogate c && JSON.is_low_surrogate c2
            then c :: c2 :: JSON.quote_units t
            else JSON.quote_unit c ++ JSON.quote_units (c2 :: t)).
    destruct (JSON.is_high_surrogate c && JSON.is_low_surrogate c2) eqn:E.
    + apply andb_prop in E as [E1 E2].
      unfold JSON.is_high_surrogate in E1. unfold JSON.is_low_surrogate in E2.
      apply andb_prop in E1 as [E1 _]. apply andb_prop in E2 as [E2 _].
      apply N.leb_le in E1, E2.
      change (printable (c :: c2 :: JSON.quote_units t))
        with ((32 <=? c)%N && ((32 <=? c2)%N && printable (JSON.quote_units t))).
      rewrite IH by lia.
      rewrite (proj2 (N.leb_le 32 c)), (proj2 (N.leb_le 32 c2)) by lia. reflexivity.
    + rewrite printable_app, printable_quote_unit. apply IH. simpl in *. lia.
Qed.

Lemma printable_quote s : printable (JSON.quote s) = true.
Proof.
  unfold JSON.quote. rewrite !printable_app.
  now rewrite (printable_quote_units (length s) s (le_n _)).
Qed.

(** The text of a value has no control character. *)
Lemma printable_stringify : forall v s,
  JSON.stringify v = Some s -> printable s = true.
Proof.
  induction v as [| |b|n|str|l IH|ps IH] using value_induction; intros s;
    cbn [JSON.stringify].
  - discriminate.
  - intros E; injection E as <-. reflexivity.
  - destruct b; intros E; injection E as <-; reflexivity.
  - intros E; injection E as <-.
    destruct (is_finite n); [apply printable_number | reflexivity].
  - intros E; injection E as <-. apply printable_quote.
  - intros E; injection E as <-.
    rewrite printable_cons, printable_app.
    change (printable (lit "]")) with true. rewrite andb_true_r.
    change (32 <=? 91)%N with true. cbn [andb].
    match goal with
    | |- printable (?f true l) = true =>
        enough (I : forall first, printable (f first l) = true) by apply I
    end.
    induction IH as [|x t Hx Ht IHt]; intros first; [reflexivity|].
    rewrite !printable_app, IHt, andb_true_r.
    apply andb_true_intro. split; [now destruct first|].
    destruct (JSON.stringify x) as [sx|]; [now apply Hx | reflexivity].
  - intros E; injection E as <-.
    rewrite printable_cons, printable_app.
    change (printable (lit "}")) with true. rewrite andb_true_r.
    change (32 <=? 123)%N with true. cbn [andb].
    match goal with
    | |- printable (?f true ps) = true =>
        enough (I : forall first, printable (f first ps) = true) by apply I
    end.
    induction IH as [|[k x] t Hx Ht IHt]; intros first; [reflexivity|].
    cbn [snd] in Hx. destruct (JSON.stringify x) as [sx|]; [|apply IHt].
    repeat (rewrite printable_app || rewrite printable_cons).
    rewrite IHt, (Hx sx eq_refl),
      (printable_quote_units (length k) k (le_n _)).
    now destruct first.
Qed.

Lemma printable_frame obj : printable (frame_text obj) = true.
Proof.
  unfold frame_text. destruct (JSON.stringify obj) as [s|] eqn:E; [|reflexivity].
  now apply (printable_stringify obj).
Qed.

Lemma split_lf_from_line : forall a cur rest,
  printable a = true ->
  split_lf_from cur (a ++ 10%N :: rest) = (rev cur ++ a) :: split_lf rest.
Proof.
  induction a as [|c a IH]; intros cur rest H; simpl.
  - now rewrite app_nil_r.
  - simpl in H. apply andb_prop in H as [Hc Ha].
    assert (E : (c =? 10)%N = false).
    { apply N.eqb_neq. apply N.leb_le in Hc. lia. }
    rewrite E, IH by exact Ha. simpl. now rewrite <- app_assoc.
Qed.

End Printable.

Section NameFacts.

Lemma replace_disallowed_fixed_inv s :
  replace_disallowed s = s -> forallb allowed s = true.
Proof.
  induction s as [|c s IH]; simpl; [reflexivity|].
  intros E. injection E as Ec Es. rewrite (IH Es), andb_true_r.
  destruct (allowed c) eqn:A; [reflexivity|]. now subst c.
Qed.

Lemma Normal_inj {A} (a b : A) : Normal a = Normal b -> a = b.
Proof. intros E. now injection E. Qed.

Lemma replace_disallowed_length s : length (replace_disallowed s) = length s.
Proof. apply length_map. Qed.

Lemma cleaned_not_nil s :
  s <> [] -> JNum.is_nil (firstn 64 (replace_disallowed s)) = false.
Proof. destruct s; [congruence | reflexivity]. Qed.

End NameFacts.

Section RepairedNames.

Lemma sanitized_valid i s :
  (N.of_nat i < array_limit)%N -> valid_name (sanitized i s).
Proof.
  intros Hi. split; [|split].
  - intros E. pose proof (sanitized_not_nil i s) as N. now rewrite E in N.
  - now apply sanitized_length.
  - apply sanitized_allowed.
Qed.

Lemma repair_tool_entry i t t' :
  (N.of_nat i < array_limit)%N ->
  repair_tool i t = Normal t' -> repaired_entry t'.
Proof.
  intros Hi. destruct (is_object t) eqn:O.
  - rewrite (repair_tool_object i _ O).
    destruct (ToString _) as [s|e]; simpl; [|discriminate].
    intros E; injection E as <-. right.
    exists (set_prop (lit "name") (Str (sanitized i s)) (spread t)), (sanitized i s).
    split; [reflexivity|]. split; [apply lookup_set_prop | now apply sanitized_valid].
  - rewrite (repair_tool_other i _ O). intros E; injection E as <-. now left.
Qed.

Lemma map_from_entries : forall l i l',
  (N.of_nat (i + length l) <= array_limit)%N ->
  map_from repair_tool i l = Normal l' -> Forall repaired_entry l'.
Proof.
  induction l as [|t l IH]; intros i l' Hi; simpl.
  - intros E; injection E as <-. constructor.
  - destruct (repair_tool i t) as [t'|] eqn:Et; simpl; [|discriminate].
    destruct (map_from repair_tool (S i) l) as [r|] eqn:Er; simpl; [|discriminate].
    intros E; injection E as <-. constructor.
    + apply (repair_tool_entry i t); [simpl in Hi; lia | exact Et].
    + apply (IH (S i)); [simpl in Hi; lia | exact Er].
Qed.

End RepairedNames.

Section NormalizedErrors.

Lemma normalize_shape err out :
  normalizeRemoteError err = Normal out -> normalized out.
Proof.
  unfold normalizeRemoteError. rewrite not_object_test.
  destruct (is_object err) eqn:O; simpl negb; cbv iota.
  - rewrite !(get_object err _ O). cbn [bind].
    destruct (ToNumber _) as [c|]; cbn [bind]; [|discriminate].
    destruct (ToString _) as [m|]; cbn [bind]; [|discriminate].
    intros E; injection E as <-. exists c, m.
    destruct (get_own err (lit "data")) eqn:D; simpl; auto;
      right; eexists; (split; [|reflexivity]); discriminate.
  - destruct (ToString _) as [m|]; cbn [bind]; [|discriminate].
    intros E; injection E as <-. exists (of_Z (-32000)), m. now left.
Qed.

Lemma normalize_normalized out :
  normalized out -> normalizeRemoteError out = Normal out.
Proof.
  intros (c & m & [-> | (d & Hd & ->)]); [reflexivity|].
  unfold normalizeRemoteError. simpl.
  destruct d; try reflexivity. congruence.
Qed.

End NormalizedErrors.

Section Reconciled.

Lemma nullish_fallback x fb :
  nullish (nullish x (nullish fb Null)) (nullish fb Null)
  = nullish x (nullish fb Null).
Proof. destruct x, fb; reflexivity. Qed.

Lemma nullish_fallback_only fb :
  nullish (nullish fb Null) (nullish fb Null) = nullish fb Null.
Proof. destruct fb; reflexivity. Qed.

(** The reconciler gives a result frame back... *)
Lemma coerce_result_frame i body fb st :
  nullish i (nullish fb Null) = i ->
  coerceToValidResponseForClient (response i "result" body) fb st
  = (Normal (response i "result" body), st).
Proof.
  intros Hi. unfold response. rewrite coerce_object. cbv zeta.
  simpl. now rewrite Hi.
Qed.

(** ... and an error frame whose error is normalised. *)
Lemma coerce_error_frame i body fb st :
  nullish i (nullish fb Null) = i ->
  normalized body ->
  coerceToValidResponseForClient (response i "error" body) fb st
  = (Normal (response i "error" body), st).
Proof.
  intros Hi Hb. unfold response. rewrite coerce_object. cbv zeta.
  change (has_key (lit "method") _) with false. cbn [andb].
  change (get_own (Obj _) (lit "error")) with body.
  change (get_own (Obj _) (lit "id")) with i.
  assert (N : is_nullish body = false).
  { destruct Hb as (c & m & [-> | (d & _ & ->)]); reflexivity. }
  rewrite N, (normalize_normalized body Hb), Hi. reflexivity.
Qed.

Lemma makeError_normalized code message :
  normalized (Obj [(lit "code", Num (of_Z code)); (lit "message", Str message)]).
Proof. exists (of_Z code), message. now left. Qed.

End Reconciled.

Section Occurrences.

Lemma occurs_refl a : occurs a a.
Proof. exists [], []. now rewrite app_nil_r. Qed.

Lemma occurs_trans a b c : occurs a b -> occurs b c -> occurs a c.
Proof.
  intros (p1 & q1 & ->) (p2 & q2 & ->).
  exists (p2 ++ p1), (q1 ++ q2). now rewrite !app_assoc.
Qed.

Lemma occurs_cons a b c : occurs a b -> occurs a (c :: b).
Proof. intros (p & q & ->). now exists (c :: p), q. Qed.

Lemma starts_with_prefix : forall pat s,
  starts_with pat s = true -> exists post, s = pat ++ post.
Proof.
  induction pat as [|p pat IH]; intros s; simpl.
  - intros _. now exists s.
  - destruct s as [|c s]; [discriminate|].
    intros H. apply andb_prop in H as [E H]. apply N.eqb_eq in E. subst c.
    destruct (IH s H) as [post ->]. now exists post.
Qed.

Lemma prefix_starts_with : forall pat post, starts_with pat (pat ++ post) = true.
Proof.
  induction pat as [|p pat IH]; intros post; simpl; [reflexivity|].
  now rewrite N.eqb_refl, IH.
Qed.

Lemma starts_with_includes pat s :
  starts_with pat s = true -> includes pat s = true.
Proof. intros H. destruct s; simpl; now rewrite H. Qed.

Lemma occurs_includes pat : forall s, occurs pat s -> includes pat s = true.
Proof.
  intros s (pre & post & ->). induction pre as [|c pre IH].
  - change ([] ++ pat ++ post) with (pat ++ post).
    apply starts_with_includes, prefix_starts_with.
  - simpl. rewrite IH. apply orb_true_r.
Qed.

Lemma trim_start_occurs : forall s, occurs (trim_start s) s.
Proof.
  induction s as [|c s IH]; simpl; [apply occurs_refl|].
  destruct (is_ws c); [now apply occurs_cons | apply occurs_refl].
Qed.

Lemma occurs_rev a b : occurs a b -> occurs (rev a) (rev b).
Proof.
  intros (p & q & ->). exists (rev q), (rev p).
  now rewrite !rev_app_distr, app_assoc.
Qed.

Lemma trim_occurs s : occurs (trim s) s.
Proof.
  unfold trim. eapply occurs_trans; [|apply trim_start_occurs].
  rewrite <- (rev_involutive (trim_start s)) at 2.
  apply occurs_rev, trim_start_occurs.
Qed.

Lemma split_lf_from_occurs : forall s cur x,
  In x (split_lf_from cur s) -> occurs x (rev cur ++ s).
Proof.
  induction s as [|c s IH]; intros cur x; simpl.
  - intros [<- | []]. rewrite app_nil_r. apply occurs_refl.
  - destruct (c =? 10)%N.
    + intros [<- | H].
      * exists [], (c :: s). reflexivity.
      * apply (IH [] x) in H. simpl in H.
        destruct H as (p & q & ->). exists (rev cur ++ c :: p), q.
        now rewrite <- app_assoc.
    + intros H. apply IH in H. simpl in H. now rewrite <- app_assoc in H.
Qed.

Lemma split_lf_occurs s x : In x (split_lf s) -> occurs x s.
Proof. apply (split_lf_from_occurs s []). Qed.

Lemma split_blank_from_occurs : forall n s cur x,
  length s <= n ->
  In x (split_blank_from cur s) -> occurs x (rev cur ++ s).
Proof.
  induction n as [|n IH]; intros s cur x Hn.
  - destruct s; [|simpl in Hn; lia]. simpl.
    intros [<- | []]. rewrite app_nil_r. apply occurs_refl.
  - destruct s as [|c [|c2 t2]]; simpl.
    + intros [<- | []]. rewrite app_nil_r. apply occurs_refl.
    + intros [<- | []]. apply occurs_refl.
    + destruct ((c =? 10)%N && (c2 =? 10)%N).
      * intros [<- | H].
        -- exists [], (c :: c2 :: t2). reflexivity.
        -- apply (IH t2 [] x) in H; [|simpl in Hn; lia]. simpl in H.
           destruct H as (p & q & ->). exists (rev cur ++ c :: c2 :: p), q.
           now rewrite <- app_assoc.
      * intros H. apply (IH (c2 :: t2) (c :: cur) x) in H; [|simpl in *; lia].
        simpl in H. now rewrite <- app_assoc in H.
Qed.

Lemma split_blank_occurs s x : In x (split_blank s) -> occurs x s.
Proof. apply (split_blank_from_occurs (length s) s [] x (le_n _)). Qed.

End Occurrences.

Section Scan.

Lemma scan_lines_none lines :
  (forall l, In l lines -> starts_with (lit "data:") l = false) ->
  forall last, scan_lines last lines = last.
Proof.
  unfold scan_lines. induction lines as [|l lines IH]; intros H last; [reflexivity|].
  cbn [fold_left]. rewrite (H l (or_introl eq_refl)). apply IH.
  intros l' Hl'. apply H. now right.
Qed.

Lemma scan_chunks_none text :
  includes (lit "data:") text = false -> scan_chunks text = None.
Proof.
  intros H. unfold scan_chunks.
  set (chunks := filter _ _).
  assert (C : forall c, In c chunks -> occurs c text).
  { intros c Hc. apply filter_In in Hc as [Hc _].
    apply in_map_iff in Hc as (c0 & <- & Hc0).
    eapply occurs_trans; [apply trim_occurs | now apply split_blank_occurs]. }
  clearbody chunks.
  assert (G : forall last, fold_left (fun last chunk => scan_lines last (split_lf chunk))
                             chunks last = last).
  { induction chunks as [|c chunks IH]; intros last; [reflexivity|]. simpl.
    rewrite scan_lines_none.
    - apply IH. intros c' Hc'. apply C. now right.
    - intros l Hl. destruct (starts_with (lit "data:") l) eqn:S; [|reflexivity].
      exfalso. apply starts_with_prefix in S as [post ->].
      assert (O : occurs (lit "data:") text).
      { eapply occurs_trans; [|apply (C c (or_introl eq_refl))].
        eapply occurs_trans; [|apply (split_lf_occurs _ _ Hl)].
        now exists [], post. }
      apply occurs_includes in O. congruence. }
  apply G.
Qed.

End Scan.

Section Trimming.

Lemma trim_start_app_ws : forall a b,
  forallb is_ws a = true -> trim_start (a ++ b) = trim_start b.
Proof.
  induction a as [|c a IH]; intros b; simpl; [reflexivity|].
  intros H. apply andb_prop in H as [Hc Ha]. rewrite Hc. now apply IH.
Qed.

Lemma trim_start_app : forall a b,
  trim_start a <> [] -> trim_start (a ++ b) = trim_start a ++ b.
Proof.
  induction a as [|c a IH]; intros b; simpl; [congruence|].
  destruct (is_ws c); [apply IH | reflexivity].
Qed.

Lemma trim_start_blank s : forallb is_ws s = true -> trim_start s = [].
Proof.
  intros H. rewrite <- (app_nil_r s). now rewrite trim_start_app_ws.
Qed.

Lemma trim_start_split : forall s,
  exists a, s = a ++ trim_start s /\ forallb is_ws a = true.
Proof.
  induction s as [|c s (a & E & W)]; simpl.
  - now exists [].
  - destruct (is_ws c) eqn:C.
    + exists (c :: a). simpl. rewrite C, W. split; [congruence | reflexivity].
    + now exists [].
Qed.

Lemma trim_start_head : forall s c t, trim_start s = c :: t -> is_ws c = false.
Proof.
  induction s as [|x s IH]; intros c t; simpl; [discriminate|].
  destruct (is_ws x) eqn:X; [apply IH|]. intros E; injection E as <- _. exact X.
Qed.

Lemma trim_start_idem s : trim_start (trim_start s) = trim_start s.
Proof.
  destruct (trim_start s) as [|c t] eqn:E; [reflexivity|].
  simpl. now rewrite (trim_start_head _ _ _ E).
Qed.

Lemma trim_end_nil s : trim_end s = [] -> forallb is_ws s = true.
Proof.
  unfold trim_end. intros H.
  assert (E : trim_start (rev s) = []).
  { destruct (trim_start (rev s)) as [|c l]; [reflexivity|].
    simpl in H. now destruct (rev l). }
  apply trim_start_nil in E. now rewrite forallb_rev in E.
Qed.

Lemma trim_end_blank s : forallb is_ws s = true -> trim_end s = [].
Proof.
  intros H. unfold trim_end. rewrite trim_start_blank; [reflexivity|].
  now rewrite forallb_rev.
Qed.

Lemma trim_end_app_ws a w :
  forallb is_ws w = true -> trim_end (a ++ w) = trim_end a.
Proof.
  intros H. unfold trim_end. rewrite rev_app_distr, trim_start_app_ws; [reflexivity|].
  now rewrite forallb_rev.
Qed.

Lemma trim_end_app a b : trim_end b <> [] -> trim_end (a ++ b) = a ++ trim_end b.
Proof.
  intros H. unfold trim_end in *. rewrite rev_app_distr, trim_start_app.
  - now rewrite rev_app_distr, rev_involutive.
  - intros E. rewrite E in H. now apply H.
Qed.

Lemma trim_end_split s : exists w, s = trim_end s ++ w /\ forallb is_ws w = true.
Proof.
  destruct (trim_start_split (rev s)) as (a & E & W).
  exists (rev a). split.
  - unfold trim_end. rewrite <- rev_app_distr, <- E. now rewrite rev_involutive.
  - now rewrite forallb_rev.
Qed.

Lemma trim_end_idem s : trim_end (trim_end s) = trim_end s.
Proof. unfold trim_end. now rewrite rev_involutive, trim_start_idem. Qed.

Lemma trim_is s : trim s = trim_end (trim_start s).
Proof. reflexivity. Qed.

Lemma trim_end_head c t : is_ws c = false -> exists t', trim_end (c :: t) = c :: t'.
Proof.
  intros C. destruct (trim_end t) as [|d t'] eqn:E.
  - exists []. change (c :: t) with ([c] ++ t).
    rewrite trim_end_app_ws by (now apply trim_end_nil).
    unfold trim_end. simpl. now rewrite C.
  - exists (d :: t'). change (c :: t) with ([c] ++ t).
    rewrite trim_end_app by (rewrite E; discriminate). now rewrite E.
Qed.

Lemma trim_commute s : trim_start (trim_end s) = trim_end (trim_start s).
Proof.
  destruct (trim_start_split s) as (a & E & W).
  destruct (trim_start s) as [|c t] eqn:T.
  - rewrite app_nil_r in E. subst a. now rewrite trim_end_blank.
  - pose proof (trim_start_head _ _ _ T) as C.
    destruct (trim_end_head c t C) as [t' E'].
    rewrite E at 1. rewrite trim_end_app by (rewrite E'; discriminate).
    rewrite trim_start_app_ws by exact W.
    rewrite E'. simpl. now rewrite C.
Qed.

Lemma trim_trim_end s : trim (trim_end s) = trim s.
Proof. now rewrite !trim_is, trim_commute, trim_end_idem. Qed.

Lemma trim_not_nil s : trim s <> [] -> trim_start s <> [] /\ trim_end s <> [].
Proof.
  intros H. split.
  - intros E. apply H. now rewrite trim_is, E.
  - intros E. apply H. rewrite trim_is.
    apply trim_end_nil in E. now rewrite trim_start_blank.
Qed.

End Trimming.

Section LastLine.

Lemma one_line_app a b : one_line (a ++ b) = one_line a && one_line b.
Proof. apply forallb_app. Qed.

Lemma split_lf_from_one_line : forall s cur,
  one_line s = true -> split_lf_from cur s = [rev cur ++ s].
Proof.
  induction s as [|c s IH]; intros cur; simpl.
  - now rewrite app_nil_r.
  - intros H. apply andb_prop in H as [Hc Hs].
    apply negb_true_iff in Hc. rewrite Hc, IH by exact Hs.
    simpl. now rewrite <- app_assoc.
Qed.

Lemma split_lf_from_app : forall a cur b,
  split_lf_from cur (a ++ 10%N :: b) = split_lf_from cur a ++ split_lf b.
Proof.
  induction a as [|c a IH]; intros cur b; simpl; [reflexivity|].
  destruct (c =? 10)%N; simpl; now rewrite IH.
Qed.

Lemma split_blank_from_step cur c c2 t :
  split_blank_from cur (c :: c2 :: t)
  = if (c =? 10)%N && (c2 =? 10)%N then rev cur :: split_blank_from [] t
    else split_blank_from (c :: cur) (c2 :: t).
Proof. reflexivity. Qed.

(** The chunks of a blank text are blank. *)
Lemma split_blank_from_blank : forall n w cur,
  length w <= n -> blank w = true ->
  exists w1 rest,
    split_blank_from cur w = (rev cur ++ w1) :: rest
    /\ blank w1 = true /\ Forall (fun c => blank c = true) rest.
Proof.
  induction n as [|n IH]; intros w cur Hn Hw.
  - destruct w; [|simpl in Hn; lia]. exists [], []. simpl.
    rewrite app_nil_r. repeat split; auto.
  - destruct w as [|c [|c2 t]].
    + exists [], []. simpl. rewrite app_nil_r. repeat split; auto.
    + exists [c], []. simpl. repeat split; auto.
    + rewrite split_blank_from_step.
      simpl in Hw. apply andb_prop in Hw as [Hc Hw].
      destruct ((c =? 10)%N && (c2 =? 10)%N).
      * apply andb_prop in Hw as [_ Ht].
        destruct (IH t []) as (w1 & rest & E & W1 & R); [simpl in Hn; lia | exact Ht|].
        exists [], ((rev [] ++ w1) :: rest). rewrite E, app_nil_r.
        repeat split; auto.
      * destruct (IH (c2 :: t) (c :: cur)) as (w1 & rest & E & W1 & R);
          [simpl in *; lia | exact Hw|].
        exists (c :: w1), rest. rewrite E. simpl. rewrite <- app_assoc.
        repeat split; auto.
        change (blank (c :: w1)) with (is_ws c && blank w1). now rewrite Hc, W1.
Qed.

(** A line followed by white space: the line is in the first chunk, and
    the other chunks are blank. *)
Lemma split_blank_from_line : forall l w cur,
  one_line l = true -> blank w = true ->
  exists w1 rest,
    split_blank_from cur (l ++ w) = (rev cur ++ l ++ w1) :: rest
    /\ blank w1 = true /\ Forall (fun c => blank c = true) rest.
Proof.
  induction l as [|c l IH]; intros w cur Hl Hw.
  - apply (split_blank_from_blank (length w) w cur (le_n _) Hw).
  - simpl in Hl. apply andb_prop in Hl as [Hc Hl]. apply negb_true_iff in Hc.
    destruct (IH w (c :: cur) Hl Hw) as (w1 & rest & E & W1 & R).
    exists w1, rest. split; [|auto].
    simpl app. destruct (l ++ w) as [|c2 t] eqn:T.
    + change (split_blank_from cur [c]) with (split_blank_from (c :: cur) []).
      rewrite E. simpl. now rewrite <- app_assoc.
    + rewrite split_blank_from_step, Hc. simpl andb. cbv iota.
      rewrite E. simpl. now rewrite <- app_assoc.
Qed.

(** The last chunks of a text that ends in a line [l] of its own and
    white space. *)
Lemma split_blank_last_line l w :
  one_line l = true -> l <> [] -> blank w = true ->
  forall n pre cur, length pre <= n ->
  exists init x w1 rest,
    split_blank_from cur (pre ++ 10%N :: l ++ w) = init ++ [x ++ l ++ w1] ++ rest
    /\ (x = [] \/ exists y, x = y ++ [10%N])
    /\ blank w1 = true /\ Forall (fun c => blank c = true) rest.
Proof.
  intros Hl Hne Hw. destruct l as [|d l']; [congruence|].
  assert (Hd : (d =? 10)%N = false).
  { simpl in Hl. apply andb_prop in Hl as [Hd _]. now apply negb_true_iff in Hd. }
  assert (L : forall cur, exists w1 rest,
             split_blank_from cur (d :: l' ++ w) = (rev cur ++ d :: l' ++ w1) :: rest
             /\ blank w1 = true /\ Forall (fun c => blank c = true) rest).
  { intros cur. apply (split_blank_from_line (d :: l') w cur Hl Hw). }
  simpl app.
  induction n as [|n IH]; intros pre cur Hn.
  - destruct pre; [|simpl in Hn; lia].
    destruct (L (10%N :: cur)) as (w1 & rest & E & W1 & R).
    exists [], (rev cur ++ [10%N]), w1, rest.
    split; [|split; [right; now exists (rev cur) | auto]].
    simpl app. rewrite split_blank_from_step, Hd, andb_false_r.
    rewrite E. simpl. now rewrite <- !app_assoc.
  - destruct pre as [|c pre].
    { apply (IH [] cur). simpl. lia. }
    destruct pre as [|c2 pre2].
    + simpl app. rewrite split_blank_from_step.
      destruct ((c =? 10)%N && (10 =? 10)%N) eqn:E.
      * destruct (L []) as (w1 & rest & E' & W1 & R).
        exists [rev cur], [], w1, rest.
        split; [|split; [now left | auto]].
        rewrite E'. reflexivity.
      * destruct (IH [] (c :: cur)) as (init & x & w1 & rest & S & X); [simpl; lia|].
        exists init, x, w1, rest. split; [exact S | exact X].
    + simpl app. rewrite split_blank_from_step.
      destruct ((c =? 10)%N && (c2 =? 10)%N).
      * destruct (IH pre2 []) as (init & x & w1 & rest & S & X); [simpl in Hn; lia|].
        exists (rev cur :: init), x, w1, rest. split; [|exact X].
        simpl. now rewrite S.
      * destruct (IH (c2 :: pre2) (c :: cur)) as (init & x & w1 & rest & S & X);
          [simpl in *; lia|].
        exists init, x, w1, rest. split; [exact S | exact X].
Qed.

End LastLine.

Section LastData.

Lemma trim_blank s : blank s = true -> trim s = [].
Proof. intros H. rewrite trim_is, trim_start_blank; [reflexivity | exact H]. Qed.

Lemma trim_app_blank a w : blank w = true -> trim (a ++ w) = trim a.
Proof.
  intros H. rewrite !trim_is.
  destruct (trim_start a) as [|c t] eqn:T.
  - apply trim_start_nil in T. rewrite trim_start_app_ws by exact T.
    now rewrite trim_start_blank.
  - rewrite trim_start_app by (rewrite T; discriminate).
    rewrite T. now apply trim_end_app_ws.
Qed.

Lemma blank_chunks_dropped (rest : list jstr) :
  Forall (fun c => blank c = true) rest ->
  filter (fun c => negb (JNum.is_nil c)) (List.map trim rest) = [].
Proof.
  induction 1 as [|c rest Hc _ IH]; [reflexivity|].
  simpl. now rewrite (trim_blank c Hc).
Qed.

Lemma trim_chunk x p :
  (x = [] \/ exists y, x = y ++ [10%N]) -> trim p <> [] ->
  exists x',
    trim (x ++ lit "data:" ++ p) = x' ++ lit "data:" ++ trim_end p
    /\ (x' = [] \/ exists y', x' = y' ++ [10%N]).
Proof.
  intros Hx Hp. apply trim_not_nil in Hp as [_ Hp].
  assert (S : exists x', trim_start (x ++ lit "data:" ++ p) = x' ++ lit "data:" ++ p
                         /\ (x' = [] \/ exists y', x' = y' ++ [10%N])).
  { destruct (trim_start x) as [|c t] eqn:T.
    - exists []. split; [|now left].
      apply trim_start_nil in T. now rewrite trim_start_app_ws.
    - exists (c :: t). split.
      + rewrite trim_start_app by (rewrite T; discriminate). now rewrite T.
      + right. destruct Hx as [-> | [y ->]]; [discriminate|].
        destruct (trim_start y) as [|c' t'] eqn:Ty.
        * apply trim_start_nil in Ty.
          rewrite trim_start_app_ws in T by exact Ty. discriminate.
        * rewrite trim_start_app in T by (rewrite Ty; discriminate).
          rewrite <- T. now exists (trim_start y). }
  destruct S as (x' & S & X). exists x'. split; [|exact X].
  rewrite trim_is, S.
  rewrite (app_assoc x' (lit "data:") p), trim_end_app by exact Hp.
  now rewrite <- app_assoc.
Qed.

Lemma scan_lines_last lines q last :
  trim q <> [] ->
  scan_lines last (lines ++ [lit "data:" ++ q]) = Some (trim q).
Proof.
  intros Hq. unfold scan_lines. rewrite fold_left_app. cbn [fold_left].
  rewrite prefix_starts_with.
  change (skipn 5 (lit "data:" ++ q)) with q.
  destruct (trim q) eqn:E; [now destruct Hq | reflexivity].
Qed.

Lemma split_lf_last x q :
  (x = [] \/ exists y, x = y ++ [10%N]) -> one_line q = true ->
  exists lines, split_lf (x ++ lit "data:" ++ q) = lines ++ [lit "data:" ++ q].
Proof.
  intros Hx Hq.
  assert (O : one_line (lit "data:" ++ q) = true) by (now rewrite one_line_app, Hq).
  destruct Hx as [-> | [y ->]].
  - exists []. rewrite !app_nil_l. unfold split_lf.
    now rewrite (split_lf_from_one_line (lit "data:" ++ q) [] O).
  - exists (split_lf y). rewrite <- app_assoc. unfold split_lf.
    change ([10%N] ++ lit "data:" ++ q) with (10%N :: (lit "data:" ++ q)).
    rewrite split_lf_from_app.
    unfold split_lf.
    now rewrite (split_lf_from_one_line (lit "data:" ++ q) [] O).
Qed.

(** The chunks of a text whose last line that is not blank is a data
    line: the payload of that line is the last one found. *)
Lemma scan_chunks_last (chunks : list jstr) (x p w1 : jstr) (rest : list jstr) :
  (x = [] \/ exists y, x = y ++ [10%N]) ->
  one_line p = true -> trim p <> [] ->
  blank w1 = true -> Forall (fun c => blank c = true) rest ->
  fold_left (fun last chunk => scan_lines last (split_lf chunk))
    (filter (fun c => negb (JNum.is_nil c))
       (List.map trim (chunks ++ [x ++ (lit "data:" ++ p) ++ w1] ++ rest)))
    None
  = Some (trim p).
Proof.
  intros Hx Hl Hp Hw Hrest.
  destruct (trim_chunk x p Hx Hp) as (x' & T & X').
  destruct (trim_end_split p) as (w & Ep & W).
  assert (Hq : one_line (trim_end p) = true).
  { rewrite Ep, one_line_app in Hl. now apply andb_prop in Hl. }
  destruct (split_lf_last x' (trim_end p) X' Hq) as (lines & L).
  rewrite !map_app, !filter_app, !fold_left_app.
  replace (filter (fun c : jstr => negb (JNum.is_nil c))
             (@List.map (list N) jstr trim rest))
    with (@nil jstr) by (symmetry; exact (blank_chunks_dropped rest Hrest)).
  cbn [List.map filter fold_left].
  rewrite (app_assoc x), trim_app_blank by exact Hw.
  rewrite T.
  assert (Hn : negb (JNum.is_nil (x' ++ lit "data:" ++ trim_end p)) = true).
  { destruct x'; reflexivity. }
  rewrite Hn. cbn [fold_left]. rewrite L, scan_lines_last.
  - now rewrite trim_trim_end.
  - now rewrite trim_trim_end.
Qed.

End LastData.

Section Fallback.

Lemma lazy_object_capture : forall s acc capture rest,
  lazy_object acc s = Some (capture, rest) ->
  exists mid, capture = rev acc ++ mid ++ [125%N].
Proof.
  induction s as [|c t IH]; intros acc capture rest; simpl; [discriminate|].
  destruct ((c =? 125)%N && match t with [] => true | n :: _ => (n =? 10)%N end)
    eqn:E.
  - intros H; injection H as <- <-. apply andb_prop in E as [E _].
    apply N.eqb_eq in E. subst c. exists []. reflexivity.
  - intros H. apply IH in H as [mid ->]. exists (c :: mid).
    simpl. now rewrite <- app_assoc.
Qed.

Lemma match_here_braced s capture rest :
  match_here s = Some (capture, rest) -> braced capture.
Proof.
  unfold match_here. destruct (starts_with (lit "data:") s); [|discriminate].
  destruct (trim_start (skipn 5 s)) as [|c t]; [discriminate|].
  destruct (c =? 123)%N eqn:E; [|discriminate]. apply N.eqb_eq in E. subst c.
  intros H. apply lazy_object_capture in H as [mid ->]. now exists mid.
Qed.

Lemma all_matches_braced : forall fuel s, Forall braced (all_matches fuel s).
Proof.
  induction fuel as [|f IH]; intros s; simpl; [constructor|].
  destruct (match_here s) as [[capture rest]|] eqn:E.
  - constructor; [now apply (match_here_braced s capture rest) | apply IH].
  - destruct s; [constructor | apply IH].
Qed.

Lemma last_some {A} (P : A -> Prop) : forall l d,
  Forall P l -> last (List.map Some l) None = Some d -> P d.
Proof.
  induction l as [|x l IH]; intros d H; [discriminate|].
  inversion H as [|x' l' Hx Hl]; subst. destruct l as [|y l].
  - simpl. intros E; injection E as <-. exact Hx.
  - intros E. apply (IH d Hl). exact E.
Qed.

(** A JSON text that opens with a brace denotes a plain object. *)
Lemma parse_braced t v :
  JSON.parse (123%N :: t) = Normal v -> exists ps, v = Obj ps.
Proof.
  unfold JSON.parse.
  destruct (JSON.parse_value _ _) as [[v' r]|] eqn:E; [|discriminate].
  destruct (JSON.skip_ws r); [|discriminate].
  intros H; injection H as <-.
  destruct (2 * length (123%N :: t) + 2) as [|f]; [discriminate|].
  simpl in E. destruct (JSON.skip_ws t) as [|c' t']; [discriminate|].
  destruct (c' =? 125)%N.
  - injection E as <- _. now exists [].
  - destruct (JSON.parse_members f [] t) as [[ps r0]|]; [|discriminate].
    injection E as <- _. now exists ps.
Qed.

End Fallback.

Section FallbackNames.

Lemma uint_units_inj : forall d d', uint_units d = uint_units d' -> d = d'.
Proof.
  induction d; destruct d'; simpl; intros E; try discriminate;
    try reflexivity; injection E as E; f_equal; auto.
Qed.

Lemma decimal_inj n m : decimal n = decimal m -> n = m.
Proof.
  intros E. apply uint_units_inj in E. now apply DecimalN.Unsigned.to_uint_inj.
Qed.

Lemma tool_label_inj i j : tool_label i = tool_label j -> i = j.
Proof.
  unfold tool_label. intros E. apply app_inv_head in E.
  apply decimal_inj in E. lia.
Qed.

Lemma sanitized_label i :
  (N.of_nat i < array_limit)%N -> sanitized i (tool_label i) = tool_label i.
Proof.
  intros Hi. unfold sanitized.
  rewrite (replace_disallowed_fixed _ (tool_label_allowed i)).
  rewrite firstn_all2 by (now apply tool_label_length).
  reflexivity.
Qed.

End FallbackNames.

Section ErrorShaped.

Variable net : network.

Lemma handle_other_error_shaped msg id st ps :
  decode_outcome (net (JSON.stringify msg)) id = Obj ps ->
  has_key (lit "method") ps && negb (has_key (lit "id") ps) = false ->
  is_nullish (get_own (Obj ps) (lit "error")) = true ->
  has_key (lit "result") ps = false ->
  handle_other net msg id st
  = (safe <- (if has_key (lit "message") ps || has_key (lit "status") ps
              then lift (norm <- normalizeRemoteError (Obj ps) ;;
                         Normal (response
                                   (nullish (get_own (Obj ps) (lit "id")) (nullish id Null))
                                   "error" norm))%js
              else ret (makeError id (-32603)
                          (lit "Remote missing result and error") Undefined)) ;;
     sendResponse safe)%io (requested (JSON.stringify msg) st).
Proof.
  intros Hr Hn He Hres.
  rewrite (handle_other_object net msg id st ps Hr). cbv zeta.
  assert (R : get_own (Obj ps) (lit "result") = Undefined).
  { simpl. unfold has_key in Hres. now destruct (lookup (lit "result") ps). }
  rewrite R. cbn [truthy andb]. unfold mbind. rewrite coerce_object. cbv zeta.
  rewrite Hn, He, Hres. cbn [negb andb].
  destruct (has_key (lit "message") ps || has_key (lit "status") ps); reflexivity.
Qed.

End ErrorShaped.

Section Plain.

Lemma plain_obj ps :
  plain (Obj ps)
  = negb (has_key (lit "toString") ps) && forallb (fun p => plain (snd p)) ps.
Proof.
  simpl. f_equal. induction ps as [|[k x] t IH]; simpl; [reflexivity|].
  now rewrite IH.
Qed.

Lemma plain_lookup k : forall ps x,
  forallb (fun p => plain (snd p)) ps = true -> lookup k ps = Some x ->
  plain x = true.
Proof.
  induction ps as [|[k' v'] ps IH]; intros x; simpl; [discriminate|].
  intros H. apply andb_prop in H as [Hv Hps].
  destruct (JStr.eqb k k'); [intros E; injection E as <-; exact Hv | now apply IH].
Qed.

Lemma plain_nth : forall l n, forallb plain l = true -> plain (nth n l Undefined) = true.
Proof.
  induction l as [|x l IH]; intros [|n] H; simpl; try reflexivity;
    simpl in H; apply andb_prop in H as [Hx Hl]; auto.
Qed.

(** The parts of a plain value are plain. *)
Lemma plain_get_own v k : plain v = true -> plain (get_own v k) = true.
Proof.
  destruct v as [| |b|n|s|l|ps]; try reflexivity.
  - intros _. simpl. destruct (JStr.eqb k (lit "length")); [reflexivity|].
    destruct (array_index k); [|reflexivity]. now destruct (nth_error s _).
  - intros H. simpl in *. destruct (JStr.eqb k (lit "length")); [reflexivity|].
    destruct (array_index k); [|reflexivity]. now apply plain_nth.
  - rewrite plain_obj. intros H. apply andb_prop in H as [_ H]. simpl.
    destruct (lookup k ps) as [x|] eqn:L; [|reflexivity].
    now apply (plain_lookup k ps).
Qed.

Lemma ToString_plain : forall v, plain v = true -> returns (ToString v) = true.
Proof.
  induction v as [| |b|n|s|l IH|ps IH] using value_induction; intros H;
    try reflexivity.
  - now destruct b.
  - simpl in H. cbn [ToString].
    match goal with
    | |- returns (?f true l) = true =>
        enough (J : forall first, returns (f first l) = true) by apply J
    end.
    induction IH as [|x t Hx Ht IHt]; intros first; [reflexivity|].
    simpl in H. apply andb_prop in H as [Px Pt].
    specialize (Hx Px). specialize (IHt Pt false).
    assert (X : returns match x with
                        | Undefined | Null => Normal []
                        | _ => ToString x
                        end = true) by (now destruct x).
    destruct (match x with Undefined | Null => Normal [] | _ => ToString x end);
      [|discriminate].
    cbn [bind]. destruct (_ false t); [reflexivity | discriminate].
  - rewrite plain_obj in H. apply andb_prop in H as [H _].
    apply negb_true_iff in H. simpl. now rewrite H.
Qed.

Lemma ToNumber_plain v : plain v = true -> returns (ToNumber v) = true.
Proof.
  intros H. pose proof (ToString_plain v H) as S.
  destruct v as [| |[|]|n|s|l|ps]; try reflexivity;
    unfold ToNumber; destruct (ToString _); (reflexivity || discriminate).
Qed.

Lemma plain_nullish a b : plain a = true -> plain b = true -> plain (nullish a b) = true.
Proof. now destruct a. Qed.

Lemma plain_or_else a b : plain a = true -> plain b = true -> plain (or_else a b) = true.
Proof. unfold or_else. now destruct (truthy a). Qed.

Lemma repair_tool_plain i t : plain t = true -> returns (repair_tool i t) = true.
Proof.
  intros H. destruct (is_object t) eqn:O.
  - rewrite (repair_tool_object i t O).
    assert (S : returns (ToString (nullish (get_own t (lit "name"))
                                     (Str (tool_label i)))) = true).
    { apply ToString_plain, plain_nullish; [now apply plain_get_own | reflexivity]. }
    destruct (ToString _); [reflexivity | discriminate].
  - now rewrite (repair_tool_other i t O).
Qed.

Lemma repair_plain r : plain r = true -> returns (repairToolsInInitializeResult r) = true.
Proof.
  intros H.
  destruct (get_own r (lit "tools")) as [| | | | |l|] eqn:T;
    try (rewrite repair_without_tools by (now rewrite T); reflexivity).
  destruct (tools_owner _ _ T) as (ps & -> & L).
  rewrite (repair_with_tools _ _ L).
  assert (Pl : forallb plain l = true).
  { pose proof (plain_get_own (Obj ps) (lit "tools") H) as P.
    simpl in P. now rewrite L in P. }
  assert (R : returns (map_from repair_tool 0 l) = true).
  { apply map_from_returns. intros j t Hj. apply repair_tool_plain.
    rewrite forallb_forall in Pl. apply Pl. now apply nth_error_In in Hj. }
  destruct (map_from repair_tool 0 l); [reflexivity | discriminate].
Qed.

Lemma normalize_plain err : plain err = true -> returns (normalizeRemoteError err) = true.
Proof.
  intros H. unfold normalizeRemoteError. rewrite not_object_test.
  destruct (is_object err) eqn:O; simpl negb; cbv iota.
  - rewrite !(get_object err _ O). cbn [bind].
    assert (N : returns (ToNumber
                  (if negb (is_undefined (get_own err (lit "code")))
                   then get_own err (lit "code")
                   else if negb (is_undefined (get_own err (lit "status")))
                        then get_own err (lit "status")
                        else Num (of_Z (-32000)))) = true).
    { apply ToNumber_plain.
      repeat match goal with
             | |- plain (if ?c then _ else _) = true => destruct c
             end; try reflexivity; now apply plain_get_own. }
    destruct (ToNumber _); [|discriminate]. cbn [bind].
    assert (S : returns (ToString
                  (nullish (get_own err (lit "message"))
                     (nullish (get_own err (lit "error"))
                        (nullish (get_own err (lit "reason"))
                           (Str (lit "Remote error")))))) = true).
    { apply ToString_plain.
      repeat apply plain_nullish; try reflexivity; now apply plain_get_own. }
    destruct (ToString _); [reflexivity | discriminate].
  - assert (S : returns (ToString (nullish err (Str (lit "Remote error")))) = true).
    { apply ToString_plain, plain_nullish; [exact H | reflexivity]. }
    destruct (ToString _); [reflexivity | discriminate].
Qed.

Lemma coerce_plain resp fb st :
  plain (get_own resp (lit "error")) = true ->
  (has_key (lit "result") (props_of resp) = false -> plain resp = true) ->
  returns (fst (coerceToValidResponseForClient resp fb st)) = true.
Proof.
  intros He Hr. destruct (is_object resp) eqn:O.
  2:{ now rewrite (coerce_non_object _ _ _ O). }
  destruct resp as [| | | | |l|ps]; try discriminate.
  { now rewrite coerce_array. }
  rewrite coerce_object. cbv zeta.
  destruct (has_key (lit "method") ps && negb (has_key (lit "id") ps));
    [reflexivity|].
  destruct (negb (is_nullish (get_own (Obj ps) (lit "error")))).
  { pose proof (normalize_plain _ He) as N.
    destruct (normalizeRemoteError _); [reflexivity | discriminate]. }
  destruct (has_key (lit "result") ps) eqn:R; simpl; [reflexivity|].
  destruct (has_key (lit "message") ps || has_key (lit "status") ps);
    [|reflexivity].
  pose proof (normalize_plain _ (Hr R)) as N.
  destruct (normalizeRemoteError _); [reflexivity | discriminate].
Qed.

End Plain.

Section Completion.

Variable net : network.

Lemma sendResponse_returns obj st : fst (sendResponse obj st) = Normal tt.
Proof.
  unfold sendResponse, mbind, lift.
  assert (R : returns (response_object obj) = true).
  { unfold response_object. rewrite object_test.
    destruct obj as [| | | | |l|ps]; try reflexivity.
    unfold copy_field, has_property, get. simpl get_own.
    destruct (has_key (lit "id") ps), (has_key (lit "result") ps),
      (has_key (lit "error") ps); reflexivity. }
  destruct (response_object obj); [reflexivity | discriminate].
Qed.

Lemma answer_returns resp fb st :
  plain (get_own resp (lit "error")) = true ->
  (has_key (lit "result") (props_of resp) = false -> plain resp = true) ->
  returns (fst ((safe <- coerceToValidResponseForClient resp fb ;;
                 sendResponse safe)%io st)) = true.
Proof.
  intros He Hr. pose proof (coerce_plain resp fb st He Hr) as C.
  unfold mbind. destruct (coerceToValidResponseForClient resp fb st) as [[safe|e] st1];
    [|discriminate].
  now rewrite sendResponse_returns.
Qed.

Lemma answer_set_returns ps r fb st :
  plain (Obj ps) = true ->
  returns (fst ((safe <- coerceToValidResponseForClient
                           (Obj (set_prop (lit "result") r ps)) fb ;;
                 sendResponse safe)%io st)) = true.
Proof.
  intros H. apply answer_returns.
  - simpl get_own. rewrite lookup_set_prop_other by reflexivity.
    apply (plain_get_own (Obj ps) (lit "error") H).
  - simpl props_of. unfold has_key. now rewrite lookup_set_prop.
Qed.

Lemma handle_other_returns msg id st :
  plain (decode_outcome (net (JSON.stringify msg)) id) = true ->
  returns (fst (handle_other net msg id st)) = true.
Proof.
  intros H.
  destruct (decode_outcome (net (JSON.stringify msg)) id) as [| | | | | |ps] eqn:R.
  7:{ rewrite (handle_other_object net msg id st ps R). cbv zeta.
      destruct (truthy _ && is_array _).
      - pose proof (repair_plain _ (plain_get_own (Obj ps) (lit "result") H)) as Rp.
        destruct (repairToolsInInitializeResult _); [|discriminate].
        now apply answer_set_returns.
      - apply answer_returns; [now apply plain_get_own | auto]. }
  all: now rewrite (handle_other_non_object net msg id st _ R) by discriminate.
Qed.

Lemma handle_initialize_returns msg id st :
  plain (decode_outcome (net (JSON.stringify msg)) id) = true ->
  returns (fst (handle_initialize net msg id st)) = true.
Proof.
  intros H.
  assert (U : forall remote,
             decode_outcome (net (JSON.stringify msg)) id = remote ->
             truthy (if truthy remote then get_own remote (lit "result") else remote)
             = false ->
             truthy (if truthy remote then get_own remote (lit "error") else remote)
             = false ->
             returns (fst (handle_initialize net msg id st)) = true).
  { intros remote Hr T1 T2.
    now rewrite (handle_initialize_unexpected net msg id st remote Hr T1 T2). }
  destruct (decode_outcome (net (JSON.stringify msg)) id) as [| | | | | |ps] eqn:R.
  7:{ destruct (truthy (get_own (Obj ps) (lit "result"))) eqn:T1.
      - rewrite (handle_initialize_object net msg id st ps R T1). cbv zeta.
        pose proof (repair_plain _ (plain_get_own (Obj ps) (lit "result") H)) as Rp.
        destruct (repairToolsInInitializeResult _); [|discriminate].
        now apply answer_set_returns.
      - destruct (truthy (get_own (Obj ps) (lit "error"))) eqn:T2.
        + rewrite (handle_initialize_failed net msg id st _ R T1 T2). cbv zeta.
          assert (S : returns (ToString
                        (or_else (get_own (get_own (Obj ps) (lit "error")) (lit "message"))
                           (Str (lit "unknown")))) = true).
          { apply ToString_plain, plain_or_else; [|reflexivity].
            now repeat apply plain_get_own. }
          destruct (ToString _); [reflexivity | discriminate].
        + apply (U (Obj ps) eq_refl); assumption. }
  all: apply (U _ eq_refl);
    [apply (and_field_non_object _ "result") | apply (and_field_non_object _ "error")];
    (reflexivity || (intros ?; discriminate)).
Qed.

(** A request whose answer from the remote is plain is handled to the
    end. *)
Lemma handleMessage_returns line msg st :
  JSON.parse line = Normal msg -> msg <> Null ->
  plain (remote_payload net line) = true ->
  fst (handleMessage net line st) = Normal tt.
Proof.
  intros Hp Hn H.
  rewrite (remote_payload_parsed net line msg Hp) in H.
  pose proof (handleMessage_cases net line st) as C. rewrite Hp in C.
  assert (R : returns (fst (handleMessage net line st)) = true).
  { destruct (has_method msg).
    - rewrite C. destruct (is_initialize line).
      + now apply handle_initialize_returns.
      + now apply handle_other_returns.
    - destruct msg; now rewrite C. }
  destruct (fst (handleMessage net line st)) as [[]|]; [reflexivity | discriminate].
Qed.

End Completion.

Section Written.

Lemma stringify_defined x : is_undefined x = false -> JSON.stringify x <> None.
Proof. destruct x; try discriminate; intros _; try discriminate; destruct b; discriminate. Qed.

(** The text of an object is the text of its written properties. *)
Lemma stringify_written ps :
  JSON.stringify (Obj (written ps)) = JSON.stringify (Obj ps).
Proof.
  cbn [JSON.stringify]. do 3 f_equal.
  match goal with
  | |- ?f true _ = ?f true _ =>
      enough (H : forall first, f first (written ps) = f first ps) by apply H
  end.
  induction ps as [|[k x] ps IH]; intros first; [reflexivity|].
  unfold written. cbn [filter snd]. fold (written ps).
  destruct (is_undefined x) eqn:U; cbn [negb].
  - destruct x; try discriminate. cbn [JSON.stringify]. apply IH.
  - pose proof (stringify_defined x U) as D.
    destruct (JSON.stringify x) as [s|] eqn:E; [|congruence].
    now rewrite IH.
Qed.

Lemma frame_text_written ps : frame_text (Obj ps) = frame_text (Obj (written ps)).
Proof. unfold frame_text. now rewrite stringify_written. Qed.

Lemma lookup_written_absent k ps :
  lookup k ps = None -> lookup k (written ps) = None.
Proof.
  induction ps as [|[k' x] ps IH]; [reflexivity|]. simpl.
  destruct (JStr.eqb k k') eqn:E; [discriminate|]. intros H.
  destruct (is_undefined x); simpl; rewrite ?E; auto.
Qed.

(** Of an object whose keys are distinct, the written properties are
    those that are not [undefined]. *)
Lemma lookup_written ps k :
  unique_keys ps = true -> lookup k (written ps) = present (lookup k ps).
Proof.
  induction ps as [|[k' x] ps IH]; [reflexivity|].
  cbn [unique_keys]. intros H. apply andb_prop in H as [Hk Hu].
  apply negb_true_iff in Hk. unfold has_key in Hk.
  unfold written. cbn [filter snd lookup]. fold (written ps).
  destruct (JStr.eqb k k') eqn:E.
  - apply eqb_eq in E. subst k'.
    destruct (lookup k ps) eqn:L; [discriminate|].
    unfold present. destruct (is_undefined x); cbn [negb lookup].
    + now apply lookup_written_absent.
    + now rewrite eqb_refl.
  - destruct (is_undefined x); cbn [negb lookup]; rewrite ?E; auto.
Qed.

Lemma response_object_members ps :
  response_object (Obj ps)
  = Normal (Obj (frame_members (lookup (lit "id") ps) (lookup (lit "result") ps)
                   (lookup (lit "error") ps))).
Proof.
  unfold response_object, copy_field, has_property, get.
  simpl truthy. simpl typeof. simpl get_own. unfold has_key.
  destruct (lookup (lit "id") ps), (lookup (lit "result") ps),
    (lookup (lit "error") ps); reflexivity.
Qed.

Lemma response_object_other obj :
  (forall ps, obj <> Obj ps) ->
  response_object obj = Normal (Obj (frame_members None None None)).
Proof.
  intros H. unfold response_object. rewrite object_test.
  destruct obj; try reflexivity. now destruct (H props).
Qed.

Lemma response_object_field obj :
  response_object obj
  = Normal (Obj (frame_members (field obj (lit "id")) (field obj (lit "result"))
                   (field obj (lit "error")))).
Proof.
  destruct obj; try (apply response_object_other; discriminate).
  apply response_object_members.
Qed.

Lemma frame_members_keys i r e k :
  has_key k (frame_members i r e) = true ->
  In k [lit "jsonrpc"; lit "id"; lit "result"; lit "error"].
Proof.
  assert (K : forall out : list (jstr * value),
             (forall k, In k (map fst out) ->
                        In k [lit "jsonrpc"; lit "id"; lit "result"; lit "error"]) ->
             has_key k out = true ->
             In k [lit "jsonrpc"; lit "id"; lit "result"; lit "error"]).
  { intros out H Hk. apply H. unfold has_key in Hk.
    induction out as [|[k' v'] out IH]; simpl in *; [discriminate|].
    destruct (JStr.eqb k k') eqn:E.
    - left. symmetry. now apply eqb_eq.
    - right. apply IH; auto. }
  apply K. destruct i, r, e; simpl; intuition.
Qed.

Lemma frame_members_unique i r e : unique_keys (frame_members i r e) = true.
Proof. destruct i, r, e; reflexivity. Qed.

End Written.

Section DefinedMembers.

Lemma members_defined_lookup ps k x :
  members_defined ps -> lookup k ps = Some x -> x <> Undefined.
Proof.
  unfold members_defined. induction ps as [|[k' v'] ps IH]; simpl; [discriminate|].
  intros H. inversion H as [|? ? Hv Hps]; subst.
  destruct (JStr.eqb k k').
  - intros E; injection E as <-. exact Hv.
  - now apply IH.
Qed.

Lemma members_defined_replace k v ps :
  v <> Undefined -> members_defined ps -> members_defined (replace k v ps).
Proof.
  unfold members_defined. intros Hv. induction ps as [|[k' v'] ps IH]; simpl; [auto|].
  intros H. inversion H as [|? ? Hv' Hps]; subst.
  destruct (JStr.eqb k k'); constructor; auto.
Qed.

Lemma members_defined_insert i k v ps :
  v <> Undefined -> members_defined ps -> members_defined (insert_index i k v ps).
Proof.
  unfold members_defined. intros Hv. induction ps as [|[k' v'] ps IH]; simpl.
  - intros _. constructor; auto.
  - intros H. inversion H as [|? ? Hv' Hps]; subst.
    destruct (array_index k') as [j|]; [destruct (j <? i)%N|];
      repeat constructor; auto.
Qed.

Lemma members_defined_set_prop k v ps :
  v <> Undefined -> members_defined ps -> members_defined (set_prop k v ps).
Proof.
  intros Hv H. unfold set_prop.
  destruct (has_key k ps); [now apply members_defined_replace|].
  destruct (array_index k) as [i|]; [now apply members_defined_insert|].
  apply Forall_app. split; [exact H|]. repeat constructor. exact Hv.
Qed.

(** The members of an object literal are values of the grammar: none is
    [undefined]. *)
Lemma parse_members_defined : forall f acc s ps r,
  JSON.parse_members f acc s = Some (ps, r) ->
  members_defined acc -> members_defined ps.
Proof.
  induction f as [|f IH]; intros acc s ps r H Hacc; [discriminate|].
  simpl in H.
  destruct (JSON.skip_ws s) as [|q t0]; [discriminate|].
  destruct (q =? 34)%N; [|discriminate].
  destruct (JSON.string_chars [] t0) as [[k r0]|]; [|discriminate].
  destruct (JSON.skip_ws r0) as [|col r1]; [discriminate|].
  destruct (col =? 58)%N; [|discriminate].
  destruct (JSON.parse_value f r1) as [[v r2]|] eqn:Ev; [|discriminate].
  pose proof (parse_value_defined _ _ _ _ Ev) as Hv.
  destruct (JSON.skip_ws r2) as [|c t]; [discriminate|].
  destruct (c =? 44)%N.
  - apply (IH _ _ _ _ H). now apply members_defined_set_prop.
  - destruct (c =? 125)%N; [|discriminate]. injection H as <- <-.
    now apply members_defined_set_prop.
Qed.

Lemma parse_value_members f s ps r :
  JSON.parse_value f s = Some (Obj ps, r) -> members_defined ps.
Proof.
  destruct f as [|f]; [discriminate|]. simpl.
  destruct (JSON.skip_ws s) as [|c t]; [discriminate|].
  unfold JSON.keyword.
  destruct (c =? 110)%N; [destruct (starts_with _ _); discriminate|].
  destruct (c =? 116)%N; [destruct (starts_with _ _); discriminate|].
  destruct (c =? 102)%N; [destruct (starts_with _ _); discriminate|].
  destruct (c =? 34)%N; [destruct (JSON.string_chars _ _) as [[? ?]|]; discriminate|].
  destruct (c =? 91)%N.
  { destruct (JSON.skip_ws t) as [|c' t']; [discriminate|].
    destruct (c' =? 93)%N; [discriminate|].
    destruct (JSON.parse_elements _ _ _) as [[? ?]|]; discriminate. }
  destruct (c =? 123)%N.
  { destruct (JSON.skip_ws t) as [|c' t']; [discriminate|].
    destruct (c' =? 125)%N.
    - intros E; injection E as <- _. constructor.
    - destruct (JSON.parse_members f [] t) as [[l r0]|] eqn:Em; [|discriminate].
      intros E; injection E as <- _.
      apply (parse_members_defined _ _ _ _ _ Em). constructor. }
  destruct (JSON.number_literal _) as [[? ?]|]; discriminate.
Qed.

Lemma parse_members text ps :
  JSON.parse text = Normal (Obj ps) -> members_defined ps.
Proof.
  unfold JSON.parse.
  destruct (JSON.parse_value _ text) as [[v r]|] eqn:E; [|discriminate].
  destruct (JSON.skip_ws r); [|discriminate].
  intros H; injection H as ->. now apply (parse_value_members _ _ _ _ E).
Qed.

Lemma parseSseLike_members text ps :
  parseSseLike text = Obj ps -> members_defined ps.
Proof.
  unfold parseSseLike. destruct (last_data text) as [d|]; [|discriminate].
  destruct (JSON.parse d) as [v|e] eqn:E.
  - intros ->. now apply (parse_members d).
  - discriminate.
Qed.

Lemma makeError_members id code message data ps :
  makeError id code message data = Obj ps -> members_defined ps.
Proof.
  unfold makeError. intros E; injection E as <-.
  repeat constructor; simpl; try discriminate. now destruct id.
Qed.

(** No own property of the remote's decoded payload is [undefined]. *)
Lemma decode_outcome_members o id ps :
  decode_outcome o id = Obj ps -> members_defined ps.
Proof.
  unfold decode_outcome. destruct o as [e|status ct text].
  - apply makeError_members.
  - destruct (negb _); [apply makeError_members|].
    destruct (includes _ _).
    + destruct (negb _); [apply makeError_members | apply parseSseLike_members].
    + destruct (JSON.parse text) as [v|e] eqn:E.
      * intros ->. now apply (parse_members text).
      * destruct (truthy _); [apply parseSseLike_members | apply makeError_members].
Qed.

End DefinedMembers.

Section AnswerFrames.

(** What reconciling a plain object and sending the reply writes. *)
Lemma answer_frames ps fb st :
  let r := (safe <- coerceToValidResponseForClient (Obj ps) fb ;;
            sendResponse safe)%io st in
  let rid := nullish (get_own (Obj ps) (lit "id")) (nullish fb Null) in
  exists frames,
    stdout (snd r) = stdout st ++ frames
    /\ (frames = []
        \/ (has_key (lit "id") ps = false
            /\ exists m p,
                 is_object p = true
                 /\ frames = [notification m p; acknowledged (nullish fb Null)])
        \/ ((negb (is_nullish (get_own (Obj ps) (lit "error")))
             || has_key (lit "message") ps || has_key (lit "status") ps = true)
            /\ exists norm, normalized norm /\ frames = [response rid "error" norm])
        \/ (is_nullish (get_own (Obj ps) (lit "error")) = true
            /\ has_key (lit "result") ps = false
            /\ has_key (lit "message") ps = false
            /\ has_key (lit "status") ps = false
            /\ frames = [response (nullish fb Null) "error"
                           (Obj [(lit "code", Num (of_Z (-32603)));
                                 (lit "message",
                                  Str (lit "Remote missing result and error"))])])
        \/ (has_key (lit "result") ps = true
            /\ frames = [response rid "result" (get_own (Obj ps) (lit "result"))])).
Proof.
  cbv zeta. unfold mbind. rewrite coerce_object. cbv zeta.
  destruct (has_key (lit "method") ps && negb (has_key (lit "id") ps)) eqn:Hn.
  { apply andb_prop in Hn as [_ Hi]. apply negb_true_iff in Hi.
    unfold acknowledged. rewrite sendResponse_result.
    eexists. split; [simpl; rewrite <- app_assoc; reflexivity|].
    right; left. split; [exact Hi|].
    eexists _, _. split; [|reflexivity].
    match goal with
    | |- is_object (if ?b then _ else _) = true =>
        destruct b eqn:O; [exact O | reflexivity]
    end. }
  destruct (negb (is_nullish (get_own (Obj ps) (lit "error")))) eqn:He.
  { destruct (normalizeRemoteError _) as [norm|e] eqn:En; cbn [bind].
    - rewrite sendResponse_error. eexists. split; [reflexivity|].
      right; right; left. split; [reflexivity|].
      exists norm. split; [now apply (normalize_shape _ _ En) | reflexivity].
    - exists []. simpl. rewrite app_nil_r. auto. }
  apply negb_false_iff in He.
  destruct (has_key (lit "result") ps) eqn:Hr; cbn [negb andb].
  - rewrite sendResponse_result. eexists. split; [reflexivity|].
    right; right; right; right. auto.
  - destruct (has_key (lit "message") ps || has_key (lit "status") ps) eqn:Hs.
    + destruct (normalizeRemoteError _) as [norm|e] eqn:En; cbn [bind].
      * rewrite sendResponse_error. eexists. split; [reflexivity|].
        right; right; left. split; [now rewrite <- orb_assoc, Hs, orb_true_r|].
        exists norm. split; [now apply (normalize_shape _ _ En) | reflexivity].
      * exists []. simpl. rewrite app_nil_r. auto.
    + rewrite makeError_plain, sendResponse_error.
      apply orb_false_elim in Hs as [Hm Hst].
      eexists. split; [reflexivity|].
      right; right; right; left. auto.
Qed.

End AnswerFrames.

Section WrittenFrames.

Variables (net : network) (line : jstr).

Local Abbreviation F :=
  (fun f => response_to (response_id net line) f \/ notification_frame f).

Lemma own_response_to i k body :
  (k = "result"%string /\ body <> Undefined) \/ (k = "error"%string /\ normalized body) ->
  i = response_id net line -> F (response i k body).
Proof. intros H ->. left. now exists k, body. Qed.

Lemma local_initialize_defined :
  response_id net line = request_id line ->
  F (local_initialize (request_id line)).
Proof.
  intros E. apply own_response_to; [|now rewrite E].
  left. split; [reflexivity | discriminate].
Qed.

Lemma frames_nil (st st1 : state) :
  stdout st1 = stdout st ->
  exists frames, stdout st1 = stdout st ++ frames /\ Forall F frames.
Proof. intros E. exists []. now rewrite app_nil_r. Qed.

(** The frames of an answer are well formed once the identifier the
    reconciler would give is the one [response_id] names. *)
Lemma answer_written ps st st1 :
  stdout st1 = stdout st ->
  members_defined ps ->
  (negb (is_nullish (get_own (Obj ps) (lit "error")))
   || has_key (lit "result") ps || has_key (lit "message") ps
   || has_key (lit "status") ps = true ->
   response_id net line
   = nullish (get_own (Obj ps) (lit "id")) (request_id line)) ->
  (negb (is_nullish (get_own (Obj ps) (lit "error")))
   || has_key (lit "result") ps || has_key (lit "message") ps
   || has_key (lit "status") ps = false ->
   response_id net line = request_id line) ->
  (has_key (lit "id") ps = false -> response_id net line = request_id line) ->
  exists frames,
    stdout (snd ((safe <- coerceToValidResponseForClient (Obj ps) (request_id line) ;;
                  sendResponse safe)%io st1))
    = stdout st ++ frames
    /\ Forall F frames.
Proof.
  intros E D Hrel Hmiss Hnoid.
  destruct (answer_frames ps (request_id line) st1) as (frames & S & H).
  cbv zeta in S, H. rewrite request_id_nullish in H.
  exists frames. rewrite <- E. split; [exact S|].
  destruct H as [-> | [(Hi & m & p & Op & ->) | [(Hc & norm & Hn & ->)
                | [(He & Hr & Hm & Hs & ->) | (Hr & ->)]]]].
  - apply Forall_nil.
  - apply Forall_cons; [|apply Forall_cons; [|apply Forall_nil]].
    + right. now exists m, p.
    + apply own_response_to; [|now rewrite (Hnoid Hi)].
      left. split; [reflexivity | discriminate].
  - apply Forall_cons; [|apply Forall_nil]. apply own_response_to; [right; auto|].
    symmetry. apply Hrel.
    destruct (negb _), (has_key (lit "result") ps), (has_key (lit "message") ps),
      (has_key (lit "status") ps); try reflexivity; discriminate.
  - apply Forall_cons; [|apply Forall_nil]. apply own_response_to.
    + right. split; [reflexivity | apply makeError_normalized].
    + symmetry. apply Hmiss. now rewrite He, Hr, Hm, Hs.
  - apply Forall_cons; [|apply Forall_nil]. apply own_response_to.
    + left. split; [reflexivity|]. simpl. unfold has_key in Hr.
      destruct (lookup (lit "result") ps) as [x|] eqn:L; [|discriminate].
      now apply (members_defined_lookup ps (lit "result")).
    + symmetry. apply Hrel. rewrite Hr. now rewrite orb_true_r.
Qed.

Lemma no_id_request_id ps :
  has_key (lit "id") ps = false ->
  nullish (get_own (Obj ps) (lit "id")) (request_id line) = request_id line.
Proof.
  intros H. simpl. unfold has_key in H. now destruct (lookup (lit "id") ps).
Qed.

Lemma truthy_has_key ps k :
  truthy (get_own (Obj ps) k) = true -> has_key k ps = true.
Proof. simpl. unfold has_key. now destruct (lookup k ps). Qed.

Lemma repair_defined r r' :
  r <> Undefined -> repairToolsInInitializeResult r = Normal r' -> r' <> Undefined.
Proof.
  intros Hr. unfold repairToolsInInitializeResult.
  destruct (negb (truthy r)); [intros E; injection E as <-; exact Hr|].
  destruct (get r "tools") as [ts|]; cbn [bind]; [|discriminate].
  destruct ts; try (intros E; injection E as <-; exact Hr).
  destruct (map_from _ _ _); cbn [bind]; [|discriminate].
  intros E; injection E as <-. discriminate.
Qed.

Lemma response_id_relayed ps :
  remote_payload net line = Obj ps -> relays line (Obj ps) = true ->
  response_id net line = nullish (get_own (Obj ps) (lit "id")) (request_id line).
Proof. intros R H. unfold response_id. now rewrite R, H. Qed.

Lemma response_id_own :
  relays line (remote_payload net line) = false ->
  response_id net line = request_id line.
Proof. intros H. unfold response_id. now rewrite H. Qed.

Lemma response_id_no_id ps :
  remote_payload net line = Obj ps -> has_key (lit "id") ps = false ->
  response_id net line = request_id line.
Proof.
  intros R H. unfold response_id. rewrite R.
  destruct (relays line (Obj ps)); [|reflexivity]. now apply no_id_request_id.
Qed.

Lemma response_id_defined : response_id net line <> Undefined.
Proof.
  assert (R : request_id line <> Undefined).
  { unfold request_id. now destruct (get_own _ _). }
  unfold response_id. destruct (relays _ _); [|exact R].
  destruct (get_own (remote_payload net line) (lit "id")); try discriminate; exact R.
Qed.

Lemma truthy_defined v : truthy v = true -> v <> Undefined.
Proof. intros T ->. discriminate. Qed.

Lemma handle_other_written msg st :
  JSON.parse line = Normal msg -> has_method msg = true ->
  is_initialize line = false ->
  exists frames,
    stdout (snd (handle_other net msg (request_id line) st)) = stdout st ++ frames
    /\ Forall F frames.
Proof.
  intros Hp Hm Hi.
  pose proof (remote_payload_parsed net line msg Hp) as Hr.
  destruct (remote_payload net line) as [| | | | | |ps] eqn:R.
  7:{ symmetry in Hr. pose proof (decode_outcome_members _ _ _ Hr) as D.
      assert (Rel : relays line (Obj ps)
                    = negb (is_nullish (get_own (Obj ps) (lit "error")))
                      || has_key (lit "result") ps || has_key (lit "message") ps
                      || has_key (lit "status") ps).
      { unfold relays. now rewrite (request_of_parsed line msg Hp), Hm, Hi. }
      rewrite (handle_other_object net msg _ st ps Hr). cbv zeta.
      destruct (truthy _ && is_array _) eqn:T.
      - apply andb_prop in T as [T _].
        pose proof (truthy_has_key _ _ T) as K.
        assert (Rt : relays line (Obj ps) = true).
        { rewrite Rel, K. now rewrite !orb_true_r. }
        destruct (repairToolsInInitializeResult _) as [r'|e] eqn:Er.
        + pose proof (repair_defined _ _ (truthy_defined _ T) Er) as Hr'.
          apply answer_written.
          * reflexivity.
          * now apply members_defined_set_prop.
          * intros _. rewrite set_result_keeps_id.
            now apply response_id_relayed.
          * intros C. exfalso. revert C. unfold has_key at 1.
            rewrite lookup_set_prop. now rewrite orb_true_r.
          * intros Hid. rewrite has_key_set_prop_other in Hid by reflexivity.
            now apply (response_id_no_id ps).
        + now apply frames_nil.
      - apply answer_written.
        + reflexivity.
        + exact D.
        + intros C. apply response_id_relayed; [exact R | now rewrite Rel].
        + intros C. apply response_id_own. now rewrite R, Rel.
        + now apply response_id_no_id. }
  all: symmetry in Hr;
    rewrite (handle_other_non_object net msg _ st _ Hr) by discriminate;
    rewrite request_id_nullish;
    (eexists; split; [reflexivity|]); (apply Forall_cons; [|apply Forall_nil]);
    (apply own_response_to;
     [right; split; [reflexivity | apply makeError_normalized]
     | unfold response_id; rewrite R; unfold relays; now rewrite andb_false_r]).
Qed.

Lemma handle_initialize_written msg st :
  JSON.parse line = Normal msg -> has_method msg = true ->
  is_initialize line = true ->
  exists frames,
    stdout (snd (handle_initialize net msg (request_id line) st)) = stdout st ++ frames
    /\ Forall F frames.
Proof.
  intros Hp Hm Hi.
  pose proof (remote_payload_parsed net line msg Hp) as Hr. symmetry in Hr.
  assert (L : response_id net line = request_id line ->
              forall st1 : state, stdout st1 = stdout st ++ [local_initialize (request_id line)] ->
              exists frames, stdout st1 = stdout st ++ frames /\ Forall F frames).
  { intros E st1 S. eexists. split; [exact S|].
    apply Forall_cons; [|apply Forall_nil]. now apply local_initialize_defined. }
  assert (U : truthy (if truthy (remote_payload net line)
                      then get_own (remote_payload net line) (lit "result")
                      else remote_payload net line) = false ->
              truthy (if truthy (remote_payload net line)
                      then get_own (remote_payload net line) (lit "error")
                      else remote_payload net line) = false ->
              response_id net line = request_id line ->
              exists frames,
                stdout (snd (handle_initialize net msg (request_id line) st))
                = stdout st ++ frames /\ Forall F frames).
  { intros T1 T2 E.
    rewrite (handle_initialize_unexpected net msg _ st _ Hr T1 T2).
    now apply L. }
  destruct (remote_payload net line) as [| | | | | |ps] eqn:R.
  7:{ pose proof (decode_outcome_members _ _ _ Hr) as D.
      assert (Rel : relays line (Obj ps) = truthy (get_own (Obj ps) (lit "result"))).
      { unfold relays. now rewrite (request_of_parsed line msg Hp), Hm, Hi. }
      destruct (truthy (get_own (Obj ps) (lit "result"))) eqn:T1.
      - rewrite (handle_initialize_object net msg _ st ps Hr T1). cbv zeta.
        destruct (repairToolsInInitializeResult _) as [r'|e] eqn:Er.
        + pose proof (repair_defined _ _ (truthy_defined _ T1) Er) as Hr'.
          apply answer_written.
          * reflexivity.
          * now apply members_defined_set_prop.
          * intros _. rewrite set_result_keeps_id.
            now apply response_id_relayed.
          * intros C. exfalso. revert C. unfold has_key at 1.
            rewrite lookup_set_prop. now rewrite orb_true_r.
          * intros Hid. rewrite has_key_set_prop_other in Hid by reflexivity.
            now apply (response_id_no_id ps).
        + now apply frames_nil.
      - assert (E : response_id net line = request_id line)
          by (apply response_id_own; now rewrite R, Rel).
        destruct (truthy (get_own (Obj ps) (lit "error"))) eqn:T2.
        + rewrite (handle_initialize_failed net msg _ st _ Hr T1 T2). cbv zeta.
          destruct (ToString _) as [text|e].
          * exists [local_initialize (request_id line); initialize_warning text].
            simpl. rewrite <- app_assoc. split; [reflexivity|].
            apply Forall_cons; [|apply Forall_cons; [|apply Forall_nil]].
            -- now apply local_initialize_defined.
            -- right. eexists _, _. split; reflexivity.
          * now apply L.
        + apply U; simpl; assumption. }
  all: apply U;
    [apply (and_field_non_object _ "result"); (reflexivity || (intros ?; discriminate))
    | apply (and_field_non_object _ "error"); (reflexivity || (intros ?; discriminate))
    | apply response_id_own; rewrite R; unfold relays; now rewrite andb_false_r].
Qed.

(** Every frame written while a line is handled. *)
Lemma handleMessage_written st :
  exists frames,
    stdout (snd (handleMessage net line st)) = stdout st ++ frames
    /\ Forall F frames.
Proof.
  pose proof (handleMessage_cases net line st) as H.
  destruct (JSON.parse line) as [msg|e] eqn:Hp.
  - destruct (has_method msg) eqn:Hm.
    + rewrite H. destruct (is_initialize line) eqn:Hi.
      * now apply handle_initialize_written.
      * now apply handle_other_written.
    + assert (E : response_id net line = request_id line).
      { apply response_id_own. unfold relays.
        now rewrite (request_of_parsed line msg Hp), Hm. }
      destruct msg; rewrite H; try (now apply frames_nil);
        (eexists; split; [reflexivity|]);
        (apply Forall_cons; [|apply Forall_nil]);
        (apply own_response_to; [|now rewrite E]);
        right; (split; [reflexivity | apply makeError_normalized]).
  - rewrite H. now apply frames_nil.
Qed.

End WrittenFrames.

Section TextWritten.

Lemma frame_text_defined x :
  x <> Undefined -> JSON.stringify x = Some (frame_text x).
Proof.
  intros H. unfold frame_text.
  destruct (JSON.stringify x) eqn:E; [reflexivity|].
  exfalso. apply (stringify_defined x); [now destruct x | exact E].
Qed.

(** The line of a response and the line of a notification. *)
Lemma response_text i k body :
  i <> Undefined -> body <> Undefined ->
  frame_text (response i k body)
  = json "{'jsonrpc':'2.0','id':" ++ frame_text i ++ lit ","
    ++ JSON.quote (lit k) ++ lit ":" ++ frame_text body ++ lit "}".
Proof.
  intros Hi Hb. unfold frame_text at 1, response. cbn [JSON.stringify].
  rewrite (frame_text_defined i Hi), (frame_text_defined body Hb).
  cbn [app]. rewrite <- !app_assoc. reflexivity.
Qed.

Lemma notification_text m p :
  is_object p = true ->
  frame_text (notification m p)
  = json "{'jsonrpc':'2.0','method':" ++ JSON.quote m
    ++ json ",'params':" ++ frame_text p ++ lit "}".
Proof.
  intros Hp. unfold frame_text at 1, notification. cbn [JSON.stringify].
  rewrite (frame_text_defined p) by (intros ->; discriminate).
  cbn [app]. rewrite <- !app_assoc. reflexivity.
Qed.

Lemma stdout_text_app (st st' : state) frames :
  stdout st' = stdout st ++ frames ->
  stdout_text st'
  = stdout_text st ++ flat_map (fun obj => frame_text obj ++ [10%N]) frames.
Proof. intros E. unfold stdout_text. rewrite E. apply flat_map_app. Qed.

End TextWritten.

Section RelayedNotification.

Variable net : network.

(** Reconciling a payload that is a notification and sending the reply,
    whatever its [result] was replaced by. *)
Lemma answer_relays ps ps' fb st :
  (forall k, JStr.eqb k (lit "result") = false -> lookup k ps' = lookup k ps) ->
  has_key (lit "method") ps = true -> has_key (lit "id") ps = false ->
  (safe <- coerceToValidResponseForClient (Obj ps') fb ;; sendResponse safe)%io st
  = (Normal tt,
     wrote (acknowledged (nullish fb Null))
       (wrote (notification (relayed_method ps) (relayed_params ps)) st)).
Proof.
  intros Hk Hm Hi. unfold mbind.
  rewrite (coerce_relays ps ps' _ _ Hk Hm Hi).
  unfold acknowledged. now rewrite sendResponse_result.
Qed.

End RelayedNotification.

Section Rejections.

Variables (net : network) (line : jstr) (msg : value) (method : jstr).
Hypothesis parsed : JSON.parse line = Normal msg.
Hypothesis method_given : get_own msg (lit "method") = Str method.
Hypothesis method_not_empty : method <> [].

(** A rejection of the handler is logged by the listener. *)
Lemma on_line_other_raises st e r :
  JStr.eqb method (lit "initialize") = false ->
  handle_other net msg (request_id line) st = (Throw e, r) ->
  on_line net line st
  = logged [LogValue (Str (lit "handleMessage error")); LogError e] r.
Proof.
  intros Hi H. unfold on_line.
  rewrite (handleMessage_method net line msg parsed st method method_given method_not_empty).
  now rewrite Hi, H.
Qed.

End Rejections.

(* ================================================================== *)
(** * The claims *)
(* ================================================================== *)

Section C1.

(** C1, as the code has it.  Whatever the line and the remote, handling
    the line leaves what was on standard output in place and appends
    frames that are each either a response -- exactly the version tag,
    an [id] and one of [result] (a value, never [undefined]) and [error]
    (a normalised error) -- or a notification -- exactly the version tag,
    [method] and [params], an object or an array; the line written for a
    frame has these fields and no other.  The [id] of a response is the
    identifier of the remote's payload when that payload is relayed and
    its identifier is neither absent nor [null]; it is the request's
    identifier (or [null]) in every other case; it is never [undefined].
    A remote success payload with the identifier 7 and the result
    [{x: 1}], whatever else it holds, is written as
    [{"jsonrpc":"2.0","id":7,"result":{"x":1}}], whatever the identifier
    of the request. *)
Theorem frames_are_jsonrpc (net : network) (line : jstr) (st : state) :
  (exists frames,
      stdout (on_line net line st) = stdout st ++ frames
      /\ Forall (fun f => response_to (response_id net line) f
                          \/ notification_frame f) frames)
  /\ (forall f, response_to (response_id net line) f ->
        exists k body,
          (k = "result"%string \/ k = "error"%string)
          /\ frame_text f
             = json "{'jsonrpc':'2.0','id':" ++ frame_text (response_id net line)
               ++ lit "," ++ JSON.quote (lit k) ++ lit ":" ++ frame_text body
               ++ lit "}")
  /\ (forall f, notification_frame f ->
        exists m p,
          frame_text f
          = json "{'jsonrpc':'2.0','method':" ++ JSON.quote m
            ++ json ",'params':" ++ frame_text p ++ lit "}")
  /\ response_id net line <> Undefined
  /\ (forall ps,
        has_method (request_of line) = true ->
        remote_payload net line = Obj ps ->
        lookup (lit "id") ps = Some (Num (of_Z 7)) ->
        lookup (lit "result") ps = Some (Obj [(lit "x", Num (of_Z 1))]) ->
        is_nullish (get_own (Obj ps) (lit "error")) = true ->
        stdout_text (on_line net line st)
        = stdout_text st
          ++ json "{'jsonrpc':'2.0','id':7,'result':{'x':1}}" ++ [10%N]).
Proof.
  split; [|split; [|split; [|split]]].
  - rewrite on_line_stdout. apply handleMessage_written.
  - intros f (k & body & -> & [[-> Hb] | [-> Hb]]).
    + exists "result"%string, body. split; [now left|].
      apply response_text; [apply response_id_defined | exact Hb].
    + exists "error"%string, body. split; [now right|].
      apply response_text; [apply response_id_defined|].
      destruct Hb as (c & m & [-> | (d & _ & ->)]); discriminate.
  - intros f (m & p & -> & Hp). exists m, p. now apply notification_text.
  - apply response_id_defined.
  - intros ps Hm Hr Li Lr He.
    unfold request_of in Hm.
    destruct (JSON.parse line) as [msg|e] eqn:Hp; [|discriminate].
    pose proof (handleMessage_cases net line st) as H. rewrite Hp, Hm in H.
    rewrite (remote_payload_parsed net line msg Hp) in Hr.
    assert (Hn : has_key (lit "method") ps && negb (has_key (lit "id") ps) = false).
    { unfold has_key at 2. rewrite Li. apply andb_false_r. }
    assert (Hres : has_key (lit "result") ps = true)
      by (unfold has_key; now rewrite Lr).
    assert (G : get_own (Obj ps) (lit "result") = Obj [(lit "x", Num (of_Z 1))])
      by (simpl; now rewrite Lr).
    assert (Hrep : repairToolsInInitializeResult (get_own (Obj ps) (lit "result"))
                   = Normal (Obj [(lit "x", Num (of_Z 1))]))
      by (now rewrite G).
    assert (S : stdout (on_line net line st)
                = stdout st ++ [response (Num (of_Z 7)) "result"
                                  (Obj [(lit "x", Num (of_Z 1))])]).
    { rewrite on_line_stdout, H. destruct (is_initialize line).
      - rewrite (handle_initialize_result net msg _ st ps _ Hr Hn He) by
          (rewrite ?G; (reflexivity || exact Hrep)).
        simpl. now rewrite Li.
      - rewrite (handle_other_result net msg _ st ps _ Hr Hn He Hres Hrep).
        simpl. now rewrite Li. }
    rewrite (stdout_text_app _ _ _ S). reflexivity.
Qed.

Lemma frames_are_jsonrpc_witness :
  stdout_text
    (on_line
       (fun _ => Responded 200 (Some (lit "application/json"))
                   (json "{'id': 7, 'result': {'x': 1}, 'meta': {'trace': 'abc'}}"))
       (json "{'jsonrpc':'2.0','id':1,'method':'tools/call'}")
       initial_state)
  = json "{'jsonrpc':'2.0','id':7,'result':{'x':1}}" ++ [10%N].
Proof.
  refine (proj2 (proj2 (proj2 (proj2 (frames_are_jsonrpc
                   (fun _ => Responded 200 (Some (lit "application/json"))
                               (json "{'id': 7, 'result': {'x': 1}, 'meta': {'trace': 'abc'}}"))
                   (json "{'jsonrpc':'2.0','id':1,'method':'tools/call'}")
                   initial_state))))
                [(lit "id", Num (of_Z 7));
                 (lit "result", Obj [(lit "x", Num (of_Z 1))]);
                 (lit "meta", Obj [(lit "trace", Str (lit "abc"))])]
                _ _ _ _ _);
    vm_compute; reflexivity.
Defined.

(** C1 as stated fails when the remote answers under another identifier:
    the response carries the remote's identifier, not the request's. *)
Lemma frames_are_jsonrpc_counterexample :
  let net : network :=
    fun _ => Responded 200 (Some (lit "application/json"))
               (json "{'id': 7, 'result': {'x': 1}}") in
  let line := json "{'jsonrpc':'2.0','id':1,'method':'tools/call'}" in
  request_id line = Num (of_Z 1)
  /\ stdout (on_line net line initial_state)
     = [response (Num (of_Z 7)) "result" (Obj [(lit "x", Num (of_Z 1))])]
  /\ Num (of_Z 7) <> request_id line.
Proof.
  cbv zeta. split; [vm_compute; reflexivity|].
  split; [vm_compute; reflexivity|].
  vm_compute. discriminate.
Qed.

End C1.

Section C2.

(** C2, as the code has it.  The decoded payload of the remote is an
    object with a [method] field and no [id] field.  For a request whose
    method is not [initialize], and for an [initialize] request when the
    [result] of the payload is truthy: when the sanitising of the tool
    names in that [result] completes, handling the line writes exactly
    two frames, in this order: a notification carrying the payload's
    [method] when it is a string (['remote/notification'] otherwise) and
    its [params] when they are an object or an array (an empty object
    otherwise), then the response [{result: {ok: true}}] addressed to the
    request's identifier (or [null]); when the sanitising raises, nothing
    is written.  An [initialize] request whose payload has no truthy
    [result] is answered by the local initialize result instead,
    followed by the warning when the payload has a truthy [error] whose
    message converts to a string, and by nothing otherwise. *)
Theorem remote_notification_relayed
  (net : network) (line : jstr) (msg : value) (method : jstr)
  (ps : list (jstr * value)) (st : state) :
  JSON.parse line = Normal msg ->
  get_own msg (lit "method") = Str method ->
  method <> [] ->
  remote_payload net line = Obj ps ->
  has_key (lit "method") ps = true ->
  has_key (lit "id") ps = false ->
  let result := get_own (Obj ps) (lit "result") in
  let error := get_own (Obj ps) (lit "error") in
  let output := stdout (on_line net line st) in
  let local := local_initialize (request_id line) in
  (JStr.eqb method (lit "initialize") = false \/ truthy result = true ->
   (returns (repairToolsInInitializeResult result) = true ->
    output = stdout st ++ [notification (relayed_method ps) (relayed_params ps);
                            acknowledged (request_id line)])
   /\ (returns (repairToolsInInitializeResult result) = false ->
       output = stdout st))
  /\ (JStr.eqb method (lit "initialize") = true -> truthy result = false ->
      (truthy error = false -> output = stdout st ++ [local])
      /\ (truthy error = true ->
          match ToString (or_else (get_own error (lit "message"))
                            (Str (lit "unknown"))) with
          | Normal text => output = stdout st ++ [local; initialize_warning text]
          | Throw _ => output = stdout st ++ [local]
          end)).
Proof.
  intros Hp Hm Hne Hr Hmeth Hid. cbv zeta.
  rewrite on_line_stdout, (handleMessage_method net line msg Hp st method Hm Hne).
  rewrite (remote_payload_parsed net line msg Hp) in Hr.
  set (r := get_own (Obj ps) (lit "result")).
  assert (Run : forall r' st1,
             stdout st1 = stdout st ->
             stdout (snd ((safe <- coerceToValidResponseForClient
                                     (Obj (set_prop (lit "result") r' ps))
                                     (request_id line) ;;
                           sendResponse safe)%io st1))
             = stdout st ++ [notification (relayed_method ps) (relayed_params ps);
                             acknowledged (request_id line)]).
  { intros r' st1 E.
    rewrite (answer_relays ps (set_prop (lit "result") r' ps) _ st1)
      by (try assumption; intros k Hk; now apply lookup_set_prop_other).
    rewrite request_id_nullish. simpl. now rewrite E, <- app_assoc. }
  split.
  - intros C.
    assert (G : stdout (snd (if JStr.eqb method (lit "initialize")
                             then handle_initialize net msg (request_id line) st
                             else handle_other net msg (request_id line) st))
                = match repairToolsInInitializeResult r with
                  | Normal _ =>
                      stdout st ++ [notification (relayed_method ps) (relayed_params ps);
                                    acknowledged (request_id line)]
                  | Throw _ => stdout st
                  end).
    { destruct (JStr.eqb method (lit "initialize")).
      - destruct C as [C | T]; [discriminate|].
        rewrite (handle_initialize_object net msg _ st ps Hr T). cbv zeta. fold r.
        destruct (repairToolsInInitializeResult r) as [r'|e]; [|reflexivity].
        now apply Run.
      - rewrite (handle_other_object net msg _ st ps Hr). cbv zeta. fold r.
        destruct (truthy r && is_array (get_own r (lit "tools"))) eqn:T.
        + destruct (repairToolsInInitializeResult r) as [r'|e]; [|reflexivity].
          now apply Run.
        + rewrite (repair_nothing r T).
          rewrite (answer_relays ps ps _ _) by auto.
          rewrite request_id_nullish. simpl. now rewrite <- app_assoc. }
    rewrite G.
    destruct (repairToolsInInitializeResult r); split; intros R;
      (reflexivity || discriminate).
  - intros Hi T. rewrite Hi. split.
    + intros T2.
      rewrite (handle_initialize_unexpected net msg _ st (Obj ps) Hr);
        [reflexivity | exact T | exact T2].
    + intros T2.
      rewrite (handle_initialize_failed net msg _ st (Obj ps) Hr T T2). cbv zeta.
      destruct (ToString _) as [text|e]; simpl; [|reflexivity].
      now rewrite <- app_assoc.
Qed.

Lemma remote_notification_relayed_witness :
  stdout (on_line
            (fun _ => Responded 200 (Some (lit "application/json"))
                        (json "{'method':'log','params':{'level':'info'}}"))
            (json "{'jsonrpc':'2.0','id':1,'method':'tools/call'}")
            initial_state)
  = [notification (lit "log") (Obj [(lit "level", Str (lit "info"))]);
     acknowledged (Num (of_Z 1))].
Proof.
  refine (proj1 (proj1 (remote_notification_relayed
                          (fun _ => Responded 200 (Some (lit "application/json"))
                                      (json "{'method':'log','params':{'level':'info'}}"))
                          (json "{'jsonrpc':'2.0','id':1,'method':'tools/call'}")
                          (Obj [(lit "jsonrpc", Str (lit "2.0")); (lit "id", Num (of_Z 1));
                                (lit "method", Str (lit "tools/call"))])
                          (lit "tools/call")
                          [(lit "method", Str (lit "log"));
                           (lit "params", Obj [(lit "level", Str (lit "info"))])]
                          initial_state _ _ _ _ _ _)
                  (or_introl eq_refl)) eq_refl);
    try (vm_compute; reflexivity).
  discriminate.
Defined.

(** C2 as stated fails for an [initialize] request: the same payload, a
    method and no identifier, is answered by the local initialize result
    alone, and no notification is written. *)
Lemma remote_notification_relayed_counterexample :
  let net : network :=
    fun _ => Responded 200 (Some (lit "application/json"))
               (json "{'method':'log','params':{'level':'info'}}") in
  let line := json "{'jsonrpc':'2.0','id':1,'method':'initialize'}" in
  remote_payload net line
  = Obj [(lit "method", Str (lit "log"));
         (lit "params", Obj [(lit "level", Str (lit "info"))])]
  /\ stdout (on_line net line initial_state) = [local_initialize (Num (of_Z 1))].
Proof. cbv zeta. split; vm_compute; reflexivity. Qed.

End C2.

Section C3.

(** C3, as the code has it.  A normalised error is an object whose
    properties are [code], [message] and, when the remote error has a
    [data] that is not [undefined], that [data] unchanged, in this order.
    [code] is the number [Number(v)] for [v] the [code] of the remote
    error when it has one, else its [status] when it has one, else -32000:
    the number itself when [v] is a number, and no integer in general.
    [message] is the string of its [message], else [error], else [reason]
    (a field that is absent or [null] is passed over), else of
    ['Remote error'].  An error that is not an object becomes
    [{code: -32000, message: String(error)}].  The reconciler answers an
    error payload with the normalised error, and the payload
    [{id: 7, error: {message: "boom"}}] is written as
    [{"jsonrpc":"2.0","id":7,"error":{"code":-32000,"message":"boom"}}]. *)
Theorem remote_error_normalized :
  (forall err out,
      is_object err = true ->
      normalizeRemoteError err = Normal out ->
      exists c m,
        (out = Obj [(lit "code", Num c); (lit "message", Str m)]
         /\ get_own err (lit "data") = Undefined
         \/ out = Obj [(lit "code", Num c); (lit "message", Str m);
                       (lit "data", get_own err (lit "data"))]
            /\ get_own err (lit "data") <> Undefined)
        /\ (get_own err (lit "code") <> Undefined ->
            ToNumber (get_own err (lit "code")) = Normal c)
        /\ (forall n, get_own err (lit "code") = Num n -> c = n)
        /\ (get_own err (lit "code") = Undefined ->
            get_own err (lit "status") <> Undefined ->
            ToNumber (get_own err (lit "status")) = Normal c)
        /\ (get_own err (lit "code") = Undefined ->
            get_own err (lit "status") = Undefined ->
            c = of_Z (-32000))
        /\ ToString
             (nullish (get_own err (lit "message"))
                (nullish (get_own err (lit "error"))
                   (nullish (get_own err (lit "reason"))
                      (Str (lit "Remote error")))))
           = Normal m)
  /\ (forall err out,
         is_object err = false ->
         normalizeRemoteError err = Normal out ->
         exists m,
           ToString (nullish err (Str (lit "Remote error"))) = Normal m
           /\ out = Obj [(lit "code", Num (of_Z (-32000))); (lit "message", Str m)])
  /\ (forall ps fb st norm,
         has_key (lit "method") ps && negb (has_key (lit "id") ps) = false ->
         is_nullish (get_own (Obj ps) (lit "error")) = false ->
         normalizeRemoteError (get_own (Obj ps) (lit "error")) = Normal norm ->
         coerceToValidResponseForClient (Obj ps) fb st
         = (Normal (response (nullish (get_own (Obj ps) (lit "id")) (nullish fb Null))
                      "error" norm), st))
  /\ stdout_text
       (on_line
          (fun _ => Responded 200 (Some (lit "application/json"))
                      (json "{'id': 7, 'error': {'message': 'boom'}}"))
          (json "{'jsonrpc':'2.0','id':7,'method':'tools/call'}")
          initial_state)
     = json "{'jsonrpc':'2.0','id':7,'error':{'code':-32000,'message':'boom'}}"
       ++ [10%N].
Proof.
  split; [|split; [|split; [|vm_compute; reflexivity]]].
  - intros err out O. unfold normalizeRemoteError.
    rewrite not_object_test, O. cbv iota. simpl negb. cbv iota.
    rewrite !(get_object err _ O). cbn [bind].
    set (c0 := get_own err (lit "code")). set (s0 := get_own err (lit "status")).
    destruct (ToNumber _) as [c|] eqn:Ec; cbn [bind]; [|discriminate].
    destruct (ToString _) as [m|] eqn:Em; cbn [bind]; [|discriminate].
    intros E; injection E as <-. exists c, m.
    split; [|split; [|split; [|split; [|split; [|reflexivity]]]]].
    + destruct (get_own err (lit "data")); simpl; auto; right; split;
        (reflexivity || discriminate).
    + intros H. destruct c0; simpl in Ec; try exact Ec. congruence.
    + intros n Hn. rewrite Hn in Ec. simpl in Ec. congruence.
    + intros H1 H2. rewrite H1 in Ec. simpl in Ec.
      destruct s0; simpl in Ec; try exact Ec. congruence.
    + intros H1 H2. rewrite H1, H2 in Ec. simpl in Ec. congruence.
  - intros err out O. unfold normalizeRemoteError.
    rewrite not_object_test, O. simpl negb. cbv iota.
    destruct (ToString _) as [m|]; cbn [bind]; [|discriminate].
    intros E; injection E as <-. now exists m.
  - intros ps fb st norm Hn He Hnorm. rewrite coerce_object. cbv zeta.
    now rewrite Hn, He, Hnorm.
Qed.

Lemma remote_error_normalized_witness :
  exists c m,
    Obj [(lit "code", Num (of_Z 404)); (lit "message", Str (lit "gone"));
         (lit "data", Arr [])]
    = Obj [(lit "code", Num c); (lit "message", Str m); (lit "data", Arr [])]
    /\ ToNumber (Num (of_Z 404)) = Normal c
    /\ ToString (Str (lit "gone")) = Normal m.
Proof.
  destruct (proj1 remote_error_normalized
              (Obj [(lit "status", Num (of_Z 404)); (lit "reason", Str (lit "gone"));
                    (lit "data", Arr [])])
              (Obj [(lit "code", Num (of_Z 404)); (lit "message", Str (lit "gone"));
                    (lit "data", Arr [])])
              eq_refl eq_refl)
    as (c & m & Hshape & _ & _ & Hstatus & _ & Hm).
  exists c, m. split; [|split].
  - destruct Hshape as [[_ H]|[H _]]; [discriminate H | exact H].
  - apply Hstatus; [reflexivity | discriminate].
  - exact Hm.
Defined.

(** C3 as stated fails on the code of the error: it need not be an
    integer.  A code that is not numeric becomes NaN, which is written
    [null]. *)
Lemma remote_error_normalized_counterexample :
  normalizeRemoteError (Obj [(lit "code", Str (lit "abc")); (lit "message", Str (lit "boom"))])
  = Normal (Obj [(lit "code", Num NaN); (lit "message", Str (lit "boom"))])
  /\ is_integer NaN = false
  /\ stdout_text
       (on_line
          (fun _ => Responded 200 (Some (lit "application/json"))
                      (json "{'id': 7, 'error': {'code': 'abc', 'message': 'boom'}}"))
          (json "{'jsonrpc':'2.0','id':7,'method':'tools/call'}")
          initial_state)
     = json "{'jsonrpc':'2.0','id':7,'error':{'code':null,'message':'boom'}}"
       ++ [10%N].
Proof. repeat split; vm_compute; reflexivity. Qed.

End C3.

Section C4.

(** C4.  For an [initialize] request that the remote answers with an
    error and no result, handling the line sets the session flag and
    writes the locally synthesised success addressed to the request's
    identifier; when the message of the error converts to a string, it
    then writes exactly one warning notification carrying it (['unknown']
    when the error has no message).  When the conversion raises -- the
    message is an object with a property [toString] of its own -- the
    warning is never written: this is where the code departs from the
    claim, as on the payload [{"error":{"message":{"toString":0}}}]. *)
Theorem initialize_failure_fallback :
  (forall (net : network) (line : jstr) (msg : value) (st : state),
      JSON.parse line = Normal msg ->
      get_own msg (lit "method") = Str (lit "initialize") ->
      truthy (get_own (remote_payload net line) (lit "result")) = false ->
      truthy (get_own (remote_payload net line) (lit "error")) = true ->
      let err := get_own (remote_payload net line) (lit "error") in
      let message := or_else (get_own err (lit "message")) (Str (lit "unknown")) in
      initialized (on_line net line st) = true
      /\ (forall text,
             ToString message = Normal text ->
             stdout (on_line net line st)
             = stdout st ++ [local_initialize (request_id line);
                             initialize_warning text])
      /\ (returns (ToString message) = false ->
          stdout (on_line net line st)
          = stdout st ++ [local_initialize (request_id line)]))
  /\ stdout_text
       (on_line
          (fun _ => Responded 200 (Some (lit "application/json"))
                      (json "{'error':{'message':{'toString':0}}}"))
          (json "{'jsonrpc':'2.0','id':1,'method':'initialize'}")
          initial_state)
     = json "{'jsonrpc':'2.0','id':1,'result':{'protocolVersion':'2024-11-05','serverInfo':{'name':'dify-mcp-bridge','version':'1.0.0'},'capabilities':{},'tools':[]}}"
       ++ [10%N].
Proof.
  split; [|vm_compute; reflexivity].
  intros net line msg st Hp Hm Hres Herr. cbv zeta.
  assert (H : handleMessage net line st
              = handle_initialize net msg (request_id line) st).
  { rewrite (handleMessage_method net line msg Hp st (lit "initialize") Hm)
      by discriminate. reflexivity. }
  rewrite (remote_payload_parsed net line msg Hp) in *.
  rewrite (handle_initialize_failed net msg (request_id line) st _ eq_refl Hres Herr)
    in H.
  cbv zeta in H. unfold on_line. rewrite H.
  destruct (ToString _) as [text|e]; simpl.
  - split; [reflexivity|]. split; [|discriminate].
    intros t E. injection E as <-. now rewrite <- app_assoc.
  - split; [reflexivity|]. split; [discriminate | reflexivity].
Qed.

Lemma initialize_failure_fallback_witness :
  stdout (on_line
            (fun _ => Responded 500 None (lit "down"))
            (json "{'jsonrpc':'2.0','id':1,'method':'initialize'}")
            initial_state)
  = [local_initialize (Num (of_Z 1));
     initialize_warning (lit "Remote MCP error 500")].
Proof.
  refine (proj1 (proj2 (proj1 initialize_failure_fallback
            (fun _ => Responded 500 None (lit "down"))
            (json "{'jsonrpc':'2.0','id':1,'method':'initialize'}")
            (Obj [(lit "jsonrpc", Str (lit "2.0")); (lit "id", Num (of_Z 1));
                  (lit "method", Str (lit "initialize"))])
            initial_state _ _ _ _)) (lit "Remote MCP error 500") _);
    vm_compute; reflexivity.
Defined.

End C4.

Section C5.

(** C5.  What [parseSseLike] returns is the first decoding of the last
    data payload whenever that decoding succeeds -- a string included --
    and [null] whenever it fails: the second decoding is attempted only
    after the first has raised, on the same text, and raises again.  So
    the doubly encoded payload [data: "{\"a\":1}"] comes out as the string
    [{"a":1}], not as the object that string denotes. *)
Theorem sse_second_decoding_never_succeeds :
  (forall text d v,
      last_data text = Some d -> JSON.parse d = Normal v -> parseSseLike text = v)
  /\ (forall text d,
         last_data text = Some d -> returns (JSON.parse d) = false ->
         parseSseLike text = Null)
  /\ (forall text, last_data text = None -> parseSseLike text = Null)
  /\ last_data (json "data: '{\'a\':1}'") = Some (json "'{\'a\':1}'")
  /\ parseSseLike (json "data: '{\'a\':1}'") = Str (json "{'a':1}")
  /\ JSON.parse (json "{'a':1}") = Normal (Obj [(lit "a", Num (of_Z 1))]).
Proof.
  split; [|split; [|split]].
  - intros text d v Hd Hv. unfold parseSseLike. now rewrite Hd, Hv.
  - intros text d Hd Hv. unfold parseSseLike. rewrite Hd.
    destruct (JSON.parse d); [discriminate | reflexivity].
  - intros text Hd. unfold parseSseLike. now rewrite Hd.
  - repeat split; vm_compute; reflexivity.
Qed.

End C5.

Section C6.

(** C6, as the code has it.  The fallback goes one way.  For a response
    with a success status: when the content type names the streaming
    event format, the body is decoded as a stream only, and a falsy
    outcome is the parse error 'no SSE data' with the raw text as data,
    whether or not the body is JSON; otherwise the body is decoded as
    JSON, and only when that raises is it decoded as a stream, a falsy
    outcome being the parse error 'invalid JSON' with the raw text as
    data. *)
Theorem decoder_falls_back_one_way
  (status : N) (ct text : jstr) (id : value) :
  ((200 <=? status) && (status <=? 299))%N = true ->
  let out := decode_outcome (Responded status (Some ct) text) id in
  (includes (lit "text/event-stream") (to_lower ct) = true ->
   out = if truthy (parseSseLike text) then parseSseLike text
         else parse_error id (lit "Parse error (no SSE data)") text)
  /\ (includes (lit "text/event-stream") (to_lower ct) = false ->
      (forall v, JSON.parse text = Normal v -> out = v)
      /\ (returns (JSON.parse text) = false ->
          out = if truthy (parseSseLike text) then parseSseLike text
                else parse_error id (lit "Parse error (invalid JSON)") text)).
Proof.
  intros Hok. cbv zeta. unfold decode_outcome. rewrite Hok. simpl negb. cbv iota.
  unfold parse_error. rewrite <- !makeError_data.
  split.
  - intros ->. now destruct (truthy (parseSseLike text)).
  - intros ->. split.
    + now intros v ->.
    + destruct (JSON.parse text); [discriminate|]. reflexivity.
Qed.

Lemma decoder_falls_back_one_way_witness :
  decode_outcome
    (Responded 200 (Some (lit "text/event-stream; charset=utf-8"))
       (json "data: {'id':1,'result':{}}"))
    Null
  = Obj [(lit "id", Num (of_Z 1)); (lit "result", Obj [])].
Proof.
  refine (eq_trans
            (proj1 (decoder_falls_back_one_way 200
                      (lit "text/event-stream; charset=utf-8")
                      (json "data: {'id':1,'result':{}}") Null eq_refl) _) _);
    vm_compute; reflexivity.
Defined.

(** C6 as stated fails in the converse direction: a body that is plain
    JSON, announced as a stream, is not decoded as JSON. *)
Lemma decoder_falls_back_one_way_counterexample :
  let text := json "{'id':1,'result':{}}" in
  JSON.parse text = Normal (Obj [(lit "id", Num (of_Z 1)); (lit "result", Obj [])])
  /\ decode_outcome (Responded 200 (Some (lit "text/event-stream")) text) (Num (of_Z 1))
     = parse_error (Num (of_Z 1)) (lit "Parse error (no SSE data)") text.
Proof. cbv zeta. split; vm_compute; reflexivity. Qed.

End C6.

Section C7.

(** C7.  A line that decodes to anything but [null] and has no string-valued,
    non-empty method is answered by exactly one error response, with the
    code -32600 and the identifier of the message (or [null]); nothing is
    sent to the remote, nothing is logged, the session flag is untouched.
    The line [null] decodes too and has no method: reading its [id] raises,
    and no response is written. *)
Theorem missing_method_rejected :
  (forall net line msg st,
      JSON.parse line = Normal msg -> msg <> Null -> lacks_method msg ->
      on_line net line st
      = wrote (invalid_request (nullish (get_own msg (lit "id")) Null)) st)
  /\ (forall net st,
         JSON.parse (lit "null") = Normal Null
         /\ lacks_method Null
         /\ stdout (on_line net (lit "null") st) = stdout st).
Proof.
  split.
  - intros net line msg st Hp Hn Hl. unfold on_line.
    rewrite (handleMessage_invalid net line msg Hp st Hn Hl).
    now rewrite (request_id_parsed line msg Hp).
  - intros net st. repeat split.
    intros m H. discriminate.
Qed.

Lemma missing_method_rejected_witness :
  on_line (fun _ => Rejected (MkError [] [])) (json "{'id':'a','params':[]}")
    initial_state
  = wrote (invalid_request (Str (lit "a"))) initial_state.
Proof.
  refine (proj1 missing_method_rejected _ (json "{'id':'a','params':[]}")
            (Obj [(lit "id", Str (lit "a")); (lit "params", Arr [])])
            initial_state _ _ _).
  - vm_compute. reflexivity.
  - discriminate.
  - intros m H. discriminate.
Defined.

End C7.

Section C8.

(** C8.  The Tool-Name Sanitizer is idempotent: sanitising the payload it
    returned gives the same payload (and it raises again where it raised).
    A name it produces is made of [A-Za-z0-9_-] only, is at most 64
    characters long, is not empty, and is its own sanitised form. *)
Theorem sanitizer_idempotent (result : value) :
  tools_within_limit result ->
  bind (repairToolsInInitializeResult result) repairToolsInInitializeResult
  = repairToolsInInitializeResult result
  /\ (forall i name s,
         (N.of_nat i < array_limit)%N ->
         sanitizeToolName name (tool_label i) = Normal s ->
         forallb allowed s = true /\ length s <= 64 /\ s <> []
         /\ sanitizeToolName (Str s) (tool_label i) = Normal s).
Proof.
  intros Hlim. split.
  - destruct (get_own result (lit "tools")) as [| | | | |l|] eqn:T;
      try (rewrite repair_without_tools by (now rewrite T); simpl;
           apply repair_without_tools; now rewrite T).
    destruct (tools_owner _ _ T) as (ps & -> & L).
    rewrite (repair_with_tools _ _ L).
    destruct (map_from repair_tool 0 l) as [l'|e] eqn:M; simpl; [|reflexivity].
    assert (L' : lookup (lit "tools") (replace (lit "tools") (Arr l') ps)
                 = Some (Arr l')).
    { apply lookup_replace. unfold has_key. now rewrite L. }
    rewrite (repair_with_tools _ _ L').
    rewrite (map_from_idem l 0 l'); simpl; [| |exact M].
    + now rewrite replace_same by exact L'.
    + specialize (Hlim l T). lia.
  - intros i name s Hi. rewrite sanitizeToolName_spec.
    destruct (ToString (nullish name (Str []))) as [s0|]; simpl; [|discriminate].
    intros E; injection E as <-.
    repeat split.
    + apply sanitized_allowed.
    + now apply sanitized_length.
    + intros E. pose proof (sanitized_not_nil i s0) as N. now rewrite E in N.
    + rewrite sanitizeToolName_spec. simpl. now rewrite sanitized_fixed.
Qed.

Lemma sanitizer_idempotent_witness :
  let payload :=
    Obj [(lit "tools",
          Arr [Obj [(lit "name", Str (lit "My Tool!!")); (lit "description", Null)];
               Obj [(lit "name", Str [])]; Num (of_Z 5)])] in
  tools_within_limit payload
  /\ bind (repairToolsInInitializeResult payload) repairToolsInInitializeResult
     = repairToolsInInitializeResult payload.
Proof.
  assert (H : tools_within_limit
                (Obj [(lit "tools",
                       Arr [Obj [(lit "name", Str (lit "My Tool!!"));
                                 (lit "description", Null)];
                            Obj [(lit "name", Str [])]; Num (of_Z 5)])])).
  { intros l E. simpl in E. injection E as <-. reflexivity. }
  split; [exact H | exact (proj1 (sanitizer_idempotent _ H))].
Defined.

End C8.

Section C9.

(** C9, as the code has it.  A payload without a tool list is returned as
    it is.  With a tool list whose names convert to strings, the payload
    keeps its properties and their order, and the list keeps its length;
    at each index, a value that is not an object (a primitive or [null])
    is kept as it is, and an object is copied with [name] set to the
    sanitised name: every other property keeps its value and its place,
    [name] keeps its place when the descriptor had one and comes last
    otherwise.  An array in the list counts as an object: it is replaced
    by the plain object of its elements under their indices, with the
    name added.  The sanitised name of a string is what
    [sanitizeToolName] returns for it: the positional fallback for the
    empty string, and otherwise its first 64 characters, each kept when
    it is a letter, a digit, [_] or [-] and replaced by [_] when it is
    not.  A tool named [My Tool!!] becomes [My_Tool__], and a tool with
    the empty name at the second position becomes [tool_2]. *)
Theorem tools_repaired (result : value) :
  (is_array (get_own result (lit "tools")) = false ->
   repairToolsInInitializeResult result = Normal result)
  /\ (forall l,
        get_own result (lit "tools") = Arr l ->
        names_convert l ->
        exists ps l',
          result = Obj ps
          /\ repairToolsInInitializeResult result
             = Normal (Obj (replace (lit "tools") (Arr l') ps))
          /\ List.map fst (replace (lit "tools") (Arr l') ps) = List.map fst ps
          /\ (forall k, JStr.eqb k (lit "tools") = false ->
                        lookup k (replace (lit "tools") (Arr l') ps) = lookup k ps)
          /\ length l' = length l
          /\ forall i t, nth_error l i = Some t ->
               exists t',
                 nth_error l' i = Some t'
                 /\ (is_object t = false -> t' = t)
                 /\ (is_object t = true ->
                     renamed i t t'
                     /\ (forall k, JStr.eqb k (lit "name") = false ->
                                   lookup k (props_of t') = lookup k (spread t))
                     /\ others (lit "name") (props_of t') = others (lit "name") (spread t)
                     /\ (has_key (lit "name") (spread t) = true ->
                         List.map fst (props_of t') = List.map fst (spread t))
                     /\ (has_key (lit "name") (spread t) = false ->
                         exists n, props_of t' = spread t ++ [(lit "name", Str n)])))
  /\ (forall i s,
        sanitizeToolName (Str s) (tool_label i) = Normal (sanitized i s)
        /\ (s = [] -> sanitized i s = tool_label i)
        /\ (s <> [] ->
            length (sanitized i s) = Nat.min 64 (length s)
            /\ forall j c, j < 64 -> nth_error s j = Some c ->
                 nth_error (sanitized i s) j
                 = Some (if allowed c then c else 95%N)))
  /\ repairToolsInInitializeResult
       (Obj [(lit "tools",
              Arr [Obj [(lit "name", Str (lit "My Tool!!")); (lit "title", Str (lit "T!"))];
                   Obj [(lit "name", Str []); (lit "inputSchema", Obj [])];
                   Str (lit "not an object")]);
             (lit "cursor", Null)])
     = Normal
         (Obj [(lit "tools",
                Arr [Obj [(lit "name", Str (lit "My_Tool__")); (lit "title", Str (lit "T!"))];
                     Obj [(lit "name", Str (lit "tool_2")); (lit "inputSchema", Obj [])];
                     Str (lit "not an object")]);
               (lit "cursor", Null)]).
Proof.
  split; [apply repair_without_tools|].
  split; [|split; [intros i s; split; [reflexivity | apply sanitized_characters]
                  | reflexivity]].
  intros l T Hconv.
  destruct (tools_owner _ _ T) as (ps & -> & L).
  assert (HK : has_key (lit "tools") ps = true) by (unfold has_key; now rewrite L).
  rewrite (repair_with_tools _ _ L).
  assert (R : returns (map_from repair_tool 0 l) = true).
  { apply map_from_returns. intros j t Hj. simpl.
    destruct (is_object t) eqn:O.
    - rewrite (repair_tool_object j _ O).
      specialize (Hconv j t Hj O). destruct (ToString _); [reflexivity | discriminate].
    - now rewrite (repair_tool_other j _ O). }
  destruct (map_from repair_tool 0 l) as [l'|] eqn:M; [clear R | discriminate].
  exists ps, l'. simpl. repeat split.
  - apply keys_replace.
  - intros k Hk. rewrite <- (set_prop_present _ _ _ HK).
    now apply lookup_set_prop_other.
  - apply (map_from_length _ _ _ _ M).
  - intros i t Hi.
    destruct (map_from_nth _ _ _ _ M _ _ Hi) as (t' & Ht' & Hf). simpl in Hf.
    exists t'. split; [exact Ht'|]. split.
    + intros O. rewrite (repair_tool_other i _ O) in Hf. congruence.
    + intros O. rewrite (repair_tool_object i _ O) in Hf.
      destruct (ToString _) as [s|] eqn:Es; simpl in Hf; [|discriminate].
      injection Hf as <-. simpl props_of. repeat split.
      * exists s. split; [exact Es | reflexivity].
      * intros k Hk. now apply lookup_set_prop_other.
      * apply others_set_prop.
      * intros HN. rewrite set_prop_present by exact HN. apply keys_replace.
      * intros HN. exists (sanitized i s). unfold set_prop. now rewrite HN.
Qed.

(** C9 as stated fails on an array in the tool list: it is not a mapping,
    and it is not returned unchanged. *)
Lemma tools_repaired_counterexample :
  let t := Arr [Num (of_Z 1); Num (of_Z 2)] in
  let payload := Obj [(lit "tools", Arr [t])] in
  (forall fields, t <> Obj fields)
  /\ repairToolsInInitializeResult payload
     = Normal (Obj [(lit "tools",
                     Arr [Obj [(lit "0", Num (of_Z 1)); (lit "1", Num (of_Z 2));
                               (lit "name", Str (lit "tool_1"))]])])
  /\ repairToolsInInitializeResult payload <> Normal payload.
Proof.
  repeat split; [discriminate | discriminate].
Qed.

End C9.

Section C10.

(** C10.  The line [null] decodes as JSON null; reading the [id] of the
    message raises a TypeError before anything is written or sent; the
    listener logs the rejection on standard error and returns, so that
    standard output, the requests and the session flag are as before. *)
Theorem null_line_writes_nothing (net : network) (st : state) :
  JSON.parse (lit "null") = Normal Null
  /\ handleMessage net (lit "null") st
     = (Throw (TypeError (lit "Cannot read properties of null (reading 'id')")), st)
  /\ on_line net (lit "null") st
     = logged [LogValue (Str (lit "handleMessage error"));
               LogError (TypeError (lit "Cannot read properties of null (reading 'id')"))]
         st
  /\ stdout (on_line net (lit "null") st) = stdout st
  /\ requests (on_line net (lit "null") st) = requests st
  /\ initialized (on_line net (lit "null") st) = initialized st.
Proof. repeat split. Qed.

End C10.

(* ================================================================== *)
(** * Further properties of the bridge *)
(* ================================================================== *)

Section X1.

(** X1.  [sanitizeToolName] returns a string name as it is exactly when
    the name is valid -- 1 to 64 characters, each a letter, a digit, [_]
    or [-] -- or when the name and the fallback are both empty. *)
Theorem valid_names_are_kept (s fallbackBase : jstr) :
  sanitizeToolName (Str s) fallbackBase = Normal s
  <-> valid_name s \/ (s = [] /\ fallbackBase = []).
Proof.
  unfold sanitizeToolName, valid_name. cbn [nullish ToString bind].
  destruct s as [|c s].
  - simpl. split.
    + intros E. injection E as ->. now right.
    + intros [[H _] | [_ ->]]; [congruence | reflexivity].
  - rewrite cleaned_not_nil by discriminate. split.
    + intros E. apply Normal_inj in E. left. split; [discriminate|].
      assert (L : length (c :: s) <= 64).
      { apply (f_equal (@length _)) in E.
        rewrite length_firstn, replace_disallowed_length in E. lia. }
      split; [exact L|].
      rewrite firstn_all2 in E by (now rewrite replace_disallowed_length).
      now apply replace_disallowed_fixed_inv.
    + intros [(_ & L & A) | [E _]]; [|discriminate].
      rewrite (replace_disallowed_fixed _ A), firstn_all2 by exact L. reflexivity.
Qed.

End X1.

Section X2.

(** X2.  After [repairToolsInInitializeResult] has returned, every entry
    of the tool list of its result is either a value that is not an
    object, kept as it was, or a plain object whose [name] is a string of
    1 to 64 characters of [[a-zA-Z0-9_-]]; no array is left in the
    list. *)
Theorem repaired_tools_have_valid_names (result out : value) (l' : list value) :
  tools_within_limit result ->
  repairToolsInInitializeResult result = Normal out ->
  get_own out (lit "tools") = Arr l' ->
  Forall repaired_entry l'.
Proof.
  intros Hlim Hrep Hout.
  destruct (get_own result (lit "tools")) as [| | | | |l|] eqn:T;
    try (rewrite repair_without_tools in Hrep by (now rewrite T);
         injection Hrep as <-; congruence).
  destruct (tools_owner _ _ T) as (ps & -> & L).
  rewrite (repair_with_tools _ _ L) in Hrep.
  destruct (map_from repair_tool 0 l) as [l2|e] eqn:M; simpl in Hrep; [|discriminate].
  injection Hrep as <-. simpl in Hout.
  rewrite lookup_replace in Hout by (unfold has_key; now rewrite L).
  injection Hout as <-.
  apply (map_from_entries l 0); [|exact M].
  specialize (Hlim l T). simpl. lia.
Qed.

Lemma repaired_tools_have_valid_names_witness :
  Forall repaired_entry
    [Obj [(lit "name", Str (lit "My_Tool__")); (lit "title", Str (lit "T!"))];
     Obj [(lit "0", Num (of_Z 1)); (lit "name", Str (lit "tool_2"))];
     Num (of_Z 5)].
Proof.
  refine (repaired_tools_have_valid_names
            (Obj [(lit "tools",
                   Arr [Obj [(lit "name", Str (lit "My Tool!!"));
                             (lit "title", Str (lit "T!"))];
                        Arr [Num (of_Z 1)];
                        Num (of_Z 5)])])
            (Obj [(lit "tools",
                   Arr [Obj [(lit "name", Str (lit "My_Tool__"));
                             (lit "title", Str (lit "T!"))];
                        Obj [(lit "0", Num (of_Z 1)); (lit "name", Str (lit "tool_2"))];
                        Num (of_Z 5)])])
            _ _ _ _).
  - intros l E. simpl in E. injection E as <-. reflexivity.
  - reflexivity.
  - reflexivity.
Defined.

End X2.

Section X3.

(** X3.  A descriptor whose [name] is absent, [null] or the empty string
    gets the positional name [tool_<i+1>] of its index [i], unchanged by
    the sanitising; and the positional names of two different indices
    are different. *)
Theorem unnamed_tools_get_distinct_names :
  (forall i t,
      (N.of_nat i < array_limit)%N ->
      is_object t = true ->
      is_nullish (get_own t (lit "name")) = true \/ get_own t (lit "name") = Str [] ->
      repair_tool i t
      = Normal (Obj (set_prop (lit "name") (Str (tool_label i)) (spread t))))
  /\ (forall i j, tool_label i = tool_label j -> i = j).
Proof.
  split; [|apply tool_label_inj].
  intros i t Hi O Hn. rewrite (repair_tool_object i t O).
  destruct Hn as [Hn | Hn].
  - destruct (get_own t (lit "name")); try discriminate; simpl;
      now rewrite sanitized_label.
  - rewrite Hn. reflexivity.
Qed.

End X3.

Section X4.

(** X4.  Whatever it is given, [sendResponse] raises nothing and writes
    exactly one line: the text of an object [out] that holds [jsonrpc],
    set to ["2.0"], an [id], at least one of [result] and [error], and no
    other key.  Of a plain object it copies [id], [result] and [error]
    where they are present -- both [result] and [error] when both are --,
    puts [null] for a missing [id] and the internal error -32603 for a
    missing [result] and [error]; anything else (a primitive, [null],
    [undefined], an array) gives that internal error with the identifier
    [null].  The line holds the properties of [out] whose value is not
    [undefined]: a property that is present with the value [undefined]
    counts as present and is left out of the text, so that
    [{result: undefined}] is written as [{"jsonrpc":"2.0","id":null}];
    when no [id], [result] or [error] of the object is [undefined], the
    line has an [id] and at least one of [result] and [error]. *)
Theorem sendResponse_always_writes_a_frame (obj : value) (st : state) :
  (exists out,
     sendResponse obj st = (Normal tt, wrote (Obj out) st)
     /\ frame_text (Obj out) = frame_text (Obj (written out))
     /\ (forall k, has_key k out = true ->
                   In k [lit "jsonrpc"; lit "id"; lit "result"; lit "error"])
     /\ lookup (lit "jsonrpc") out = Some (Str (lit "2.0"))
     /\ lookup (lit "id") out
        = Some (match field obj (lit "id") with Some i => i | None => Null end)
     /\ lookup (lit "result") out = field obj (lit "result")
     /\ lookup (lit "error") out
        = match field obj (lit "error"), field obj (lit "result") with
          | Some e, _ => Some e
          | None, None => Some empty_response_error
          | None, Some _ => None
          end
     /\ (forall k, lookup k (written out) = present (lookup k out))
     /\ ((forall k v, field obj k = Some v -> v <> Undefined) ->
         has_key (lit "id") (written out) = true
         /\ has_key (lit "result") (written out)
            || has_key (lit "error") (written out) = true))
  /\ stdout_text (snd (sendResponse (Obj [(lit "result", Undefined)]) initial_state))
     = json "{'jsonrpc':'2.0','id':null}" ++ [10%N].
Proof.
  split; [|vm_compute; reflexivity].
  exists (frame_members (field obj (lit "id")) (field obj (lit "result"))
            (field obj (lit "error"))).
  split.
  { unfold sendResponse, mbind, lift. now rewrite response_object_field. }
  split; [apply frame_text_written|].
  split; [intros k; apply frame_members_keys|].
  split; [reflexivity|].
  split; [now destruct (field obj (lit "id")), (field obj (lit "result")),
            (field obj (lit "error"))|].
  split; [now destruct (field obj (lit "id")), (field obj (lit "result")),
            (field obj (lit "error"))|].
  split; [now destruct (field obj (lit "id")), (field obj (lit "result")),
            (field obj (lit "error"))|].
  split; [intros k; apply lookup_written, frame_members_unique|].
  intros D. unfold has_key.
  rewrite !lookup_written by apply frame_members_unique.
  assert (U : forall k v, field obj k = Some v -> is_undefined v = false).
  { intros k v H. pose proof (D k v H). destruct v; try reflexivity; congruence. }
  destruct (field obj (lit "id")) as [i|] eqn:Fi,
    (field obj (lit "result")) as [r|] eqn:Fr,
    (field obj (lit "error")) as [e|] eqn:Fe;
    cbn [frame_members app lookup JStr.eqb lit present];
    simpl;
    rewrite ?(U _ _ Fi), ?(U _ _ Fr), ?(U _ _ Fe); split; reflexivity.
Qed.

End X4.

Section X5.

(** X5.  Every frame takes exactly one line of standard output: the text
    of a frame holds no line feed and no other control character, so that
    cutting the output at its line feeds gives back the texts of the
    frames, in the order they were written, and an empty rest. *)
Theorem frames_one_per_line (st : state) :
  split_lf (stdout_text st) = List.map frame_text (stdout st) ++ [[]]
  /\ Forall (fun t => printable t = true) (List.map frame_text (stdout st)).
Proof.
  unfold stdout_text. split.
  - induction (stdout st) as [|obj l IH]; [reflexivity|].
    simpl flat_map. fold (frame_text obj). rewrite <- app_assoc.
    unfold split_lf. simpl app at 2.
    rewrite (split_lf_from_line _ [] _ (printable_frame obj)).
    simpl. now rewrite IH.
  - apply Forall_map, Forall_forall. intros obj _. apply printable_frame.
Qed.

End X5.

Section X6.

(** X6.  On a text in which [data:] does not occur, [parseSseLike] finds
    no payload and returns [null]. *)
Theorem sse_without_data_field_is_null (text : jstr) :
  includes (lit "data:") text = false ->
  last_data text = None /\ parseSseLike text = Null.
Proof.
  intros H. unfold parseSseLike, last_data.
  now rewrite (scan_chunks_none text H), H.
Qed.

Lemma sse_without_data_field_is_null_witness :
  last_data (lit "event: ping") = None /\ parseSseLike (lit "event: ping") = Null.
Proof. exact (sse_without_data_field_is_null (lit "event: ping") eq_refl). Defined.

End X6.

Section X7.

(** X7.  The last data line decides.  When the last line of a text that
    is not blank is a data line [data:<p>] with a payload [p] that is not
    blank -- the line starts the text or follows a line feed, and only
    white space comes after it, the blank lines that end an event
    included --, then whatever comes before, other data lines included,
    the payload [parseSseLike] settles on is [p] trimmed, and what it
    returns is the JSON value of that text, or [null] when it is not
    JSON. *)
Theorem sse_last_data_line_decides (pre p w : jstr) :
  pre = [] \/ (exists y, pre = y ++ [10%N]) ->
  one_line p = true -> trim p <> [] -> blank w = true ->
  let text := pre ++ lit "data:" ++ p ++ w in
  last_data text = Some (trim p)
  /\ parseSseLike text
     = match JSON.parse (trim p) with Normal v => v | Throw _ => Null end.
Proof.
  intros Hpre Hl Hp Hw. cbv zeta.
  assert (O : one_line (lit "data:" ++ p) = true) by (now rewrite one_line_app, Hl).
  assert (C : scan_chunks (pre ++ lit "data:" ++ p ++ w) = Some (trim p)).
  { unfold scan_chunks, split_blank.
    rewrite (app_assoc (lit "data:") p w).
    destruct Hpre as [-> | [y ->]].
    - destruct (split_blank_from_line (lit "data:" ++ p) w [] O Hw)
        as (w1 & rest & S & W1 & R).
      rewrite app_nil_l, S.
      apply (scan_chunks_last [] [] p w1 rest (or_introl eq_refl) Hl Hp W1 R).
    - destruct (split_blank_last_line (lit "data:" ++ p) w O ltac:(discriminate) Hw
                  (length y) y [] (le_n _)) as (init & x & w1 & rest & S & X & W1 & R).
      rewrite <- app_assoc.
      change ([10%N] ++ (lit "data:" ++ p) ++ w)
        with (10%N :: (lit "data:" ++ p) ++ w).
      rewrite S.
      apply (scan_chunks_last init x p w1 rest X Hl Hp W1 R). }
  assert (A : last_data (pre ++ lit "data:" ++ p ++ w) = Some (trim p)).
  { unfold last_data. now rewrite C. }
  split; [exact A|].
  unfold parseSseLike. rewrite A.
  destruct (JSON.parse (trim p)); reflexivity.
Qed.

Lemma sse_last_data_line_decides_witness :
  parseSseLike
    ((lit "event: message" ++ [10%N] ++ lit "data: {}" ++ [10%N; 10%N]
      ++ lit "id: 2" ++ [10%N])
     ++ lit "data:" ++ json " {'a': 1}  " ++ [13%N; 10%N; 13%N; 10%N])
  = Obj [(lit "a", Num (of_Z 1))].
Proof.
  refine (eq_trans
            (proj2 (sse_last_data_line_decides
                      (lit "event: message" ++ [10%N] ++ lit "data: {}"
                       ++ [10%N; 10%N] ++ lit "id: 2" ++ [10%N])
                      (json " {'a': 1}  ") [13%N; 10%N; 13%N; 10%N]
                      _ eq_refl _ eq_refl))
            _).
  - right. exists (lit "event: message" ++ [10%N] ++ lit "data: {}"
                   ++ [10%N; 10%N] ++ lit "id: 2").
    reflexivity.
  - vm_compute. discriminate.
  - vm_compute. reflexivity.
Defined.

End X7.

Section X8.

(** X8.  When no line of the text starts a data field with a payload,
    what is left to [parseSseLike] is the regular expression, and every
    payload it can settle on is a text between braces: [parseSseLike]
    then returns a plain object or [null], never an array, a string, a
    number or a boolean. *)
Theorem sse_fallback_yields_objects (text : jstr) :
  scan_chunks text = None ->
  (forall d, last_data text = Some d -> braced d)
  /\ (parseSseLike text = Null \/ exists ps, parseSseLike text = Obj ps).
Proof.
  intros S.
  assert (B : forall d, last_data text = Some d -> braced d).
  { intros d. unfold last_data. rewrite S.
    destruct (includes (lit "data:") text); [|discriminate].
    apply last_some, all_matches_braced. }
  split; [exact B|].
  unfold parseSseLike. destruct (last_data text) as [d|] eqn:E; [|now left].
  destruct (B d eq_refl) as [mid ->].
  destruct (JSON.parse _) as [v|e] eqn:P; [|now left].
  right. now apply (parse_braced _ _ P).
Qed.

Lemma sse_fallback_yields_objects_witness :
  parseSseLike (json "event: message data: {'id': 1}") = Null
  \/ exists ps, parseSseLike (json "event: message data: {'id': 1}") = Obj ps.
Proof.
  refine (proj2 (sse_fallback_yields_objects
                   (json "event: message data: {'id': 1}") _)).
  vm_compute. reflexivity.
Defined.

End X8.

Section X9.

(** X9.  When the remote answers a request with a status outside
    200..299, whatever the content type and the body: a request other
    than [initialize] is answered by exactly one frame, the error -32000
    with the message [Remote MCP error <status>] and the body as [data],
    addressed to the request's identifier (or [null]); an [initialize]
    request is answered by the local initialize result followed by the
    warning that carries that message. *)
Theorem http_failure_reported
  (net : network) (line : jstr) (msg : value) (method : jstr) (st : state)
  (status : N) (ct : option jstr) (text : jstr) :
  JSON.parse line = Normal msg ->
  get_own msg (lit "method") = Str method ->
  method <> [] ->
  net (JSON.stringify msg) = Responded status ct text ->
  ((200 <=? status) && (status <=? 299))%N = false ->
  (JStr.eqb method (lit "initialize") = false ->
   on_line net line st
   = wrote (response (request_id line) "error"
              (bridge_error (-32000) (lit "Remote MCP error " ++ decimal status) text))
       (requested (JSON.stringify msg) st))
  /\ (JStr.eqb method (lit "initialize") = true ->
      stdout (on_line net line st)
      = stdout st ++ [local_initialize (request_id line);
                      initialize_warning (lit "Remote MCP error " ++ decimal status)]).
Proof.
  intros Hp Hm Hne Hnet Hs.
  assert (D : decode_outcome (net (JSON.stringify msg)) (request_id line)
              = makeError (request_id line) (-32000)
                  (lit "Remote MCP error " ++ decimal status) (Str text)).
  { rewrite Hnet. unfold decode_outcome. now rewrite Hs. }
  split; intros Hi.
  - rewrite <- (request_id_nullish line) at 1.
    apply (on_line_other net line msg method Hp Hm Hne st _ Hi).
    now apply handle_other_bridge_error.
  - erewrite (on_line_initialize net line msg method Hp Hm Hne st _ Hi);
      [|refine (handle_initialize_bridge_error net msg _ st _ _ _ _ D); simpl; discriminate].
    reflexivity.
Qed.

Lemma http_failure_reported_witness :
  on_line (fun _ => Responded 503 None (lit "busy"))
    (json "{'jsonrpc':'2.0','id':3,'method':'tools/list'}") initial_state
  = wrote (response (Num (of_Z 3)) "error"
             (bridge_error (-32000) (lit "Remote MCP error 503") (lit "busy")))
      (requested (Some (json "{'jsonrpc':'2.0','id':3,'method':'tools/list'}"))
         initial_state).
Proof.
  refine (eq_trans
            (proj1 (http_failure_reported
                      (fun _ => Responded 503 None (lit "busy"))
                      (json "{'jsonrpc':'2.0','id':3,'method':'tools/list'}")
                      (Obj [(lit "jsonrpc", Str (lit "2.0")); (lit "id", Num (of_Z 3));
                            (lit "method", Str (lit "tools/list"))])
                      (lit "tools/list") initial_state 503 None (lit "busy")
                      _ _ _ _ _) _) _);
    try (vm_compute; reflexivity).
  discriminate.
Defined.

End X9.

Section X10.

(** X10.  When the call of the remote fails -- a network failure, the
    abort on timeout, a failure while the body is read --: a request
    other than [initialize] is answered by exactly one frame, the error
    -32098 with the message [Network error forwarding to remote MCP] and
    the message of the failure (its string when it has no message) as
    [data], addressed to the request's identifier (or [null]); an
    [initialize] request is answered by the local initialize result
    followed by the warning that carries that message. *)
Theorem network_failure_reported
  (net : network) (line : jstr) (msg : value) (method : jstr) (st : state)
  (e : exn) :
  JSON.parse line = Normal msg ->
  get_own msg (lit "method") = Str method ->
  method <> [] ->
  net (JSON.stringify msg) = Rejected e ->
  (JStr.eqb method (lit "initialize") = false ->
   on_line net line st
   = wrote (response (request_id line) "error"
              (bridge_error (-32098) (lit "Network error forwarding to remote MCP")
                 (failure_detail e)))
       (requested (JSON.stringify msg) st))
  /\ (JStr.eqb method (lit "initialize") = true ->
      stdout (on_line net line st)
      = stdout st ++ [local_initialize (request_id line);
                      initialize_warning (lit "Network error forwarding to remote MCP")]).
Proof.
  intros Hp Hm Hne Hnet.
  assert (D : decode_outcome (net (JSON.stringify msg)) (request_id line)
              = makeError (request_id line) (-32098)
                  (lit "Network error forwarding to remote MCP")
                  (Str (failure_detail e))).
  { rewrite Hnet. reflexivity. }
  split; intros Hi.
  - rewrite <- (request_id_nullish line) at 1.
    apply (on_line_other net line msg method Hp Hm Hne st _ Hi).
    now apply handle_other_bridge_error.
  - erewrite (on_line_initialize net line msg method Hp Hm Hne st _ Hi);
      [|refine (handle_initialize_bridge_error net msg _ st _ _ _ _ D); simpl; discriminate].
    reflexivity.
Qed.

Lemma network_failure_reported_witness :
  stdout (on_line (fun _ => Rejected (MkError (lit "AbortError") []))
            (json "{'id':'a','method':'ping'}") initial_state)
  = [response (Str (lit "a")) "error"
       (bridge_error (-32098) (lit "Network error forwarding to remote MCP")
          (lit "AbortError"))].
Proof.
  refine (eq_trans
            (f_equal stdout
               (proj1 (network_failure_reported
                         (fun _ => Rejected (MkError (lit "AbortError") []))
                         (json "{'id':'a','method':'ping'}")
                         (Obj [(lit "id", Str (lit "a")); (lit "method", Str (lit "ping"))])
                         (lit "ping") initial_state (MkError (lit "AbortError") [])
                         _ _ _ _) _)) _);
    try (vm_compute; reflexivity).
  discriminate.
Defined.

End X10.

Section X11.

(** X11.  Normalising is idempotent: an error that [normalizeRemoteError]
    returned is returned as it is when it is normalised again; its [code]
    is a number and its [message] a string. *)
Theorem normalize_idempotent (err out : value) :
  normalizeRemoteError err = Normal out ->
  normalizeRemoteError out = Normal out
  /\ (exists c m, get_own out (lit "code") = Num c
                  /\ get_own out (lit "message") = Str m).
Proof.
  intros H. apply normalize_shape in H. split; [now apply normalize_normalized|].
  destruct H as (c & m & [-> | (d & _ & ->)]); exists c, m; split; reflexivity.
Qed.

Lemma normalize_idempotent_witness :
  normalizeRemoteError
    (Obj [(lit "code", Num (of_Z 404)); (lit "message", Str (lit "gone"));
          (lit "data", Null)])
  = Normal (Obj [(lit "code", Num (of_Z 404)); (lit "message", Str (lit "gone"));
                 (lit "data", Null)]).
Proof.
  exact (proj1 (normalize_idempotent
                  (Obj [(lit "status", Str (lit "404")); (lit "reason", Str (lit "gone"));
                        (lit "data", Null)])
                  (Obj [(lit "code", Num (of_Z 404)); (lit "message", Str (lit "gone"));
                        (lit "data", Null)])
                  eq_refl)).
Defined.

End X11.

Section X12.

(** X12.  The reconciler is idempotent: the response it returned goes
    through [coerceToValidResponseForClient] again unchanged, with the
    same fallback identifier and without anything being written, and
    [sendResponse] writes it as it is. *)
Theorem reconciler_idempotent (resp fallbackId safe : value) (st st' : state) :
  coerceToValidResponseForClient resp fallbackId st = (Normal safe, st') ->
  coerceToValidResponseForClient safe fallbackId st' = (Normal safe, st')
  /\ sendResponse safe st' = (Normal tt, wrote safe st').
Proof.
  intros Hc. split; revert Hc.
  2:{ intros Hc. pose proof (coerce_spec resp fallbackId st) as [_ H].
      rewrite Hc in H. simpl in H. destruct H as (i & k & body & -> & [-> | ->] & _);
        [apply sendResponse_result | apply sendResponse_error]. }
  assert (M : forall code message s,
             coerceToValidResponseForClient
               (makeError fallbackId code message Undefined) fallbackId s
             = (Normal (makeError fallbackId code message Undefined), s)).
  { intros code message s. rewrite makeError_plain.
    apply coerce_error_frame;
      [apply nullish_fallback_only | apply makeError_normalized]. }
  destruct (is_object resp) eqn:O.
  2:{ rewrite (coerce_non_object _ _ _ O). intros E; injection E as <- <-. apply M. }
  destruct resp as [| | | | |l|ps]; try discriminate.
  { rewrite coerce_array. intros E; injection E as <- <-. apply M. }
  rewrite coerce_object. cbv zeta.
  destruct (has_key (lit "method") ps && negb (has_key (lit "id") ps)).
  { intros E; injection E as <- <-.
    apply coerce_result_frame, nullish_fallback_only. }
  destruct (negb (is_nullish (get_own (Obj ps) (lit "error")))).
  { destruct (normalizeRemoteError _) as [norm|] eqn:N; simpl; [|discriminate].
    intros E; injection E as <- <-.
    apply coerce_error_frame;
      [apply nullish_fallback | now apply (normalize_shape _ _ N)]. }
  destruct (negb (has_key (lit "result") ps)
            && (has_key (lit "message") ps || has_key (lit "status") ps)).
  { destruct (normalizeRemoteError _) as [norm|] eqn:N; simpl; [|discriminate].
    intros E; injection E as <- <-.
    apply coerce_error_frame;
      [apply nullish_fallback | now apply (normalize_shape _ _ N)]. }
  destruct (negb (has_key (lit "result") ps)).
  { intros E; injection E as <- <-. apply M. }
  intros E; injection E as <- <-.
  apply coerce_result_frame, nullish_fallback.
Qed.

Lemma reconciler_idempotent_witness :
  coerceToValidResponseForClient
    (response (Num (of_Z 7)) "result" (Obj [(lit "x", Num (of_Z 1))]))
    (Num (of_Z 1)) initial_state
  = (Normal (response (Num (of_Z 7)) "result" (Obj [(lit "x", Num (of_Z 1))])),
     initial_state).
Proof.
  exact (proj1 (reconciler_idempotent
                  (Obj [(lit "id", Num (of_Z 7));
                        (lit "result", Obj [(lit "x", Num (of_Z 1))]);
                        (lit "meta", Null)])
                  (Num (of_Z 1))
                  (response (Num (of_Z 7)) "result" (Obj [(lit "x", Num (of_Z 1))]))
                  initial_state initial_state eq_refl)).
Defined.

End X12.

Section X13.

(** X13.  A result is relayed.  When the decoded payload of the remote
    is an object with a [result], no [error] other than [null], and is
    not a notification: a request other than [initialize] is answered by
    exactly one frame, the response that carries the result -- with the
    names of its tool list sanitised when it has one, as it is
    otherwise, [null], [0] or [false] included -- and the identifier of
    the payload, or the request's when the payload has none or [null];
    this when the sanitising completes: when it raises, the request is
    not answered, nothing is written and the rejection is logged.  An
    [initialize] request is treated in the same way when the result is
    truthy, and is answered by the local initialize result alone when it
    is falsy. *)
Theorem result_relayed
  (net : network) (line : jstr) (msg : value) (method : jstr) (st : state)
  (ps : list (jstr * value)) :
  JSON.parse line = Normal msg ->
  get_own msg (lit "method") = Str method ->
  method <> [] ->
  remote_payload net line = Obj ps ->
  has_key (lit "method") ps && negb (has_key (lit "id") ps) = false ->
  is_nullish (get_own (Obj ps) (lit "error")) = true ->
  has_key (lit "result") ps = true ->
  let result := get_own (Obj ps) (lit "result") in
  let id := nullish (get_own (Obj ps) (lit "id")) (request_id line) in
  (JStr.eqb method (lit "initialize") = false ->
   match repairToolsInInitializeResult result with
   | Normal r' =>
       on_line net line st
       = wrote (response id "result" r') (requested (JSON.stringify msg) st)
   | Throw e =>
       on_line net line st
       = logged [LogValue (Str (lit "handleMessage error")); LogError e]
           (requested (JSON.stringify msg) st)
   end)
  /\ (JStr.eqb method (lit "initialize") = true -> truthy result = true ->
      match repairToolsInInitializeResult result with
      | Normal r' =>
          stdout (on_line net line st) = stdout st ++ [response id "result" r']
      | Throw _ => stdout (on_line net line st) = stdout st
      end)
  /\ (JStr.eqb method (lit "initialize") = true -> truthy result = false ->
      stdout (on_line net line st) = stdout st ++ [local_initialize (request_id line)]).
Proof.
  intros Hp Hm Hne Hr Hn He Hres. cbv zeta.
  rewrite (remote_payload_parsed net line msg Hp) in Hr.
  split; [|split].
  - intros Hi.
    destruct (repairToolsInInitializeResult _) as [r'|e] eqn:Hrep.
    + apply (on_line_other net line msg method Hp Hm Hne st _ Hi).
      rewrite (handle_other_result net msg _ st ps r' Hr Hn He Hres Hrep).
      now rewrite request_id_nullish.
    + apply (on_line_other_raises net line msg method Hp Hm Hne st e _ Hi).
      rewrite (handle_other_object net msg _ st ps Hr). cbv zeta.
      destruct (truthy _ && is_array _) eqn:T.
      * now rewrite Hrep.
      * rewrite (repair_nothing _ T) in Hrep. discriminate.
  - intros Hi T. rewrite on_line_stdout.
    rewrite (handleMessage_method net line msg Hp st method Hm Hne), Hi.
    destruct (repairToolsInInitializeResult _) as [r'|e] eqn:Hrep.
    + rewrite (handle_initialize_result net msg _ st ps r' Hr Hn He T Hrep).
      now rewrite request_id_nullish.
    + rewrite (handle_initialize_object net msg _ st ps Hr T). cbv zeta.
      now rewrite Hrep.
  - intros Hi T.
    erewrite (on_line_initialize net line msg method Hp Hm Hne st _ Hi);
      [|apply (handle_initialize_unexpected net msg _ st (Obj ps) Hr)].
    + reflexivity.
    + exact T.
    + change (truthy (Obj ps)) with true. cbv iota.
      destruct (get_own (Obj ps) (lit "error")); try discriminate; reflexivity.
Qed.

Lemma result_relayed_witness :
  on_line
    (fun _ => Responded 200 (Some (lit "application/json"))
                (json "{'result':{'tools':[{'name':'a b'}]},'extra':1}"))
    (json "{'id':1,'method':'tools/list'}") initial_state
  = wrote (response (Num (of_Z 1)) "result"
             (Obj [(lit "tools", Arr [Obj [(lit "name", Str (lit "a_b"))]])]))
      (requested (Some (json "{'id':1,'method':'tools/list'}")) initial_state).
Proof.
  refine (eq_trans
            (proj1 (result_relayed
                      (fun _ => Responded 200 (Some (lit "application/json"))
                                  (json "{'result':{'tools':[{'name':'a b'}]},'extra':1}"))
                      (json "{'id':1,'method':'tools/list'}")
                      (Obj [(lit "id", Num (of_Z 1)); (lit "method", Str (lit "tools/list"))])
                      (lit "tools/list") initial_state
                      [(lit "result",
                        Obj [(lit "tools", Arr [Obj [(lit "name", Str (lit "a b"))]])]);
                       (lit "extra", Num (of_Z 1))]
                      _ _ _ _ _ _ _) _) _);
    try (vm_compute; reflexivity).
  discriminate.
Defined.

End X13.

Section X14.

(** X14.  A payload without [result].  When the decoded payload of the
    remote is an object without [result], with no [error] other than
    [null], and is not a notification, a request other than [initialize]
    is answered by exactly one error frame: when the payload has a
    [message] or a [status], the payload itself normalised as an error,
    under the payload's identifier or the request's -- this when the
    normalising completes: when it raises, the request is not answered,
    nothing is written and the rejection is logged --; otherwise the
    error -32603 [Remote missing result and error], under the request's
    identifier. *)
Theorem payload_without_result_reported
  (net : network) (line : jstr) (msg : value) (method : jstr) (st : state)
  (ps : list (jstr * value)) :
  JSON.parse line = Normal msg ->
  get_own msg (lit "method") = Str method ->
  method <> [] ->
  JStr.eqb method (lit "initialize") = false ->
  remote_payload net line = Obj ps ->
  has_key (lit "method") ps && negb (has_key (lit "id") ps) = false ->
  is_nullish (get_own (Obj ps) (lit "error")) = true ->
  has_key (lit "result") ps = false ->
  let id := nullish (get_own (Obj ps) (lit "id")) (request_id line) in
  (has_key (lit "message") ps || has_key (lit "status") ps = true ->
   match normalizeRemoteError (Obj ps) with
   | Normal norm =>
       on_line net line st
       = wrote (response id "error" norm) (requested (JSON.stringify msg) st)
   | Throw e =>
       on_line net line st
       = logged [LogValue (Str (lit "handleMessage error")); LogError e]
           (requested (JSON.stringify msg) st)
   end)
  /\ (has_key (lit "message") ps || has_key (lit "status") ps = false ->
      on_line net line st
      = wrote (response (request_id line) "error"
                 (Obj [(lit "code", Num (of_Z (-32603)));
                       (lit "message", Str (lit "Remote missing result and error"))]))
          (requested (JSON.stringify msg) st)).
Proof.
  intros Hp Hm Hne Hi Hr Hn He Hres. cbv zeta.
  rewrite (remote_payload_parsed net line msg Hp) in Hr.
  pose proof (handle_other_error_shaped net msg _ st ps Hr Hn He Hres) as H.
  split.
  - intros Hs. rewrite Hs in H.
    destruct (normalizeRemoteError (Obj ps)) as [norm|e] eqn:Hnorm.
    + apply (on_line_other net line msg method Hp Hm Hne st _ Hi).
      rewrite H. unfold mbind, lift. cbn [bind].
      rewrite request_id_nullish. apply sendResponse_error.
    + apply (on_line_other_raises net line msg method Hp Hm Hne st e _ Hi).
      rewrite H. unfold mbind, lift. reflexivity.
  - intros Hs. rewrite Hs in H.
    apply (on_line_other net line msg method Hp Hm Hne st _ Hi).
    rewrite H. unfold mbind, ret. rewrite makeError_plain, request_id_nullish.
    apply sendResponse_error.
Qed.

Lemma payload_without_result_reported_witness :
  on_line
    (fun _ => Responded 200 (Some (lit "application/json"))
                (json "{'status':404,'message':'Not found'}"))
    (json "{'id':1,'method':'tools/call'}") initial_state
  = wrote (response (Num (of_Z 1)) "error"
             (Obj [(lit "code", Num (of_Z 404));
                   (lit "message", Str (lit "Not found"))]))
      (requested (Some (json "{'id':1,'method':'tools/call'}")) initial_state).
Proof.
  refine (eq_trans
            (proj1 (payload_without_result_reported
                      (fun _ => Responded 200 (Some (lit "application/json"))
                                  (json "{'status':404,'message':'Not found'}"))
                      (json "{'id':1,'method':'tools/call'}")
                      (Obj [(lit "id", Num (of_Z 1)); (lit "method", Str (lit "tools/call"))])
                      (lit "tools/call") initial_state
                      [(lit "status", Num (of_Z 404));
                       (lit "message", Str (lit "Not found"))]
                      _ _ _ _ _ _ _ _) _) _);
    try (vm_compute; reflexivity).
  discriminate.
Defined.

End X14.

Section X15.

(** X15.  A payload that is not a plain object.  When what the remote's
    body decodes to is a primitive, [null] or an array, a request other
    than [initialize] is answered by exactly one frame, the error -32603
    under the request's identifier -- [Remote missing result and error]
    for an array, [Remote returned non-object] otherwise --, and an
    [initialize] request by the local initialize result alone, the
    session flag being set. *)
Theorem non_object_payload_rejected
  (net : network) (line : jstr) (msg : value) (method : jstr) (st : state) :
  JSON.parse line = Normal msg ->
  get_own msg (lit "method") = Str method ->
  method <> [] ->
  (forall ps, remote_payload net line <> Obj ps) ->
  (JStr.eqb method (lit "initialize") = false ->
   on_line net line st
   = wrote (response (request_id line) "error"
              (not_a_response (remote_payload net line)))
       (requested (JSON.stringify msg) st))
  /\ (JStr.eqb method (lit "initialize") = true ->
      on_line net line st
      = MkState (stdout st ++ [local_initialize (request_id line)]) (stderr st)
          (requests st ++ [JSON.stringify msg]) true).
Proof.
  intros Hp Hm Hne H.
  rewrite (remote_payload_parsed net line msg Hp) in *.
  split; intros Hi.
  - rewrite <- (request_id_nullish line) at 1.
    apply (on_line_other net line msg method Hp Hm Hne st _ Hi).
    now apply handle_other_non_object.
  - apply (on_line_initialize net line msg method Hp Hm Hne st _ Hi).
    apply (handle_initialize_unexpected net msg _ st _ eq_refl).
    + now apply (and_field_non_object _ "result").
    + now apply (and_field_non_object _ "error").
Qed.

Lemma non_object_payload_rejected_witness :
  on_line
    (fun _ => Responded 200 (Some (lit "application/json"))
                (json "[{'id':1,'result':{}}]"))
    (json "{'id':1,'method':'tools/call'}") initial_state
  = wrote (response (Num (of_Z 1)) "error"
             (Obj [(lit "code", Num (of_Z (-32603)));
                   (lit "message", Str (lit "Remote missing result and error"))]))
      (requested (Some (json "{'id':1,'method':'tools/call'}")) initial_state).
Proof.
  refine (eq_trans
            (proj1 (non_object_payload_rejected
                      (fun _ => Responded 200 (Some (lit "application/json"))
                                  (json "[{'id':1,'result':{}}]"))
                      (json "{'id':1,'method':'tools/call'}")
                      (Obj [(lit "id", Num (of_Z 1)); (lit "method", Str (lit "tools/call"))])
                      (lit "tools/call") initial_state
                      _ _ _ _) _) _);
    try (vm_compute; reflexivity).
  - discriminate.
  - intros ps. vm_compute. discriminate.
Defined.

End X15.

Section X16.

(** X16.  The bridge stays silent and idle on exactly two kinds of line:
    handling a line leaves the whole state as it was -- nothing written,
    nothing logged, nothing sent, the session flag untouched -- if and
    only if the line is blank or is not JSON. *)
Theorem silent_exactly_on_blank_and_malformed_lines
  (net : network) (line : jstr) (st : state) :
  on_line net line st = st
  <-> trim line = [] \/ returns (JSON.parse line) = false.
Proof.
  split.
  - intros E. destruct (JSON.parse line) as [msg|e] eqn:Hp; [exfalso | now right].
    pose proof (handleMessage_cases net line st) as H. rewrite Hp in H.
    assert (L : forall {A} (l : list A) x, l ++ [x] <> l).
    { intros A l x F. apply (f_equal (@length A)) in F.
      rewrite length_app in F. simpl in F. lia. }
    destruct (has_method msg) eqn:Hm.
    + pose proof (on_line_forwards net line st) as Rq.
      unfold forwarded in Rq. rewrite Hp, Hm, E in Rq.
      symmetry in Rq. now apply L in Rq.
    + unfold on_line in E. destruct msg; rewrite H in E;
        try (apply (f_equal stdout) in E; simpl in E; now apply L in E).
      apply (f_equal stderr) in E; simpl in E; now apply L in E.
  - intros [B | P]; unfold on_line.
    + now rewrite handleMessage_blank.
    + pose proof (handleMessage_cases net line st) as H.
      destruct (JSON.parse line); [discriminate|]. now rewrite H.
Qed.

End X16.

Section X17.

(** X17.  Every request is forwarded exactly once: handling a line sends
    one request to the remote when the line decodes to a message with a
    method that is a non-empty string -- [initialize] included, and
    whatever happens afterwards --, and none otherwise; the body of the
    request is the JSON text of the decoded message, never [undefined]. *)
Theorem request_forwarded_once (net : network) (line : jstr) (st : state) :
  requests (on_line net line st) = requests st ++ forwarded line
  /\ Forall (fun body => body <> None) (forwarded line).
Proof.
  split; [apply on_line_forwards|].
  - unfold forwarded. destruct (JSON.parse line) as [msg|e] eqn:Hp; [|constructor].
    destruct (has_method msg); constructor; [|constructor].
    apply parse_defined in Hp. destruct msg as [| |[|]| | | |]; try discriminate.
    congruence.
Qed.

End X17.

Section X18.

(** X18.  One line, at most one response.  The frames written while a
    line is handled are none, or one response with at most one
    notification before it or after it.  When the line is JSON and the
    handler returns, the response is there; when the handler raises,
    nothing was written, or the local initialize result alone. *)
Theorem one_response_per_request (net : network) (line : jstr) (st : state) :
  exists frames,
    stdout (on_line net line st) = stdout st ++ frames
    /\ (frames = [] \/ answered_by net line frames)
    /\ (returns (JSON.parse line) = true ->
          fst (handleMessage net line st) = Normal tt ->
          answered_by net line frames)
    /\ (returns (fst (handleMessage net line st)) = false ->
          frames = [] \/ frames = [local_initialize (request_id line)]).
Proof.
  rewrite on_line_stdout.
  pose proof (handleMessage_cases net line st) as H.
  destruct (JSON.parse line) as [msg|e] eqn:Hp.
  - destruct (has_method msg) eqn:Hm.
    + destruct (handleMessage_trace net line st msg Hp Hm) as (frames & S & T).
      exists frames. split; [exact S|].
      destruct (fst (handleMessage net line st)) as [u|e].
      * repeat split; auto. discriminate.
      * repeat split; try discriminate; auto.
        destruct T as [-> | ->]; auto.
        right. left. eexists. split; [reflexivity|].
        apply local_initialize_response.
    + pose proof (invalid_request_answers net line) as I.
      destruct msg; rewrite H; simpl;
        try (exists [invalid_request (request_id line)]; repeat split; auto;
             discriminate).
      exists []. rewrite app_nil_r. repeat split; auto. discriminate.
  - rewrite H. exists []. simpl. rewrite app_nil_r. repeat split; auto; discriminate.
Qed.

End X18.

Section X19.

(** X19.  Every request whose answer is plain is answered.  When the
    line decodes to a message other than [null] and no object inside the
    decoded payload of the remote has a property named [toString], the
    handler returns without raising, and the line is answered by exactly
    one response, with at most one notification beside it. *)
Theorem plain_answers_are_relayed
  (net : network) (line : jstr) (msg : value) (st : state) :
  JSON.parse line = Normal msg -> msg <> Null ->
  plain (remote_payload net line) = true ->
  fst (handleMessage net line st) = Normal tt
  /\ exists frames,
       stdout (on_line net line st) = stdout st ++ frames
       /\ answered_by net line frames.
Proof.
  intros Hp Hn H.
  pose proof (handleMessage_returns net line msg st Hp Hn H) as R.
  split; [exact R|]. rewrite on_line_stdout.
  destruct (has_method msg) eqn:Hm.
  - destruct (handleMessage_trace net line st msg Hp Hm) as (frames & S & T).
    rewrite R in T. now exists frames.
  - pose proof (handleMessage_cases net line st) as C. rewrite Hp, Hm in C.
    exists [invalid_request (request_id line)].
    split; [|apply invalid_request_answers].
    destruct msg; now rewrite C.
Qed.

Lemma plain_answers_are_relayed_witness :
  fst (handleMessage
         (fun _ => Responded 200 (Some (lit "application/json"))
                     (json "{'id':1,'error':{'code':'E1','message':['a',{'b':1}]}}"))
         (json "{'id':1,'method':'tools/call'}") initial_state)
  = Normal tt.
Proof.
  refine (proj1 (plain_answers_are_relayed
                   (fun _ => Responded 200 (Some (lit "application/json"))
                               (json "{'id':1,'error':{'code':'E1','message':['a',{'b':1}]}}"))
                   (json "{'id':1,'method':'tools/call'}")
                   (Obj [(lit "id", Num (of_Z 1)); (lit "method", Str (lit "tools/call"))])
                   initial_state _ _ _));
    try (vm_compute; reflexivity).
  discriminate.
Defined.

End X19.

Section X20.

(** X20.  The session flag is set by [initialize] and by nothing else:
    after a line has been handled the flag is true exactly when it was
    true before or the line is a request whose method is [initialize],
    whatever the remote answered and whether or not the handler raised.
    The flag is never cleared. *)
Theorem session_flag_set_by_initialize (net : network) (line : jstr) (st : state) :
  initialized (on_line net line st) = initialized st || is_initialize line.
Proof.
  rewrite on_line_flag.
  pose proof (handleMessage_cases net line st) as H.
  assert (I : forall msg, JSON.parse line = Normal msg -> has_method msg = false ->
                          is_initialize line = false).
  { intros msg Hp Hm. unfold is_initialize. rewrite Hp. unfold has_method in Hm.
    destruct (get_own msg (lit "method")) as [| | | |[|c m]| |]; try reflexivity.
    discriminate. }
  destruct (JSON.parse line) as [msg|e] eqn:Hp.
  - destruct (has_method msg) eqn:Hm.
    + rewrite H. destruct (is_initialize line).
      * rewrite handle_initialize_flag. now rewrite orb_true_r.
      * rewrite handle_other_flag. now rewrite orb_false_r.
    + rewrite (I msg eq_refl Hm), orb_false_r.
      destruct msg; rewrite H; reflexivity.
  - rewrite H. unfold is_initialize. rewrite Hp. simpl. now rewrite orb_false_r.
Qed.

End X20.

Section X21.

(** X21.  The session flag is never read: from two states that differ in
    the flag only, handling a line writes the same frames, logs the same
    messages, sends the same requests and completes in the same way.  A
    request that comes before [initialize] is handled like any other. *)
Theorem session_flag_never_read (net : network) (line : jstr) (st : state) (b : bool) :
  stdout (on_line net line (with_flag b st)) = stdout (on_line net line st)
  /\ stderr (on_line net line (with_flag b st)) = stderr (on_line net line st)
  /\ requests (on_line net line (with_flag b st)) = requests (on_line net line st)
  /\ fst (handleMessage net line (with_flag b st)) = fst (handleMessage net line st).
Proof.
  destruct (blind_handleMessage net line st b) as [b' E].
  unfold on_line. rewrite E.
  destruct (handleMessage net line st) as [[u|e] st1]; simpl; auto.
Qed.

End X21.
